(** * proxym: the proxy decision engine, embedded and verified

    A shallow embedding of the Go packages [proxym], [proxym/rotations] and
    [proxym/selects]: the [Proxy] entity with its [ProxyStats], the rotation
    strategies, the select strategies with their providers and filters,
    [ResourceConfig] with its domain matching, and [ProxyManagerImpl] with
    [GetNextProxy].

    Conventions.
    - A Go pointer [*T] is an index into a store of [T] objects wrapped in
      [option]: [None] is [nil].  Objects reached through equal pointers are
      the same object, so a [Proxy] listed in several pools has one set of
      flags and one statistics record.
    - Go's [uint] and [int] are taken at 64 bits; their arithmetic wraps and
      the wrap-around is written out ([uint_wrap], [int_wrap]).
    - A call that panics in Go (a nil dereference, an index out of range)
      yields [Panicked]; it does not return.
    - A Go slice is a window on a backing array ([Slice], [Arrays]): slices
      that share an array see each other's writes, and [append] writes in
      place when the capacity suffices.  The pools of the manager and of its
      resources are such slices.  A slice that nothing else can reach (the
      copy that [GetProxies] returns, the result of a filter) is the list of
      its elements.
    - Mutexes are not modelled: the embedding describes sequential calls.
    - [ProxyMetadata] is left out: no function embedded here reads or
      writes it. *)

From Stdlib Require Import ZArith List Bool Lia String Ascii Arith.
Import ListNotations.
Local Open Scope string_scope.
Local Open Scope Z_scope.
Set Warnings "-register-all".

(** ** Machine integers *)

Definition uint_bits : Z := 64.
Definition uint_modulus : Z := 2 ^ uint_bits.

(** Reduction of an integer to Go's [uint]. *)
Definition uint_wrap (z : Z) : Z := z mod uint_modulus.

(** [x++] on a [uint]. *)
Definition uint_incr (x : Z) : Z := uint_wrap (x + 1).

Definition int_bits : Z := 64.
Definition max_int : Z := 2 ^ (int_bits - 1) - 1.
Definition min_int : Z := - 2 ^ (int_bits - 1).

(** Reduction of an integer to Go's (two's complement) [int]. *)
Definition int_wrap (z : Z) : Z :=
  (z + 2 ^ (int_bits - 1)) mod 2 ^ int_bits - 2 ^ (int_bits - 1).

(** [len(s)] of a slice, as an [int]. *)
Definition len {A : Type} (s : list A) : Z := Z.of_nat (List.length s).

(** ** Outcome of a call that may panic *)

Inductive Ret (A : Type) : Type :=
| Ok (a : A)
| Panicked.
Arguments Ok {A} a.
Arguments Panicked {A}.

(** [s[i]] on a slice: panics when the index is out of range. *)
Definition slice_at {A : Type} (s : list A) (i : Z) : Ret A :=
  if (i <? 0) || (len s <=? i) then Panicked
  else match nth_error s (Z.to_nat i) with
       | Some a => Ok a
       | None => Panicked
       end.

(** ** Errors (errors.go) *)

Inductive error : Type :=
| ErrProxyNotAvailable
| ErrUnsupportedRoundTripperImpl
| ErrResourceNotFound
| ErrEmptyProxyList
| ErrFailedSelectProxy
| ErrorfWW (e1 e2 : error)          (* fmt.Errorf("%w: %w", e1, e2) *)
| ErrorfW (e : error) (msg : string) (* fmt.Errorf("%w: msg", e) *)
| ErrForeign (msg : string).         (* an error made outside this module *)

Fixpoint error_eqb (a b : error) : bool :=
  match a, b with
  | ErrProxyNotAvailable, ErrProxyNotAvailable => true
  | ErrUnsupportedRoundTripperImpl, ErrUnsupportedRoundTripperImpl => true
  | ErrResourceNotFound, ErrResourceNotFound => true
  | ErrEmptyProxyList, ErrEmptyProxyList => true
  | ErrFailedSelectProxy, ErrFailedSelectProxy => true
  | ErrorfWW a1 a2, ErrorfWW b1 b2 => error_eqb a1 b1 && error_eqb a2 b2
  | ErrorfW a1 m1, ErrorfW b1 m2 => error_eqb a1 b1 && String.eqb m1 m2
  | ErrForeign m1, ErrForeign m2 => String.eqb m1 m2
  | _, _ => false
  end.

(** [errors.Is(err, target)]: [err] or an error it wraps equals [target]. *)
Fixpoint errors_Is_nonnil (err target : error) : bool :=
  error_eqb err target ||
  match err with
  | ErrorfWW e1 e2 => errors_Is_nonnil e1 target || errors_Is_nonnil e2 target
  | ErrorfW e _ => errors_Is_nonnil e target
  | _ => false
  end.

Definition errors_Is (err : option error) (target : error) : bool :=
  match err with
  | None => false
  | Some e => errors_Is_nonnil e target
  end.

(** ** What the module takes from outside

    [net/http], [net/url], [strings.ToLower] (Unicode tables) and
    [math/rand/v2] are not part of the module; the embedding is parametric in
    them.
    - [Response] is [http.Response].
    - [url_Hostname s] is [None] when [url.Parse(s)] fails and otherwise the
      [Hostname()] of the parsed URL.
    - [rand_IntN k n] is what the [k]-th draw [rand.IntN(n)] of the process
      returns; [rand_in_range] is its documented range.
    - [growslice_cap c n] is the capacity that the runtime picks when
      [append] moves a slice of capacity [c] to a new array to hold [n]
      elements; [append] makes it at least [n]. *)
Class GoLib : Type := {
  Response : Type;
  url_Hostname : string -> option string;
  strings_ToLower : string -> string;
  rand_IntN : nat -> Z -> Z;
  growslice_cap : nat -> nat -> nat
}.

Definition rand_in_range (lib : GoLib) : Prop :=
  forall (k : nat) (n : Z), 0 < n -> 0 <= rand_IntN k n < n.

(** ** Slices and their backing arrays

    [sl_array] names the backing array of a slice, [sl_off] is the index in
    it of the slice's first element, [sl_len] and [sl_cap] are [len(s)] and
    [cap(s)].  Slices cut from one another ([s[i:j]]) and a slice passed as a
    variadic argument ([f(s...)]) share the backing array. *)
Record Slice : Type := mkSlice {
  sl_array : nat;
  sl_off : nat;
  sl_len : nat;
  sl_cap : nat
}.

(** [make([]T, 0)]: a slice without capacity. *)
Definition empty_slice : Slice := mkSlice 0 0 0 0.

(** The store of the backing arrays with elements of type [A]: [cell a i] is
    the [i]-th element of the array [a].  The arrays below [allocated] are
    the ones handed out so far; [append] takes the next one when it has to
    move a slice. *)
Record Arrays (A : Type) : Type := mkArrays {
  cell : nat -> nat -> A;
  allocated : nat
}.
Arguments mkArrays {A} cell allocated.
Arguments cell {A} a _ _.
Arguments allocated {A} a.

(** The elements of a slice in order: what [range s] visits and what
    [copy(dst, s)] copies. *)
Definition slice_elems {A : Type} (mem : Arrays A) (s : Slice) : list A :=
  map (fun i => cell mem (sl_array s) (sl_off s + i)%nat) (seq 0 (sl_len s)).

(** [len(s)]. *)
Definition slice_len (s : Slice) : Z := Z.of_nat (sl_len s).

(** The cells after [xs] was written into the array [a] from index [i] on. *)
Definition cell_write {A : Type} (c : nat -> nat -> A) (a i : nat)
           (xs : list A) : nat -> nat -> A :=
  fun a' j =>
    if (a' =? a)%nat && (i <=? j)%nat && (j <? i + List.length xs)%nat
    then nth (j - i) xs (c a' j)
    else c a' j.

Section Append.

Context {lib : GoLib} {A : Type}.

(** Go's [append(s, xs...)]: the store afterwards and the slice returned.
    When the capacity suffices the elements are written into the backing array
    behind the slice, where every slice on that array sees them; otherwise
    the elements of [s] and [xs] go to a newly allocated array.  [xs] holds
    the values appended: [append] reads them before it writes. *)
Definition slice_append (mem : Arrays A) (s : Slice) (xs : list A)
  : Arrays A * Slice :=
  let n := (sl_len s + List.length xs)%nat in
  if (n <=? sl_cap s)%nat
  then (mkArrays (cell_write (cell mem) (sl_array s)
                             (sl_off s + sl_len s) xs)
                 (allocated mem),
        mkSlice (sl_array s) (sl_off s) n (sl_cap s))
  else
    let a := allocated mem in
    (mkArrays (cell_write (cell mem) a 0 (slice_elems mem s ++ xs)) (S a),
     mkSlice a 0 n (Nat.max n (growslice_cap (sl_cap s) n))).

End Append.

(** ** ProxyStats and Proxy (proxy.go) *)

Record ProxyStats : Type := mkProxyStats {
  totalRequests : Z;
  successCount : Z;
  errorCount : Z;
  stats_lastUsed : Z  (* time.Time, as a reading of the clock *)
}.

(** The zero value [&ProxyStats{}] that [NewProxy] allocates. *)
Definition ProxyStats_zero : ProxyStats := mkProxyStats 0 0 0 0.

Definition ProxyStats_TotalRequests (s : ProxyStats) : Z := totalRequests s.
Definition ProxyStats_SuccessCount (s : ProxyStats) : Z := successCount s.
Definition ProxyStats_ErrorCount (s : ProxyStats) : Z := errorCount s.
Definition ProxyStats_LastUsed (s : ProxyStats) : Z := stats_lastUsed s.

Record Proxy : Type := mkProxy {
  url : option string;   (* nil: a direct connection *)
  stats : ProxyStats;
  isActive : bool;
  isDisabled : bool
}.

Definition NewProxy (u : option string) : Proxy :=
  mkProxy u ProxyStats_zero false false.

Definition NewDirectConnection : Proxy := NewProxy None.

Definition Proxy_Disable (p : Proxy) : Proxy :=
  mkProxy (url p) (stats p) (isActive p) true.

Definition Proxy_Enable (p : Proxy) : Proxy :=
  mkProxy (url p) (stats p) (isActive p) false.

Definition Proxy_IsDisabled (p : Proxy) : bool := isDisabled p.

Definition Proxy_activate (p : Proxy) : Proxy :=
  mkProxy (url p) (stats p) true (isDisabled p).

Definition Proxy_deactivate (p : Proxy) : Proxy :=
  mkProxy (url p) (stats p) false (isDisabled p).

Definition Proxy_IsActive (p : Proxy) : bool := isActive p.

Definition Proxy_IsDirect (p : Proxy) : bool :=
  match url p with None => true | Some _ => false end.

Definition Proxy_Stats (p : Proxy) : ProxyStats := stats p.

Section Stats.

Context {lib : GoLib}.

(** [ProxyStats.Update(response, err)]; [now] is what [time.Now()] reads. *)
Definition ProxyStats_Update (now : Z) (response : option Response)
           (err : option error) (s : ProxyStats) : ProxyStats :=
  let total := uint_incr (totalRequests s) in
  match response, err with
  | Some _, None =>
      mkProxyStats total (uint_incr (successCount s)) (errorCount s) now
  | _, _ =>
      mkProxyStats total (successCount s) (uint_incr (errorCount s)) now
  end.

(** [Proxy.Update]: shorthand for [p.Stats().Update(response, err)]. *)
Definition Proxy_Update (now : Z) (response : option Response)
           (err : option error) (p : Proxy) : Proxy :=
  mkProxy (url p) (ProxyStats_Update now response err (Proxy_Stats p))
          (isActive p) (isDisabled p).

(** A completed request as it is reported to [Update]. *)
Record Report : Type := mkReport {
  rep_now : Z;
  rep_response : option Response;
  rep_err : option error
}.

Definition ProxyStats_report (s : ProxyStats) (r : Report) : ProxyStats :=
  ProxyStats_Update (rep_now r) (rep_response r) (rep_err r) s.

(** The statistics after a sequence of [Update] calls, first call first. *)
Definition ProxyStats_run (rs : list Report) (s : ProxyStats) : ProxyStats :=
  fold_left ProxyStats_report rs s.

End Stats.

(** ** Rotation strategies (rotation.go, rotations/) *)

(** [CompositeRotationLogicType] is an [int] with two named values. *)
Definition CompositeRotationLogicType : Type := Z.
Definition RotationLogicAND : CompositeRotationLogicType := 0.
Definition RotationLogicOR : CompositeRotationLogicType := 1.

(** The implementations of the [RotationStrategy] interface.  [OtherRotation]
    stands for an implementation made outside the module: [ShouldRotate] reads
    the proxy and changes nothing. *)
Inductive RotationStrategy : Type :=
| OnlyEnabledRotation
| ErrorThresholdRotation (threshold : Z)
| RequestLimitedRotation (limit : Z)
| RoundRobinRotation
| CompositeRotation (strategies : list RotationStrategy)
                    (logic : CompositeRotationLogicType)
| OtherRotation (shouldRotate : Proxy -> bool).

Definition NewErrorThresholdRotation (threshold : Z) : RotationStrategy :=
  ErrorThresholdRotation threshold.

Definition NewRequestLimitedRotation (limit : Z) : RotationStrategy :=
  RequestLimitedRotation limit.

Definition NewCompositeRotationStrategy (logic : CompositeRotationLogicType)
           (strategies : list RotationStrategy) : RotationStrategy :=
  CompositeRotation strategies logic.

(** [ShouldRotate]; the inner [loop] is the [for ... range c.strategies] of
    [CompositeRotation.ShouldRotate], which asks the sub-strategies in order
    and stops at the first answer that decides. *)
Fixpoint ShouldRotate (s : RotationStrategy) (proxy : Proxy) : bool :=
  match s with
  | OnlyEnabledRotation => Proxy_IsDisabled proxy
  | ErrorThresholdRotation threshold =>
      ProxyStats_ErrorCount (Proxy_Stats proxy) >=? threshold
  | RequestLimitedRotation limit =>
      ProxyStats_TotalRequests (Proxy_Stats proxy) >=? limit
  | RoundRobinRotation => true
  | CompositeRotation strategies logic =>
      if len strategies =? 0 then false
      else
        (fix loop (rest : list RotationStrategy) : bool :=
           match rest with
           | [] => logic =? RotationLogicAND
           | strategy :: rest' =>
               let result := ShouldRotate strategy proxy in
               if (logic =? RotationLogicOR) && result then true
               else if (logic =? RotationLogicAND) && negb result then false
               else loop rest'
           end) strategies
  | OtherRotation shouldRotate => shouldRotate proxy
  end.

Definition DefaultRotationStrategy : RotationStrategy :=
  NewCompositeRotationStrategy RotationLogicOR
    [OnlyEnabledRotation; NewErrorThresholdRotation 1].

(** ** The functions of Go's [strings] package that resource.go calls

    Go strings are byte sequences, here [string].  [strings_Trim] is given for
    a cutset of ASCII bytes, which is how resource.go calls it. *)

Definition strings_HasPrefix (s prefix : string) : bool :=
  String.prefix prefix s.

Definition strings_TrimPrefix (s prefix : string) : string :=
  if strings_HasPrefix s prefix
  then String.substring (String.length prefix)
                        (String.length s - String.length prefix) s
  else s.

Definition strings_HasSuffix (s suffix : string) : bool :=
  (String.length suffix <=? String.length s)%nat &&
  String.eqb (String.substring (String.length s - String.length suffix)
                               (String.length suffix) s) suffix.

Fixpoint in_cutset (c : ascii) (cutset : string) : bool :=
  match cutset with
  | EmptyString => false
  | String d rest => Ascii.eqb c d || in_cutset c rest
  end.

Fixpoint strings_TrimLeft (s cutset : string) : string :=
  match s with
  | EmptyString => EmptyString
  | String c rest =>
      if in_cutset c cutset then strings_TrimLeft rest cutset else s
  end.

Fixpoint strings_TrimRight (s cutset : string) : string :=
  match s with
  | EmptyString => EmptyString
  | String c rest =>
      match strings_TrimRight rest cutset with
      | EmptyString =>
          if in_cutset c cutset then EmptyString else String c EmptyString
      | kept => String c kept
      end
  end.

Definition strings_Trim (s cutset : string) : string :=
  strings_TrimRight (strings_TrimLeft s cutset) cutset.

(** ** Select filters, providers and strategies (select.go, selects/) *)

(** A [*Proxy]: [None] is nil, [Some i] points to the [i]-th [Proxy] object. *)
Definition ProxyPtr : Type := option nat.

(** The store of [Proxy] objects. *)
Definition ProxyHeap : Type := nat -> Proxy.

Definition heap_set (h : ProxyHeap) (i : nat) (p : Proxy) : ProxyHeap :=
  fun j => if Nat.eqb j i then p else h j.

Inductive SelectFilter : Type :=
| RemoveActiveProxyFilter
| RemoveDisabledFilter.

(** The loop of [RemoveActiveProxyFilter.Filter]; [p.IsActive()] on a nil
    [p] panics. *)
Fixpoint RemoveActiveProxyFilter_Filter (h : ProxyHeap)
         (proxies : list ProxyPtr) : Ret (list ProxyPtr) :=
  match proxies with
  | [] => Ok []
  | None :: _ => Panicked
  | Some i :: rest =>
      match RemoveActiveProxyFilter_Filter h rest with
      | Panicked => Panicked
      | Ok result =>
          if negb (Proxy_IsActive (h i)) then Ok (Some i :: result)
          else Ok result
      end
  end.

(** The loop of [RemoveDisabledFilter.Filter]. *)
Fixpoint RemoveDisabledFilter_Filter (h : ProxyHeap)
         (proxies : list ProxyPtr) : Ret (list ProxyPtr) :=
  match proxies with
  | [] => Ok []
  | None :: _ => Panicked
  | Some i :: rest =>
      match RemoveDisabledFilter_Filter h rest with
      | Panicked => Panicked
      | Ok result =>
          if negb (Proxy_IsDisabled (h i)) then Ok (Some i :: result)
          else Ok result
      end
  end.

Definition Filter (f : SelectFilter) (h : ProxyHeap)
           (proxies : list ProxyPtr) : Ret (list ProxyPtr) :=
  match f with
  | RemoveActiveProxyFilter => RemoveActiveProxyFilter_Filter h proxies
  | RemoveDisabledFilter => RemoveDisabledFilter_Filter h proxies
  end.

(** A [SelectStrategyProxyProvider].  [OwnerProvider] is the
    [ProxyManagerImpl] or the [ResourceConfig] that the strategy's factory was
    applied to ([WithSelectStrategy] calls [factory(pm)],
    [WithResourceSelectStrategy] calls [factory(rc)]); its [GetProxies] is a
    copy of the owner's pool. *)
Inductive Provider : Type :=
| OwnerProvider
| FilteredSelectProvider (sourceProvider : Provider)
                         (filters : list SelectFilter).

Definition NewFilteredSelectProvider (sourceProvider : Provider)
           (filters : list SelectFilter) : Provider :=
  FilteredSelectProvider sourceProvider filters.

(** The loop of [FilteredSelectProvider.GetProxies]: it returns as soon as a
    filter leaves nothing. *)
Fixpoint filters_loop (h : ProxyHeap) (filters : list SelectFilter)
         (proxies : list ProxyPtr) : Ret (list ProxyPtr) :=
  match filters with
  | [] => Ok proxies
  | filter :: rest =>
      match Filter filter h proxies with
      | Panicked => Panicked
      | Ok proxies' =>
          if len proxies' =? 0 then Ok proxies'
          else filters_loop h rest proxies'
      end
  end.

(** [GetProxies] of a provider; [pool] is what [GetProxies] of its owner
    returns, a copy of the elements of the owner's slice. *)
Fixpoint Provider_GetProxies (p : Provider) (h : ProxyHeap)
         (pool : list ProxyPtr) : Ret (list ProxyPtr) :=
  match p with
  | OwnerProvider => Ok pool
  | FilteredSelectProvider sourceProvider filters =>
      match Provider_GetProxies sourceProvider h pool with
      | Panicked => Panicked
      | Ok proxies => filters_loop h filters proxies
      end
  end.

(** The implementations of [SelectStrategy]; [index] is the cursor of
    [RoundRobinSelect]. *)
Inductive SelectStrategy : Type :=
| RandomSelect (provider : Provider)
| RoundRobinSelect (provider : Provider) (index : Z).

Definition strategy_provider (s : SelectStrategy) : Provider :=
  match s with
  | RandomSelect provider => provider
  | RoundRobinSelect provider _ => provider
  end.

(** A [SelectStrategyFactory]: the constructors are the functions of that type
    which the module offers. *)
Inductive SelectStrategyFactory : Type :=
| NewRandomSelect
| NewRoundRobinSelect
| NewFilteredSelectFactory (selectFactory : SelectStrategyFactory)
                           (filters : list SelectFilter).

(** [factory(provider)]. *)
Fixpoint apply_factory (factory : SelectStrategyFactory)
         (provider : Provider) : SelectStrategy :=
  match factory with
  | NewRandomSelect => RandomSelect provider
  | NewRoundRobinSelect => RoundRobinSelect provider (-1)
  | NewFilteredSelectFactory selectFactory filters =>
      apply_factory selectFactory (NewFilteredSelectProvider provider filters)
  end.

Definition DefaultSelectStrategy : SelectStrategyFactory :=
  NewFilteredSelectFactory NewRandomSelect
    [RemoveActiveProxyFilter; RemoveDisabledFilter].

Definition emptyProxiesError : error :=
  ErrorfW ErrFailedSelectProxy "empty proxies from provider".

(** What a [Select()] call returns: the selected pointer and the error. *)
Definition Selected : Type := (ProxyPtr * option error)%type.

Section Selects.

Context {lib : GoLib}.

(** [RandomSelect.Select]; [draws] counts the draws made from the random
    source so far.  Returns the outcome and the new count. *)
Definition RandomSelect_Select (provider : Provider) (h : ProxyHeap)
           (pool : list ProxyPtr) (draws : nat) : Ret Selected * nat :=
  match Provider_GetProxies provider h pool with
  | Panicked => (Panicked, draws)
  | Ok proxies =>
      if len proxies =? 0 then (Ok (None, Some emptyProxiesError), draws)
      else
        match slice_at proxies (rand_IntN draws (len proxies)) with
        | Panicked => (Panicked, S draws)
        | Ok p => (Ok (p, None), S draws)
        end
  end.

(** [RoundRobinSelect.Select]: returns the outcome and the new cursor.  Go's
    [%] truncates towards zero ([Z.rem]); a panic at the indexing happens
    after the cursor was stored. *)
Definition RoundRobinSelect_Select (provider : Provider) (index0 : Z)
           (h : ProxyHeap) (pool : list ProxyPtr) : Ret Selected * Z :=
  match Provider_GetProxies provider h pool with
  | Panicked => (Panicked, index0)
  | Ok proxies =>
      if len proxies =? 0 then (Ok (None, Some emptyProxiesError), index0)
      else
        let index1 := Z.rem (int_wrap (index0 + 1)) (len proxies) in
        match slice_at proxies index1 with
        | Panicked => (Panicked, index1)
        | Ok p => (Ok (p, None), index1)
        end
  end.

(** [s.Select()] for a strategy [s] whose provider's owner returns [pool]
    from [GetProxies]: the outcome, the strategy afterwards, the draws
    afterwards. *)
Definition Select (s : SelectStrategy) (h : ProxyHeap)
           (pool : list ProxyPtr) (draws : nat)
  : Ret Selected * SelectStrategy * nat :=
  match s with
  | RandomSelect provider =>
      let '(r, draws') := RandomSelect_Select provider h pool draws in
      (r, s, draws')
  | RoundRobinSelect provider index0 =>
      let '(r, index1) := RoundRobinSelect_Select provider index0 h pool in
      (r, RoundRobinSelect provider index1, draws)
  end.

End Selects.

(** ** ResourceConfig (resource.go, options.go) *)

Record ResourceConfig : Type := mkResourceConfig {
  rc_proxies : Slice;                            (* []*Proxy *)
  domain : string;
  notIgnoreSubdomains : bool;
  rc_selectStrategy : option SelectStrategy;     (* None: a nil interface *)
  rc_rotationStrategy : option RotationStrategy  (* None: a nil interface *)
}.

(** The options that the [With...] functions of options.go return.
    [WithResourceProxies(proxies...)] keeps the slice it was called with.  A
    strategy and a factory can be nil ([None]). *)
Inductive ResourceConfigOption : Type :=
| WithResourceProxies (proxies : Slice)
| WithResourceSelectStrategy (factory : option SelectStrategyFactory)
| WithResourceRotationStrategy (strategy : option RotationStrategy)
| WithDomain (domain : string)
| WithIgnoreSubdomains (ignore : bool).

(** [opt(rc)]; [factory(rc)] on a nil [factory] panics. *)
Definition apply_ResourceConfigOption (rc : ResourceConfig)
           (opt : ResourceConfigOption) : Ret ResourceConfig :=
  match opt with
  | WithResourceProxies proxies =>
      Ok (mkResourceConfig proxies (domain rc) (notIgnoreSubdomains rc)
                           (rc_selectStrategy rc) (rc_rotationStrategy rc))
  | WithResourceSelectStrategy None => Panicked
  | WithResourceSelectStrategy (Some factory) =>
      Ok (mkResourceConfig (rc_proxies rc) (domain rc)
                           (notIgnoreSubdomains rc)
                           (Some (apply_factory factory OwnerProvider))
                           (rc_rotationStrategy rc))
  | WithResourceRotationStrategy strategy =>
      Ok (mkResourceConfig (rc_proxies rc) (domain rc)
                           (notIgnoreSubdomains rc)
                           (rc_selectStrategy rc) strategy)
  | WithDomain d =>
      Ok (mkResourceConfig (rc_proxies rc) d (notIgnoreSubdomains rc)
                           (rc_selectStrategy rc) (rc_rotationStrategy rc))
  | WithIgnoreSubdomains ignore =>
      Ok (mkResourceConfig (rc_proxies rc) (domain rc) (negb ignore)
                           (rc_selectStrategy rc) (rc_rotationStrategy rc))
  end.

(** [for _, opt := range opts { opt(rc) }]. *)
Fixpoint apply_ResourceConfigOptions (opts : list ResourceConfigOption)
         (rc : ResourceConfig) : Ret ResourceConfig :=
  match opts with
  | [] => Ok rc
  | opt :: rest =>
      match apply_ResourceConfigOption rc opt with
      | Panicked => Panicked
      | Ok rc' => apply_ResourceConfigOptions rest rc'
      end
  end.

Definition ResourceConfig_Domain (rc : ResourceConfig) : string := domain rc.

(** [GetProxies()]: a copy of the elements of [rc.proxies]. *)
Definition ResourceConfig_GetProxies (mem : Arrays ProxyPtr)
           (rc : ResourceConfig) : list ProxyPtr :=
  slice_elems mem (rc_proxies rc).

Section ResourceAppend.

Context {lib : GoLib}.

(** [AddProxies(proxies...)]: [rc.proxies = append(rc.proxies, proxies...)]. *)
Definition ResourceConfig_AddProxies (proxies : list ProxyPtr)
           (mem : Arrays ProxyPtr) (rc : ResourceConfig)
  : Arrays ProxyPtr * ResourceConfig :=
  let '(mem', s) := slice_append mem (rc_proxies rc) proxies in
  (mem', mkResourceConfig s (domain rc) (notIgnoreSubdomains rc)
                          (rc_selectStrategy rc) (rc_rotationStrategy rc)).

End ResourceAppend.

(** [trimDomain]. *)
Definition trimDomain (d : string) : string :=
  let domainReturn :=
    strings_TrimPrefix
      (strings_TrimPrefix (strings_TrimPrefix d "http://") "https://")
      "www." in
  strings_Trim domainReturn "/ ".

Section Resource.

Context {lib : GoLib}.

(** [getDomainFromURL]. *)
Definition getDomainFromURL (urlStr : string) : string :=
  match url_Hostname urlStr with
  | None => trimDomain urlStr
  | Some hostname =>
      if String.eqb hostname EmptyString then trimDomain urlStr
      else trimDomain hostname
  end.

(** [normalizeDomain]. *)
Definition normalizeDomain (d : string) : string :=
  if String.eqb d EmptyString then EmptyString
  else strings_ToLower (getDomainFromURL d).

(** [CompareDomain]. *)
Definition CompareDomain (rc : ResourceConfig) (d : string) : bool :=
  let rcDomain := ResourceConfig_Domain rc in
  let normalized := normalizeDomain d in
  if String.eqb normalized rcDomain then true
  else if negb (notIgnoreSubdomains rc)
          && strings_HasSuffix normalized ("." ++ rcDomain)
       then true
       else false.

(** [NewResourceConfig(normalizeDomain, opts...)]: panics when, after the
    options, a strategy is nil. *)
Definition NewResourceConfig (normalize : bool)
           (opts : list ResourceConfigOption) : Ret ResourceConfig :=
  match apply_ResourceConfigOptions
          opts (mkResourceConfig empty_slice EmptyString false None None) with
  | Panicked => Panicked
  | Ok rc =>
      match rc_rotationStrategy rc, rc_selectStrategy rc with
      | Some _, Some _ =>
          if normalize
          then Ok (mkResourceConfig (rc_proxies rc)
                                    (normalizeDomain (domain rc))
                                    (notIgnoreSubdomains rc)
                                    (rc_selectStrategy rc)
                                    (rc_rotationStrategy rc))
          else Ok rc
      | _, _ => Panicked
      end
  end.

End Resource.

(** ** ProxyManagerImpl (manager.go, options.go) *)

(** A [*ResourceConfig]. *)
Definition ResourcePtr : Type := option nat.

Record ProxyManagerImpl : Type := mkProxyManagerImpl {
  proxies : Slice;                             (* []*Proxy *)
  resources : Slice;                           (* []*ResourceConfig *)
  lastUsed : ProxyPtr;
  rotationStrategy : option RotationStrategy;  (* None: a nil interface *)
  selectStrategy : option SelectStrategy       (* None: a nil interface *)
}.

(** The options that the [With...] functions of options.go return.
    [WithProxies(proxies...)] and [WithResources(resources...)] keep the
    slice they were called with.  A strategy and a factory can be nil
    ([None]). *)
Inductive ProxyManagerImplOption : Type :=
| WithProxies (proxies : Slice)
| WithResources (resources : Slice)
| WithRotationStrategy (strategy : option RotationStrategy)
| WithSelectStrategy (factory : option SelectStrategyFactory).

(** [opt(pm)]; [factory(pm)] on a nil [factory] panics. *)
Definition apply_ProxyManagerImplOption (m : ProxyManagerImpl)
           (opt : ProxyManagerImplOption) : Ret ProxyManagerImpl :=
  match opt with
  | WithProxies ps =>
      Ok (mkProxyManagerImpl ps (resources m) (lastUsed m)
                             (rotationStrategy m) (selectStrategy m))
  | WithResources rs =>
      Ok (mkProxyManagerImpl (proxies m) rs (lastUsed m)
                             (rotationStrategy m) (selectStrategy m))
  | WithRotationStrategy strategy =>
      Ok (mkProxyManagerImpl (proxies m) (resources m) (lastUsed m)
                             strategy (selectStrategy m))
  | WithSelectStrategy None => Panicked
  | WithSelectStrategy (Some factory) =>
      Ok (mkProxyManagerImpl (proxies m) (resources m) (lastUsed m)
                             (rotationStrategy m)
                             (Some (apply_factory factory OwnerProvider)))
  end.

(** [for _, opt := range opts { opt(pm) }]. *)
Fixpoint apply_ProxyManagerImplOptions (opts : list ProxyManagerImplOption)
         (m : ProxyManagerImpl) : Ret ProxyManagerImpl :=
  match opts with
  | [] => Ok m
  | opt :: rest =>
      match apply_ProxyManagerImplOption m opt with
      | Panicked => Panicked
      | Ok m' => apply_ProxyManagerImplOptions rest m'
      end
  end.

(** [NewProxyManager(opts...)]: panics when, after the options, a strategy
    is nil. *)
Definition NewProxyManager (opts : list ProxyManagerImplOption)
  : Ret ProxyManagerImpl :=
  match apply_ProxyManagerImplOptions
          opts (mkProxyManagerImpl empty_slice empty_slice None None None)
  with
  | Panicked => Panicked
  | Ok m =>
      match rotationStrategy m, selectStrategy m with
      | Some _, Some _ => Ok m
      | _, _ => Panicked
      end
  end.

Definition ProxyManagerImpl_LastUsed (m : ProxyManagerImpl) : ProxyPtr :=
  lastUsed m.

(** [GetProxies()]: a copy of the elements of [pm.proxies]. *)
Definition ProxyManagerImpl_GetProxies (mem : Arrays ProxyPtr)
           (m : ProxyManagerImpl) : list ProxyPtr :=
  slice_elems mem (proxies m).

Definition proxyNotAvailable (err : error) : error :=
  ErrorfWW ErrProxyNotAvailable err.

(** The store of [ResourceConfig] objects. *)
Definition ResourceHeap : Type := nat -> ResourceConfig.

Definition rheap_set (rh : ResourceHeap) (i : nat) (rc : ResourceConfig)
  : ResourceHeap :=
  fun j => if Nat.eqb j i then rc else rh j.

(** The program state that the manager's methods read and write: the two
    object stores, the backing arrays of the slices of proxies and of
    resources, the manager, and the number of draws made from the random
    source.  [selectCalls] is a ghost counter: it counts the calls to a
    [SelectStrategy]'s [Select]. *)
Record World : Type := mkWorld {
  heap : ProxyHeap;
  rheap : ResourceHeap;
  proxyArrays : Arrays ProxyPtr;
  resourceArrays : Arrays ResourcePtr;
  pm : ProxyManagerImpl;
  randDraws : nat;
  selectCalls : nat
}.

Definition set_lastUsed (m : ProxyManagerImpl) (p : ProxyPtr)
  : ProxyManagerImpl :=
  mkProxyManagerImpl (proxies m) (resources m) p
                     (rotationStrategy m) (selectStrategy m).

Definition set_selectStrategy (m : ProxyManagerImpl) (s : SelectStrategy)
  : ProxyManagerImpl :=
  mkProxyManagerImpl (proxies m) (resources m) (lastUsed m)
                     (rotationStrategy m) (Some s).

Definition set_rc_selectStrategy (rc : ResourceConfig) (s : SelectStrategy)
  : ResourceConfig :=
  mkResourceConfig (rc_proxies rc) (domain rc) (notIgnoreSubdomains rc)
                   (Some s) (rc_rotationStrategy rc).

(** [lastUsed != nil && !strategy.ShouldRotate(lastUsed)]: the right operand
    is evaluated only for a non-nil [lastUsed], and calling a nil strategy
    panics. *)
Definition keeps_lastUsed (strategy : option RotationStrategy)
           (h : ProxyHeap) (last : ProxyPtr) : Ret bool :=
  match last with
  | None => Ok false
  | Some l =>
      match strategy with
      | None => Panicked
      | Some s => Ok (negb (ShouldRotate s (h l)))
      end
  end.

(** Lines 116-128 of manager.go: what [GetNextProxy] does with the proxy
    [current] that a strategy selected. *)
Definition install_current (last current : ProxyPtr) (w : World)
  : Ret Selected * World :=
  match current with
  | None => (Ok (None, Some ErrProxyNotAvailable), w)
  | Some c =>
      let h1 := match last with
                | Some l => heap_set (heap w) l (Proxy_deactivate (heap w l))
                | None => heap w
                end in
      let h2 := heap_set h1 c (Proxy_activate (h1 c)) in
      (Ok (Some c, None),
       mkWorld h2 (rheap w) (proxyArrays w) (resourceArrays w)
               (set_lastUsed (pm w) (Some c))
               (randDraws w) (selectCalls w))
  end.

Section Manager.

Context {lib : GoLib}.

(** The loop of [getResourceByDomain]; a nil entry makes [CompareDomain]
    panic. *)
Fixpoint getResourceByDomain_loop (rh : ResourceHeap)
         (rs : list ResourcePtr) (d : string)
  : Ret (ResourcePtr * option error) :=
  match rs with
  | [] => Ok (None, Some ErrResourceNotFound)
  | None :: _ => Panicked
  | Some r :: rest =>
      if CompareDomain (rh r) d then Ok (Some r, None)
      else getResourceByDomain_loop rh rest d
  end.

(** The elements of [pm.resources]. *)
Definition resource_list (w : World) : list ResourcePtr :=
  slice_elems (resourceArrays w) (resources (pm w)).

Definition getResourceByDomain (w : World) (d : string)
  : Ret (ResourcePtr * option error) :=
  getResourceByDomain_loop (rheap w) (resource_list w) d.

(** Lines 93-102: the decision in the global scope. *)
Definition decide_global (last : ProxyPtr) (w : World)
  : Ret Selected * World :=
  match keeps_lastUsed (rotationStrategy (pm w)) (heap w) last with
  | Panicked => (Panicked, w)
  | Ok true => (Ok (last, None), w)
  | Ok false =>
      match selectStrategy (pm w) with
      | None => (Panicked, w)
      | Some strategy =>
          let '(r, strategy', draws') :=
            Select strategy (heap w)
                   (ProxyManagerImpl_GetProxies (proxyArrays w) (pm w))
                   (randDraws w) in
          let w1 := mkWorld (heap w) (rheap w)
                            (proxyArrays w) (resourceArrays w)
                            (set_selectStrategy (pm w) strategy')
                            draws' (S (selectCalls w)) in
          match r with
          | Panicked => (Panicked, w1)
          | Ok (_, Some errSelect) =>
              (Ok (None, Some (proxyNotAvailable errSelect)), w1)
          | Ok (currentProxy, None) => install_current last currentProxy w1
          end
      end
  end.

(** Lines 104-113: the decision in the scope of the resource [r]. *)
Definition decide_resource (r : nat) (last : ProxyPtr) (w : World)
  : Ret Selected * World :=
  let resource := rheap w r in
  match keeps_lastUsed (rc_rotationStrategy resource) (heap w) last with
  | Panicked => (Panicked, w)
  | Ok true => (Ok (last, None), w)
  | Ok false =>
      match rc_selectStrategy resource with
      | None => (Panicked, w)
      | Some strategy =>
          let '(r', strategy', draws') :=
            Select strategy (heap w)
                   (ResourceConfig_GetProxies (proxyArrays w) resource)
                   (randDraws w) in
          let w1 := mkWorld (heap w)
                            (rheap_set (rheap w) r
                               (set_rc_selectStrategy resource strategy'))
                            (proxyArrays w) (resourceArrays w)
                            (pm w) draws' (S (selectCalls w)) in
          match r' with
          | Panicked => (Panicked, w1)
          | Ok (_, Some errSelect) =>
              (Ok (None, Some (proxyNotAvailable errSelect)), w1)
          | Ok (currentProxy, None) => install_current last currentProxy w1
          end
      end
  end.

(** [GetNextProxy(domain)]. *)
Definition ProxyManagerImpl_GetNextProxy (d : string) (w : World)
  : Ret Selected * World :=
  if (slice_len (proxies (pm w)) =? 0)
     && (slice_len (resources (pm w)) =? 0)
  then (Ok (None, Some (proxyNotAvailable ErrEmptyProxyList)), w)
  else
    match getResourceByDomain w d with
    | Panicked => (Panicked, w)
    | Ok (resource, err) =>
        let isNotFound := errors_Is err ErrResourceNotFound in
        if (match err with Some _ => true | None => false end)
           && negb isNotFound
        then (Ok (None, option_map proxyNotAvailable err), w)
        else
          let last := ProxyManagerImpl_LastUsed (pm w) in
          if isNotFound then decide_global last w
          else match resource with
               | None => (Panicked, w)
               | Some r => decide_resource r last w
               end
    end.

(** [AddResources(resources...)]:
    [pm.resources = append(pm.resources, resources...)]. *)
Definition ProxyManagerImpl_AddResources (rs : list ResourcePtr)
           (w : World) : World :=
  let '(mem, s) := slice_append (resourceArrays w) (resources (pm w)) rs in
  mkWorld (heap w) (rheap w) (proxyArrays w) mem
          (mkProxyManagerImpl (proxies (pm w)) s
                              (lastUsed (pm w)) (rotationStrategy (pm w))
                              (selectStrategy (pm w)))
          (randDraws w) (selectCalls w).

(** [AddProxies(proxies...)]:
    [pm.proxies = append(pm.proxies, proxies...)]. *)
Definition ProxyManagerImpl_AddProxies (ps : list ProxyPtr)
           (w : World) : World :=
  let '(mem, s) := slice_append (proxyArrays w) (proxies (pm w)) ps in
  mkWorld (heap w) (rheap w) mem (resourceArrays w)
          (mkProxyManagerImpl s (resources (pm w))
                              (lastUsed (pm w)) (rotationStrategy (pm w))
                              (selectStrategy (pm w)))
          (randDraws w) (selectCalls w).

(** [resource.AddProxies(proxies...)] on the resource [r]. *)
Definition ResourceConfig_AddProxies_at (r : nat) (ps : list ProxyPtr)
           (w : World) : World :=
  let '(mem, rc) :=
    ResourceConfig_AddProxies ps (proxyArrays w) (rheap w r) in
  mkWorld (heap w) (rheap_set (rheap w) r rc) mem (resourceArrays w)
          (pm w) (randDraws w) (selectCalls w).

(** [AddResourceProxies(domain, proxies...)]. *)
Definition ProxyManagerImpl_AddResourceProxies (d : string)
           (ps : list ProxyPtr) (w : World) : Ret (option error) * World :=
  match getResourceByDomain w d with
  | Panicked => (Panicked, w)
  | Ok (_, Some err) => (Ok (Some err), w)
  | Ok (None, None) => (Panicked, w)
  | Ok (Some r, None) => (Ok None, ResourceConfig_AddProxies_at r ps w)
  end.

(** ** Sequences of calls *)

Definition with_heap (w : World) (h : ProxyHeap) : World :=
  mkWorld h (rheap w) (proxyArrays w) (resourceArrays w) (pm w)
          (randDraws w) (selectCalls w).

(** The calls a client makes on a manager, on its resources and on the
    proxies; [proxy] and [resource] are the (non-nil) receivers.  The
    variadic arguments [ps] and [rs] are the values passed: the methods only
    read them. *)
Inductive Call : Type :=
| CallGetNextProxy (d : string)
| CallAddProxies (ps : list ProxyPtr)
| CallAddResources (rs : list ResourcePtr)
| CallAddResourceProxies (d : string) (ps : list ProxyPtr)
| CallResourceAddProxies (resource : nat) (ps : list ProxyPtr)
| CallDisable (proxy : nat)
| CallEnable (proxy : nat)
| CallUpdate (proxy : nat) (report : Report).

(** The state after a call that returned. *)
Definition exec (c : Call) (w : World) : Ret World :=
  match c with
  | CallGetNextProxy d =>
      match ProxyManagerImpl_GetNextProxy d w with
      | (Ok _, w') => Ok w'
      | (Panicked, _) => Panicked
      end
  | CallAddProxies ps => Ok (ProxyManagerImpl_AddProxies ps w)
  | CallAddResources rs => Ok (ProxyManagerImpl_AddResources rs w)
  | CallAddResourceProxies d ps =>
      match ProxyManagerImpl_AddResourceProxies d ps w with
      | (Ok _, w') => Ok w'
      | (Panicked, _) => Panicked
      end
  | CallResourceAddProxies r ps => Ok (ResourceConfig_AddProxies_at r ps w)
  | CallDisable p =>
      Ok (with_heap w (heap_set (heap w) p (Proxy_Disable (heap w p))))
  | CallEnable p =>
      Ok (with_heap w (heap_set (heap w) p (Proxy_Enable (heap w p))))
  | CallUpdate p report =>
      Ok (with_heap w
            (heap_set (heap w) p
               (Proxy_Update (rep_now report) (rep_response report)
                             (rep_err report) (heap w p))))
  end.

(** The state after a sequence of calls, all of which returned. *)
Fixpoint run (cs : list Call) (w : World) : Ret World :=
  match cs with
  | [] => Ok w
  | c :: rest =>
      match exec c w with
      | Panicked => Panicked
      | Ok w' => run rest w'
      end
  end.

End Manager.

(** ** An instance of [GoLib] for the examples

    [ascii_ToLower] is [strings.ToLower] on strings of ASCII bytes.
    [fragment_url_Hostname] follows [url.Parse] and [URL.Hostname] of net/url
    through the splitting of scheme, query, fragment and authority and the
    check of the port; the validation of percent escapes, of user info and of
    the bytes of the host is left out.  The theorems below hold for every
    [GoLib]; the instance serves to evaluate the definitions. *)

Definition ascii_lower (c : ascii) : ascii :=
  let n := nat_of_ascii c in
  if ((65 <=? n) && (n <=? 90))%nat then ascii_of_nat (n + 32) else c.

Fixpoint ascii_ToLower (s : string) : string :=
  match s with
  | EmptyString => EmptyString
  | String c rest => String (ascii_lower c) (ascii_ToLower rest)
  end.

(** [strings.IndexByte]. *)
Fixpoint index_byte (s : string) (c : ascii) : option nat :=
  match s with
  | EmptyString => None
  | String d rest =>
      if Ascii.eqb c d then Some O
      else option_map S (index_byte rest c)
  end.

(** [strings.LastIndexByte]. *)
Fixpoint last_index_byte (s : string) (c : ascii) : option nat :=
  match s with
  | EmptyString => None
  | String d rest =>
      match last_index_byte rest c with
      | Some i => Some (S i)
      | None => if Ascii.eqb c d then Some O else None
      end
  end.

Definition string_from (s : string) (i : nat) : string :=
  String.substring i (String.length s - i) s.

Definition string_upto (s : string) (i : nat) : string :=
  String.substring 0 i s.

(** The part of [s] before the first [c], or [s]. *)
Definition before_byte (s : string) (c : ascii) : string :=
  match index_byte s c with
  | Some i => string_upto s i
  | None => s
  end.

Definition is_letter (c : ascii) : bool :=
  let n := nat_of_ascii c in
  ((97 <=? n) && (n <=? 122) || (65 <=? n) && (n <=? 90))%nat.

Definition is_digit (c : ascii) : bool :=
  let n := nat_of_ascii c in ((48 <=? n) && (n <=? 57))%nat.

Fixpoint all_bytes (f : ascii -> bool) (s : string) : bool :=
  match s with
  | EmptyString => true
  | String c rest => f c && all_bytes f rest
  end.

Definition is_ctl (c : ascii) : bool :=
  let n := nat_of_ascii c in ((n <? 32) || (n =? 127))%nat.

(** [getScheme]: [None] is the error, otherwise the scheme and the rest. *)
Fixpoint getScheme_loop (rawURL rest : string) (i : nat)
  : option (string * string) :=
  match rest with
  | EmptyString => Some (EmptyString, rawURL)
  | String c rest' =>
      if is_letter c then getScheme_loop rawURL rest' (S i)
      else if is_digit c || Ascii.eqb c "+" || Ascii.eqb c "-"
              || Ascii.eqb c "."
      then if Nat.eqb i 0 then Some (EmptyString, rawURL)
           else getScheme_loop rawURL rest' (S i)
      else if Ascii.eqb c ":"
      then if Nat.eqb i 0 then None
           else Some (string_upto rawURL i, rest')
      else Some (EmptyString, rawURL)
  end.

Definition getScheme (rawURL : string) : option (string * string) :=
  getScheme_loop rawURL rawURL 0.

Definition validOptionalPort (port : string) : bool :=
  match port with
  | EmptyString => true
  | String c digits => Ascii.eqb c ":" && all_bytes is_digit digits
  end.

(** [parseHost] without the unescaping: [None] is the error. *)
Definition parseHost (host : string) : option string :=
  if strings_HasPrefix host "["
  then match last_index_byte host "]" with
       | None => None
       | Some i =>
           if validOptionalPort (string_from host (S i)) then Some host
           else None
       end
  else match last_index_byte host ":" with
       | Some i =>
           if validOptionalPort (string_from host i) then Some host else None
       | None => Some host
       end.

(** [URL.Hostname]: [splitHostPort] and the brackets of an IP literal. *)
Definition splitHostPort_host (hostPort : string) : string :=
  let host :=
    match last_index_byte hostPort ":" with
    | Some colon =>
        if validOptionalPort (string_from hostPort colon)
        then string_upto hostPort colon else hostPort
    | None => hostPort
    end in
  if strings_HasPrefix host "[" && strings_HasSuffix host "]"
  then String.substring 1 (String.length host - 2) host
  else host.

Definition fragment_url_Hostname (rawURL : string) : option string :=
  let u := before_byte rawURL "#" in
  if negb (all_bytes (fun c => negb (is_ctl c)) u) then None
  else if String.eqb u "*" then Some EmptyString
  else
    match getScheme u with
    | None => None
    | Some (scheme, rest0) =>
        let rest := before_byte rest0 "?" in
        let rootless := negb (strings_HasPrefix rest "/") in
        if rootless && negb (String.eqb scheme EmptyString)
        then Some EmptyString
        else if rootless
                && match index_byte (before_byte rest "/") ":" with
                   | Some _ => true
                   | None => false
                   end
        then None
        else if (negb (String.eqb scheme EmptyString)
                 || negb (strings_HasPrefix rest "///"))
                && strings_HasPrefix rest "//"
        then
          let authority := before_byte (string_from rest 2) "/" in
          let hostport :=
            match last_index_byte authority "@" with
            | Some i => string_from authority (S i)
            | None => authority
            end in
          option_map splitHostPort_host (parseHost hostport)
        else Some EmptyString
    end.

#[local] Instance sample_lib : GoLib := {|
  Response := Z;
  url_Hostname := fragment_url_Hostname;
  strings_ToLower := ascii_ToLower;
  rand_IntN := fun k n => if 0 <? n then Z.of_nat k mod n else 0;
  growslice_cap := fun c n => Nat.max n (2 * c)
|}.

(** ** Notions used in the statements *)

(** The cursor of a [RoundRobinSelect] is [-1] at first and an index into a
    slice afterwards. *)
Definition cursor_ok (s : SelectStrategy) : Prop :=
  match s with
  | RandomSelect _ => True
  | RoundRobinSelect _ index0 => -1 <= index0 < max_int
  end.

(** The outcomes of [k] successive [Select()] calls on a strategy whose
    owner's pool and whose proxies do not change in between. *)
Fixpoint select_calls {lib : GoLib} (k : nat) (s : SelectStrategy)
         (h : ProxyHeap) (pool : list ProxyPtr) (draws : nat)
  : list (Ret Selected) :=
  match k with
  | O => []
  | S k' =>
      let '(r, s', draws') := Select s h pool draws in
      r :: select_calls k' s' h pool draws'
  end.

(** One [Update] read over the integers: [totalRequests] grows by one, one of
    [successCount] and [errorCount] grows by one and the other stays, the
    total is the sum of the two, and no counter decreases. *)
Definition counters_step_exact (s s' : ProxyStats) : Prop :=
  totalRequests s' = totalRequests s + 1 /\
  (successCount s' = successCount s + 1 /\ errorCount s' = errorCount s \/
   successCount s' = successCount s /\ errorCount s' = errorCount s + 1) /\
  totalRequests s' = successCount s' + errorCount s' /\
  totalRequests s <= totalRequests s' /\
  successCount s <= successCount s' /\
  errorCount s <= errorCount s'.

(** The counters are values of type [uint]. *)
Definition counters_in_range (s : ProxyStats) : Prop :=
  0 <= totalRequests s < uint_modulus /\
  0 <= successCount s < uint_modulus /\
  0 <= errorCount s < uint_modulus.

(** The pointers in the global pool and in the pools of the manager's
    resources. *)
Definition resource_pool (mem : Arrays ProxyPtr) (rh : ResourceHeap)
           (r : ResourcePtr) : list ProxyPtr :=
  match r with
  | Some i => ResourceConfig_GetProxies mem (rh i)
  | None => []
  end.

Definition pool_ptrs (w : World) : list ProxyPtr :=
  ProxyManagerImpl_GetProxies (proxyArrays w) (pm w)
  ++ flat_map (resource_pool (proxyArrays w) (rheap w)) (resource_list w).

(** [w'] differs from [w] at most in the state of select strategies (the
    cursors), the draws made and the ghost counter: the [Proxy] objects, the
    manager's [lastUsed], its pools, its resources and their domains, pools
    and rotation strategies are the same, slice by slice and backing array
    by backing array. *)
Definition same_but_select_state (w w' : World) : Prop :=
  heap w' = heap w /\
  lastUsed (pm w') = lastUsed (pm w) /\
  proxies (pm w') = proxies (pm w) /\
  resources (pm w') = resources (pm w) /\
  rotationStrategy (pm w') = rotationStrategy (pm w) /\
  (forall r : nat,
      rc_proxies (rheap w' r) = rc_proxies (rheap w r) /\
      domain (rheap w' r) = domain (rheap w r) /\
      notIgnoreSubdomains (rheap w' r) = notIgnoreSubdomains (rheap w r) /\
      rc_rotationStrategy (rheap w' r) = rc_rotationStrategy (rheap w r)) /\
  proxyArrays w' = proxyArrays w /\
  resourceArrays w' = resourceArrays w.

(** The rotation strategy that applies to a domain: the one of the first
    resource that matches, else the manager's. *)
Definition applicable_rotation {lib : GoLib} (w : World) (d : string)
  : Ret (option RotationStrategy) :=
  match getResourceByDomain w d with
  | Panicked => Panicked
  | Ok (Some r, _) => Ok (rc_rotationStrategy (rheap w r))
  | Ok (None, _) => Ok (rotationStrategy (pm w))
  end.

(** The manager's [lastUsed], when set, is in one of the pools. *)
Definition last_in_pools (w : World) : Prop :=
  forall l : nat, lastUsed (pm w) = Some l -> In (Some l) (pool_ptrs w).

(** The active proxies are exactly the manager's [lastUsed]. *)
Definition active_is_last (w : World) : Prop :=
  forall i : nat, isActive (heap w i) = true <-> lastUsed (pm w) = Some i.

(** The state after a sequence of calls, or the state before it when a call
    panics. *)
Definition after {lib : GoLib} (cs : list Call) (w : World) : World :=
  match run cs w with
  | Ok w' => w'
  | Panicked => w
  end.

(** ** Samples for the examples *)

(** A report of a successful request. *)
Definition report_ok : @Report sample_lib := mkReport 1 (Some 200) None.

(** A report of a failed request. *)
Definition report_failed : @Report sample_lib :=
  mkReport 2 None (Some (ErrForeign "connection refused")).

(** As many successful requests as a [uint] can count, less one. *)
Definition reports_to_the_brim : list (@Report sample_lib) :=
  repeat report_ok (Z.to_nat (uint_modulus - 1)).

(** A store of arrays that holds the given lists as its first arrays. *)
Definition arrays_of {A : Type} (ls : list (list A)) (default : A)
  : Arrays A :=
  mkArrays (fun a i => nth i (nth a ls []) default) (List.length ls).

(** The slice that a call with [n] listed arguments passes: the whole of an
    array of its own. *)
Definition whole_array (a n : nat) : Slice := mkSlice a 0 n n.

(** A resource for the empty domain, as [NewResourceConfig] makes it when no
    domain is given: subdomains are included. *)
Definition rc_empty_domain : ResourceConfig :=
  mkResourceConfig empty_slice EmptyString false
                   (Some (apply_factory DefaultSelectStrategy OwnerProvider))
                   (Some DefaultRotationStrategy).

(** The resource for ["example.com"] that [NewResourceConfig] makes by
    default, and the one that excludes subdomains. *)
Definition rc_example_com : ResourceConfig :=
  mkResourceConfig empty_slice "example.com" false
                   (Some (apply_factory DefaultSelectStrategy OwnerProvider))
                   (Some DefaultRotationStrategy).

Definition rc_example_com_only : ResourceConfig :=
  mkResourceConfig empty_slice "example.com" true
                   (Some (apply_factory DefaultSelectStrategy OwnerProvider))
                   (Some DefaultRotationStrategy).

(** A store of proxies that were made by [NewDirectConnection] and not
    touched since, and a pool of three of them. *)
Definition fresh_heap : ProxyHeap := fun _ => NewDirectConnection.

Definition sample_pool : list ProxyPtr :=
  [Some 0%nat; Some 1%nat; Some 2%nat].

(** The backing arrays of the samples: the pool of three, the pool of the
    resource for ["a.com"], and an array that holds a nil pointer; the arrays
    with one and with two resources. *)
Definition sample_proxyArrays : Arrays ProxyPtr :=
  arrays_of [sample_pool; [Some 3%nat]; [None]] None.

Definition sample_resourceArrays : Arrays ResourcePtr :=
  arrays_of [[Some 0%nat]; [Some 0%nat; Some 1%nat]] None.

(** A resource for ["a.com"] with a pool of its own, which rotates on every
    request and selects in turn. *)
Definition rc_a_com : ResourceConfig :=
  mkResourceConfig (whole_array 1 1) "a.com" false
                   (Some (apply_factory NewRoundRobinSelect OwnerProvider))
                   (Some RoundRobinRotation).

(** A store of resources whose first is [rc_a_com]; the others have no
    proxies. *)
Definition sample_rheap : ResourceHeap :=
  fun j => if (j =? 0)%nat then rc_a_com else rc_example_com.

(** The options of a manager with the pool [sample_pool], the resource
    [rc_a_com] and the default strategies, and the manager they make. *)
Definition sample_opts : list ProxyManagerImplOption :=
  [WithProxies (whole_array 0 3);
   WithResources (whole_array 0 1);
   WithRotationStrategy (Some DefaultRotationStrategy);
   WithSelectStrategy (Some DefaultSelectStrategy)].

Definition sample_pm : ProxyManagerImpl :=
  mkProxyManagerImpl
    (whole_array 0 3) (whole_array 0 1) None
    (Some DefaultRotationStrategy)
    (Some (apply_factory DefaultSelectStrategy OwnerProvider)).

Definition sample_world : World :=
  mkWorld fresh_heap sample_rheap sample_proxyArrays sample_resourceArrays
          sample_pm 0 0.

(** A first decision for ["x.com"]. *)
Definition sample_calls_1 : list (@Call sample_lib) :=
  [CallGetNextProxy "x.com"].

(** A first decision, a failure reported on the proxy it chose (the proxy
    0), a proxy added and another disabled. *)
Definition sample_calls_2 : list (@Call sample_lib) :=
  [CallGetNextProxy "x.com";
   CallUpdate 0 report_failed;
   CallAddProxies [Some 4%nat];
   CallDisable 1].

(** A manager without a proxy of its own, whose resource does not match
    ["x.com"]. *)
Definition poolless_world : World :=
  mkWorld fresh_heap sample_rheap sample_proxyArrays sample_resourceArrays
          (mkProxyManagerImpl empty_slice (whole_array 0 1) None
             (Some DefaultRotationStrategy)
             (Some (apply_factory DefaultSelectStrategy OwnerProvider)))
          0 0.

(** A manager without proxies and without resources. *)
Definition empty_world : World :=
  mkWorld fresh_heap sample_rheap sample_proxyArrays sample_resourceArrays
          (mkProxyManagerImpl empty_slice empty_slice None
             (Some DefaultRotationStrategy)
             (Some (apply_factory DefaultSelectStrategy OwnerProvider)))
          0 0.

(** A manager whose pool is a nil pointer, selecting in turn. *)
Definition nil_entry_world : World :=
  mkWorld fresh_heap sample_rheap sample_proxyArrays sample_resourceArrays
          (mkProxyManagerImpl (whole_array 2 1) empty_slice None
             (Some DefaultRotationStrategy)
             (Some (apply_factory NewRoundRobinSelect OwnerProvider)))
          0 0.

(** Two pools cut from one array of three proxies, as a caller makes them
    with [all[:2]] and [all[2:]]: the global pool holds the proxies 0 and 1
    and has room for one more, where the pool of the resource for ["a.com"]
    holds the proxy 2. *)
Definition aliased_proxyArrays : Arrays ProxyPtr :=
  arrays_of [sample_pool] None.

Definition rc_aliased : ResourceConfig :=
  mkResourceConfig (mkSlice 0 2 1 1) "a.com" false
                   (Some (apply_factory DefaultSelectStrategy OwnerProvider))
                   (Some DefaultRotationStrategy).

Definition aliased_opts : list ProxyManagerImplOption :=
  [WithProxies (mkSlice 0 0 2 3);
   WithResources (whole_array 0 1);
   WithRotationStrategy (Some DefaultRotationStrategy);
   WithSelectStrategy (Some DefaultSelectStrategy)].

Definition aliased_world : World :=
  mkWorld fresh_heap (fun _ => rc_aliased)
          aliased_proxyArrays sample_resourceArrays
          (mkProxyManagerImpl (mkSlice 0 0 2 3) (whole_array 0 1) None
             (Some DefaultRotationStrategy)
             (Some (apply_factory DefaultSelectStrategy OwnerProvider)))
          0 0.

(** A decision for ["a.com"], then a proxy added to the global pool. *)
Definition aliased_calls : list (@Call sample_lib) :=
  [CallGetNextProxy "a.com"; CallAddProxies [Some 3%nat]].

(** ** The transport side (selector.go, transport.go) *)

Section Transport.

Context {lib : GoLib}.

(** The [ProxySelector] that [GetProxySelector(pm)] returns, applied to a
    request whose URL has the hostname [hostname]: the URL of the proxy (nil
    for a direct connection) and the error.  [proxy.IsDisabled()] on a nil
    [proxy] panics. *)
Definition GetProxySelector (hostname : string) (w : World)
  : Ret (option string * option error) * World :=
  match ProxyManagerImpl_GetNextProxy hostname w with
  | (Panicked, w') => (Panicked, w')
  | (Ok (_, Some err), w') => (Ok (None, Some err), w')
  | (Ok (None, None), w') => (Panicked, w')
  | (Ok (Some proxy, None), w') =>
      if Proxy_IsDisabled (heap w' proxy)
      then (Ok (None, Some ErrProxyNotAvailable), w')
      else (Ok (url (heap w' proxy), None), w')
  end.

(** What [baseTransport.RoundTrip(req)] does for a given request, as a
    function of the state: the response, the error, the state afterwards. *)
Definition RoundTripper : Type :=
  World -> Ret (option Response * option error) * World.

(** [ProxyTransport.RoundTrip(req)]; [now] is what [time.Now()] reads in
    [Update]. *)
Definition ProxyTransport_RoundTrip (baseTransport : RoundTripper) (now : Z)
           (w : World) : Ret (option Response * option error) * World :=
  match baseTransport w with
  | (Panicked, w1) => (Panicked, w1)
  | (Ok (resp, err), w1) =>
      match ProxyManagerImpl_LastUsed (pm w1) with
      | Some proxy =>
          (Ok (resp, err),
           with_heap w1 (heap_set (heap w1) proxy
                           (Proxy_Update now resp err (heap w1 proxy))))
      | None => (Ok (resp, err), w1)
      end
  end.

(** The proxy after a sequence of [Update] calls, first call first. *)
Definition Proxy_run (rs : list Report) (p : Proxy) : Proxy :=
  fold_left (fun q r => Proxy_Update (rep_now r) (rep_response r)
                                     (rep_err r) q) rs p.

(** Whether a report counts as a success: a response and no error. *)
Definition report_success (r : Report) : bool :=
  match rep_response r, rep_err r with
  | Some _, None => true
  | _, _ => false
  end.

(** The select strategy and the pool that apply to a domain: those of the
    first resource that matches, else the manager's. *)
Definition applicable_select (w : World) (d : string)
  : Ret (option SelectStrategy) :=
  match getResourceByDomain w d with
  | Panicked => Panicked
  | Ok (Some r, _) => Ok (rc_selectStrategy (rheap w r))
  | Ok (None, _) => Ok (selectStrategy (pm w))
  end.

Definition applicable_pool (w : World) (d : string) : Ret (list ProxyPtr) :=
  match getResourceByDomain w d with
  | Panicked => Panicked
  | Ok (Some r, _) =>
      Ok (ResourceConfig_GetProxies (proxyArrays w) (rheap w r))
  | Ok (None, _) => Ok (ProxyManagerImpl_GetProxies (proxyArrays w) (pm w))
  end.

End Transport.

(** ** More notions used in the statements *)

(** A slice of proxies without a nil entry. *)
Definition nil_free (l : list ProxyPtr) : Prop := ~ In None l.

(** Whether a filter lets a proxy through. *)
Definition passes (f : SelectFilter) (h : ProxyHeap) (p : ProxyPtr) : bool :=
  match p with
  | None => false
  | Some i =>
      match f with
      | RemoveActiveProxyFilter => negb (Proxy_IsActive (h i))
      | RemoveDisabledFilter => negb (Proxy_IsDisabled (h i))
      end
  end.

Definition passes_all (fs : list SelectFilter) (h : ProxyHeap)
           (p : ProxyPtr) : bool :=
  forallb (fun f => passes f h p) fs.

(** The filters of a provider, in the order in which [GetProxies] applies
    them. *)
Fixpoint provider_filters (p : Provider) : list SelectFilter :=
  match p with
  | OwnerProvider => []
  | FilteredSelectProvider sourceProvider filters =>
      provider_filters sourceProvider ++ filters
  end.

(** The last byte of a string. *)
Fixpoint last_byte (s : string) : option ascii :=
  match s with
  | EmptyString => None
  | String c EmptyString => Some c
  | String _ rest => last_byte rest
  end.

Definition first_byte (s : string) : option ascii :=
  match s with
  | EmptyString => None
  | String c _ => Some c
  end.

Definition has_rotation_option (opt : ProxyManagerImplOption) : bool :=
  match opt with WithRotationStrategy _ => true | _ => false end.

Definition has_select_option (opt : ProxyManagerImplOption) : bool :=
  match opt with WithSelectStrategy _ => true | _ => false end.

Definition has_rc_rotation_option (opt : ResourceConfigOption) : bool :=
  match opt with WithResourceRotationStrategy _ => true | _ => false end.

Definition has_rc_select_option (opt : ResourceConfigOption) : bool :=
  match opt with WithResourceSelectStrategy _ => true | _ => false end.

(** Whether a slice of proxies holds a nil pointer. *)
Definition has_nil (l : list ProxyPtr) : bool :=
  existsb (fun p => match p with None => true | Some _ => false end) l.

Definition no_filters (fs : list SelectFilter) : bool :=
  match fs with [] => true | _ :: _ => false end.

(** The domain that a list of options gives to a resource: the one of the
    last [WithDomain], or the empty string. *)
Definition given_domain (opts : list ResourceConfigOption) : string :=
  fold_left (fun d opt => match opt with WithDomain d' => d' | _ => d end)
            opts EmptyString.

(** Whether a string begins (ends) with a byte of a cutset. *)
Definition begins_in (cutset s : string) : bool :=
  match first_byte s with
  | Some c => in_cutset c cutset
  | None => false
  end.

Definition ends_in (cutset s : string) : bool :=
  match last_byte s with
  | Some c => in_cutset c cutset
  | None => false
  end.

(** What a decision of [GetNextProxy] that reached the selection does with
    the outcome [sr] of [Select()]: [r] is returned and [w'] is the state,
    [w] being the state before the call. *)
Definition selection_outcome (w : World) (sr : Selected) (r : Selected)
           (w' : World) : Prop :=
  match sr with
  | (_, Some errSelect) =>
      r = (None, Some (proxyNotAvailable errSelect)) /\
      same_but_select_state w w'
  | (None, None) =>
      r = (None, Some ErrProxyNotAvailable) /\ same_but_select_state w w'
  | (Some c, None) =>
      r = (Some c, None) /\
      exists w1 : World,
        same_but_select_state w w1 /\
        w' = snd (install_current (lastUsed (pm w)) (Some c) w1)
  end.

(** The outcomes of successive [Select()] calls on a strategy whose owner's
    pool and whose proxies are, at the successive calls, the ones listed. *)
Fixpoint select_over {lib : GoLib} (envs : list (ProxyHeap * list ProxyPtr))
         (s : SelectStrategy) (draws : nat) : list (Ret Selected) :=
  match envs with
  | [] => []
  | (h, pool) :: rest =>
      let '(r, s', draws') := Select s h pool draws in
      r :: select_over rest s' draws'
  end.

(** The outcomes of [k] successive calls of [GetNextProxy] for a domain;
    a panic ends the sequence. *)
Fixpoint GetNextProxy_calls {lib : GoLib} (k : nat) (d : string) (w : World)
  : list (Ret Selected) :=
  match k with
  | O => []
  | S k' =>
      match ProxyManagerImpl_GetNextProxy d w with
      | (Panicked, _) => [Panicked]
      | (Ok r, w') => Ok r :: GetNextProxy_calls k' d w'
      end
  end.

(** ** More samples for the examples *)

(** A store of resources whose first two are the default one for
    ["example.com"] and [rc_a_com], and a manager that lists both. *)
Definition sample_rheap_2 : ResourceHeap :=
  fun j => if (j =? 0)%nat then rc_example_com
           else if (j =? 1)%nat then rc_a_com else rc_empty_domain.

Definition sample_world_2 : World :=
  mkWorld fresh_heap sample_rheap_2 sample_proxyArrays sample_resourceArrays
          (mkProxyManagerImpl (whole_array 0 3) (whole_array 1 2) None
             (Some DefaultRotationStrategy)
             (Some (apply_factory DefaultSelectStrategy OwnerProvider)))
          0 0.

(** A manager that rotates on every request and selects in turn. *)
Definition round_robin_world : World :=
  mkWorld fresh_heap sample_rheap sample_proxyArrays sample_resourceArrays
          (mkProxyManagerImpl (whole_array 0 3) empty_slice None
             (Some RoundRobinRotation)
             (Some (apply_factory NewRoundRobinSelect OwnerProvider)))
          0 0.

(** A base transport that asks the manager for a proxy for ["x.com"], as
    [http.Transport] does through its [Proxy] function, and gets a
    response. *)
Definition sample_transport : @RoundTripper sample_lib :=
  fun w =>
    (Ok (Some 200, None), snd (ProxyManagerImpl_GetNextProxy "x.com" w)).

(** Three reports, the second of a failed request. *)
Definition sample_reports : list (@Report sample_lib) :=
  [report_ok; report_failed; mkReport 3 (Some 200) None].

(** The pools and proxies at four successive calls of [Select]: the pool
    shrinks to one proxy, then to none, and grows again. *)
Definition sample_envs : list (ProxyHeap * list ProxyPtr) :=
  [(fresh_heap, sample_pool); (fresh_heap, [Some 0%nat]);
   (fresh_heap, []); (fresh_heap, sample_pool)].

(** ** Slices that do not share memory *)

(** What a slice can read and write of its backing array are the cells from
    [sl_off s] up to [sl_off s + sl_cap s], the latter excluded.  Two slices
    are apart when these parts do not meet. *)
Definition slices_apart (s t : Slice) : Prop :=
  sl_cap s = 0%nat \/ sl_cap t = 0%nat \/ sl_array s <> sl_array t \/
  (sl_off s + sl_cap s <= sl_off t)%nat \/
  (sl_off t + sl_cap t <= sl_off s)%nat.

(** A slice of the store: its length is within its capacity, and its array,
    if it has capacity at all, is one that was allocated. *)
Definition slice_ok {A : Type} (mem : Arrays A) (s : Slice) : Prop :=
  (sl_len s <= sl_cap s)%nat /\
  (sl_cap s = 0%nat \/ (sl_array s < allocated mem)%nat).

(** The pools do not share memory: the global pool and the pools of the
    [ResourceConfig] objects are slices of the store, pairwise apart. *)
Definition pools_separate (w : World) : Prop :=
  slice_ok (proxyArrays w) (proxies (pm w)) /\
  (forall r : nat, slice_ok (proxyArrays w) (rc_proxies (rheap w r))) /\
  (forall r : nat,
      slices_apart (proxies (pm w)) (rc_proxies (rheap w r))) /\
  (forall r r' : nat,
      r <> r' ->
      slices_apart (rc_proxies (rheap w r)) (rc_proxies (rheap w r'))).

(** A non-nil [lastUsed] comes with a pool or a resource: [GetNextProxy]
    then gets past its first test. *)
Definition last_needs_pool (w : World) : Prop :=
  lastUsed (pm w) <> None ->
  (slice_len (proxies (pm w)) =? 0) && (slice_len (resources (pm w)) =? 0)
  = false.

(** What a list of options leaves in the strategy fields: the rotation
    strategy of the last [WithRotationStrategy] (nil without one), and
    whether an option calls a nil factory. *)
Definition given_rotation (opts : list ProxyManagerImplOption)
  : option RotationStrategy :=
  fold_left (fun r opt =>
               match opt with WithRotationStrategy r' => r' | _ => r end)
            opts None.

Definition nil_factory_given (opt : ProxyManagerImplOption) : bool :=
  match opt with WithSelectStrategy None => true | _ => false end.

Definition given_rc_rotation (opts : list ResourceConfigOption)
  : option RotationStrategy :=
  fold_left (fun r opt =>
               match opt with
               | WithResourceRotationStrategy r' => r'
               | _ => r
               end)
            opts None.

Definition nil_rc_factory_given (opt : ResourceConfigOption) : bool :=
  match opt with WithResourceSelectStrategy None => true | _ => false end.

(** * Theorems *)

(** ** Machine integers *)

Lemma uint_modulus_pos : 1 < uint_modulus.
Proof. unfold uint_modulus, uint_bits. lia. Qed.

Lemma uint_wrap_range (z : Z) : 0 <= uint_wrap z < uint_modulus.
Proof.
  unfold uint_wrap. apply Z.mod_pos_bound. pose proof uint_modulus_pos. lia.
Qed.

Lemma uint_wrap_small (z : Z) : 0 <= z < uint_modulus -> uint_wrap z = z.
Proof. intros Hz. unfold uint_wrap. now apply Z.mod_small. Qed.

Lemma uint_incr_neq (x : Z) : uint_incr x <> x.
Proof.
  unfold uint_incr, uint_wrap. pose proof uint_modulus_pos as HM.
  intros Heq.
  assert (Hx : 0 <= x < uint_modulus)
    by (rewrite <- Heq; apply Z.mod_pos_bound; lia).
  destruct (Z.eq_dec (x + 1) uint_modulus) as [Hfull | Hnot].
  - rewrite Hfull, Z.mod_same in Heq by lia. lia.
  - rewrite Z.mod_small in Heq by lia. lia.
Qed.

Lemma uint_incr_wrap_l (x k : Z) :
  uint_wrap (uint_wrap x + k) = uint_wrap (x + k).
Proof.
  unfold uint_wrap. apply Zplus_mod_idemp_l.
Qed.

(** ** ProxyStats *)

Section StatsTheorems.

Context {lib : GoLib}.

Lemma ProxyStats_run_app (rs1 rs2 : list Report) (s : ProxyStats) :
  ProxyStats_run (rs1 ++ rs2) s = ProxyStats_run rs2 (ProxyStats_run rs1 s).
Proof. unfold ProxyStats_run. apply fold_left_app. Qed.

Lemma Update_total (now : Z) (response : option Response)
      (err : option error) (s : ProxyStats) :
  totalRequests (ProxyStats_Update now response err s)
  = uint_incr (totalRequests s).
Proof. unfold ProxyStats_Update. destruct response, err; reflexivity. Qed.

Lemma Update_in_range (now : Z) (response : option Response)
      (err : option error) (s : ProxyStats) :
  counters_in_range s ->
  counters_in_range (ProxyStats_Update now response err s).
Proof.
  intros (Ht & Hs & He). unfold counters_in_range, ProxyStats_Update.
  destruct response, err; cbn [totalRequests successCount errorCount];
    unfold uint_incr; repeat split;
    try apply uint_wrap_range; lia.
Qed.

Lemma run_in_range (rs : list Report) (s : ProxyStats) :
  counters_in_range s -> counters_in_range (ProxyStats_run rs s).
Proof.
  revert s. induction rs as [| r rs IH]; intros s Hs; [exact Hs |].
  cbn. apply IH. now apply Update_in_range.
Qed.

(** After any sequence of updates the total is the number of updates, taken
    as a [uint]. *)
Lemma run_total (rs : list Report) (s : ProxyStats) :
  0 <= totalRequests s < uint_modulus ->
  totalRequests (ProxyStats_run rs s) = uint_wrap (totalRequests s + len rs).
Proof.
  revert s. induction rs as [| r rs IH]; intros s Hs.
  - cbn. unfold len. cbn. rewrite Z.add_0_r.
    symmetry. now apply uint_wrap_small.
  - change (ProxyStats_run (r :: rs) s)
      with (ProxyStats_run rs (ProxyStats_report s r)).
    rewrite IH.
    + unfold ProxyStats_report. rewrite Update_total. unfold uint_incr.
      rewrite uint_incr_wrap_l. f_equal. unfold len. cbn [List.length].
      lia.
    + unfold ProxyStats_report. rewrite Update_total.
      apply uint_wrap_range.
Qed.

(** In [uint] arithmetic the total is the sum of the other two counters
    after every sequence of updates, however long. *)
Lemma run_sum_wrapped (rs : list Report) :
  let s := ProxyStats_run rs ProxyStats_zero in
  totalRequests s = uint_wrap (successCount s + errorCount s).
Proof.
  induction rs as [| r rs IH] using rev_ind; [reflexivity |].
  cbn zeta in *. rewrite ProxyStats_run_app.
  set (s := ProxyStats_run rs ProxyStats_zero) in *.
  cbn [ProxyStats_run fold_left]. unfold ProxyStats_report, ProxyStats_Update.
  destruct (rep_response r), (rep_err r);
    cbn [totalRequests successCount errorCount];
    unfold uint_incr; rewrite IH, uint_incr_wrap_l;
    rewrite ?uint_incr_wrap_l;
    try (rewrite (Z.add_comm (successCount s) (uint_wrap _)),
           uint_incr_wrap_l);
    f_equal; lia.
Qed.

(** While fewer than [2^64] updates were made, the counters have not
    wrapped: the total is the number of updates and the sum of the other
    two. *)
Lemma run_exact (rs : list Report) :
  len rs < uint_modulus ->
  let s := ProxyStats_run rs ProxyStats_zero in
  totalRequests s = len rs /\
  totalRequests s = successCount s + errorCount s /\
  0 <= successCount s /\ 0 <= errorCount s.
Proof.
  induction rs as [| r rs IH] using rev_ind; intros Hlen.
  - cbn. unfold len. cbn. lia.
  - cbn zeta. rewrite ProxyStats_run_app.
    assert (Hlen' : len (rs ++ [r]) = len rs + 1)
      by (unfold len; rewrite length_app; cbn [List.length]; lia).
    rewrite Hlen' in *.
    destruct IH as (Ht & Hsum & Hs & He); [lia |].
    set (s := ProxyStats_run rs ProxyStats_zero) in *.
    assert (Hlen0 : 0 <= len rs) by (unfold len; lia).
    cbn [ProxyStats_run fold_left].
    unfold ProxyStats_report, ProxyStats_Update.
    destruct (rep_response r), (rep_err r);
      cbn [totalRequests successCount errorCount];
      unfold uint_incr; rewrite !uint_wrap_small; lia.
Qed.

(** C3, as amended.  For a [ProxyStats] that starts from the zero state and
    a sequence of fewer than [2^64] [Update] calls, each update increments
    [totalRequests] by exactly 1 and exactly one of [successCount] and
    [errorCount] by exactly 1, [totalRequests = successCount + errorCount]
    holds after it, and no counter decreases.  [rs] are the updates made
    before, [r] is the update looked at. *)
Theorem Update_counters_exact (rs : list Report) (r : Report) :
  len rs + 1 < uint_modulus ->
  counters_step_exact
    (ProxyStats_run rs ProxyStats_zero)
    (ProxyStats_run (rs ++ [r]) ProxyStats_zero).
Proof.
  intros Hlen.
  assert (Hlen' : len (rs ++ [r]) = len rs + 1)
    by (unfold len; rewrite length_app; cbn [List.length]; lia).
  destruct (run_exact rs) as (Ht & Hsum & Hs & He); [lia |].
  destruct (run_exact (rs ++ [r])) as (Ht' & Hsum' & Hs' & He');
    [lia |].
  cbn zeta in *. rewrite Hlen' in Ht'.
  unfold counters_step_exact. rewrite Ht', Ht.
  rewrite ProxyStats_run_app in *.
  set (s := ProxyStats_run rs ProxyStats_zero) in *.
  cbn [ProxyStats_run fold_left] in *.
  unfold ProxyStats_report, ProxyStats_Update in *.
  assert (Hlen0 : 0 <= len rs) by (unfold len; lia).
  destruct (rep_response r), (rep_err r);
    cbn [totalRequests successCount errorCount] in *;
    unfold uint_incr in *; rewrite ?uint_wrap_small in * by lia;
    repeat split; try lia.
Qed.

(** C9.  [ProxyStats.Update(response, err)], and [Proxy.Update] through it,
    increments the success counter if and only if [response] is non-nil and
    [err] is nil, and increments the error counter in every other case; the
    counter that is not incremented keeps its value.  An outcome with a nil
    response and a nil error, and one with a non-nil response and a non-nil
    error, are counted as errors. *)
Theorem Update_counts_success_iff (now : Z) (response : option Response)
        (err : option error) (p : Proxy) :
  let s := Proxy_Stats p in
  let s' := ProxyStats_Update now response err s in
  let success := match response, err with
                 | Some _, None => true
                 | _, _ => false
                 end in
  Proxy_Stats (Proxy_Update now response err p) = s' /\
  successCount s'
    = (if success then uint_incr (successCount s) else successCount s) /\
  errorCount s'
    = (if success then errorCount s else uint_incr (errorCount s)) /\
  (successCount s' <> successCount s <-> response <> None /\ err = None) /\
  (errorCount s' <> errorCount s <-> ~ (response <> None /\ err = None)) /\
  errorCount (ProxyStats_Update now None None s)
    = uint_incr (errorCount s) /\
  (forall (resp : Response) (e : error),
      errorCount (ProxyStats_Update now (Some resp) (Some e) s)
      = uint_incr (errorCount s)).
Proof.
  cbn zeta. unfold Proxy_Update, Proxy_Stats, ProxyStats_Update.
  cbn [stats].
  pose proof (uint_incr_neq (successCount (stats p))) as Hs.
  pose proof (uint_incr_neq (errorCount (stats p))) as He.
  destruct response as [resp |], err as [e |];
    cbn [successCount errorCount];
    repeat split; try reflexivity; try congruence; try tauto;
    try (intros [H1 H2]; congruence);
    try (intros H; exfalso; apply H; split; congruence);
    try (intros _ [H1 H2]; congruence).
Qed.

End StatsTheorems.

(** The amended C3 at a sequence of a success and a failure, followed by a
    success. *)
Lemma Update_counters_exact_witness :
  len [report_ok; report_failed] + 1 < uint_modulus /\
  counters_step_exact
    (ProxyStats_run [report_ok; report_failed] ProxyStats_zero)
    (ProxyStats_run ([report_ok; report_failed] ++ [report_ok])
                    ProxyStats_zero).
Proof.
  split.
  - reflexivity.
  - apply (@Update_counters_exact sample_lib). reflexivity.
Defined.

Lemma len_reports_to_the_brim : len reports_to_the_brim = uint_modulus - 1.
Proof.
  unfold reports_to_the_brim, len. rewrite repeat_length.
  apply Z2Nat.id. pose proof uint_modulus_pos. lia.
Qed.

(** C3 as the claim has it, for every sequence, fails once a counter wraps:
    after [2^64 - 1] successful updates [totalRequests] is [2^64 - 1], and the
    next update takes it to 0, which is neither one more nor at least as
    much. *)
Lemma Update_counters_wrap :
  ~ counters_step_exact
      (ProxyStats_run reports_to_the_brim ProxyStats_zero)
      (ProxyStats_run (reports_to_the_brim ++ [report_ok]) ProxyStats_zero).
Proof.
  intros (Ht & _).
  pose proof uint_modulus_pos as HM.
  rewrite !run_total in Ht by (cbn [totalRequests ProxyStats_zero]; lia).
  assert (Hlen : len (reports_to_the_brim ++ [report_ok]) = uint_modulus).
  { unfold len. rewrite length_app. fold (len reports_to_the_brim).
    rewrite Nat2Z.inj_add. fold (len reports_to_the_brim).
    rewrite len_reports_to_the_brim. cbn [List.length]. lia. }
  rewrite Hlen, len_reports_to_the_brim in Ht.
  cbn [totalRequests ProxyStats_zero] in Ht.
  rewrite !Z.add_0_l in Ht. unfold uint_wrap in Ht.
  rewrite Z.mod_same, Z.mod_small in Ht by lia. lia.
Qed.

(** ** Rotation strategies *)

(** C4.  For every proxy [p] and rotation strategies [A] and [B]: the
    composite with OR logic over [A, B] answers
    [A.ShouldRotate(p) || B.ShouldRotate(p)], the composite with AND logic
    answers [A.ShouldRotate(p) && B.ShouldRotate(p)], and a composite without
    sub-strategies answers false, with AND, with OR, and with any other value
    of the logic. *)
Theorem CompositeRotation_two_and_none (A B : RotationStrategy) (p : Proxy) :
  ShouldRotate (NewCompositeRotationStrategy RotationLogicOR [A; B]) p
  = ShouldRotate A p || ShouldRotate B p /\
  ShouldRotate (NewCompositeRotationStrategy RotationLogicAND [A; B]) p
  = ShouldRotate A p && ShouldRotate B p /\
  ShouldRotate (NewCompositeRotationStrategy RotationLogicAND []) p = false /\
  ShouldRotate (NewCompositeRotationStrategy RotationLogicOR []) p = false /\
  (forall logic : CompositeRotationLogicType,
      ShouldRotate (NewCompositeRotationStrategy logic []) p = false).
Proof.
  repeat split; cbn; try reflexivity;
    destruct (ShouldRotate A p), (ShouldRotate B p); reflexivity.
Qed.

(** ** Select strategies *)

Lemma int_wrap_small (z : Z) : min_int <= z <= max_int -> int_wrap z = z.
Proof.
  unfold int_wrap, min_int, max_int, int_bits. intros Hz.
  rewrite Z.mod_small; lia.
Qed.

Lemma slice_at_in_range {A : Type} (s : list A) (i : Z) (d : A) :
  0 <= i < len s -> slice_at s i = Ok (nth (Z.to_nat i) s d).
Proof.
  intros Hi. unfold slice_at.
  replace ((i <? 0) || (len s <=? i)) with false
    by (symmetry; apply orb_false_iff; split; [apply Z.ltb_ge | apply Z.leb_gt];
        lia).
  assert (Hn : (Z.to_nat i < List.length s)%nat) by (unfold len in Hi; lia).
  rewrite (nth_error_nth' s d Hn). reflexivity.
Qed.

Lemma len_zero_iff {A : Type} (s : list A) : (len s =? 0) = true <-> s = [].
Proof.
  unfold len. rewrite Z.eqb_eq. destruct s; cbn [List.length]; split;
    intros H; try reflexivity; try discriminate; lia.
Qed.

Lemma len_nonneg {A : Type} (s : list A) : 0 <= len s.
Proof. unfold len. lia. Qed.

Section SelectTheorems.

Context {lib : GoLib}.

(** The next cursor of [RoundRobinSelect.Select] is an index of the slice. *)
Lemma next_cursor_range (index0 n : Z) :
  -1 <= index0 < max_int -> 0 < n ->
  Z.rem (int_wrap (index0 + 1)) n = (index0 + 1) mod n /\
  0 <= (index0 + 1) mod n < n.
Proof.
  intros Hc Hn. rewrite int_wrap_small
    by (unfold min_int, max_int, int_bits in *; lia).
  split; [apply Z.rem_mod_nonneg; lia | apply Z.mod_pos_bound; lia].
Qed.

(** [Select] keeps the cursor within bounds: the representation invariant
    of [RoundRobinSelect]. *)
Lemma Select_cursor_ok (s : SelectStrategy) (h : ProxyHeap)
      (pool : list ProxyPtr) (draws : nat) (proxies : list ProxyPtr) :
  Provider_GetProxies (strategy_provider s) h pool = Ok proxies ->
  len proxies <= max_int ->
  cursor_ok s ->
  cursor_ok (snd (fst (Select s h pool draws))).
Proof.
  intros Hget Hlen Hc. destruct s as [provider | provider index0];
    cbn [strategy_provider] in Hget; cbn [Select].
  - destruct (RandomSelect_Select provider h pool draws). exact I.
  - unfold RoundRobinSelect_Select. rewrite Hget.
    destruct (len proxies =? 0) eqn:Hz; [exact Hc |].
    assert (Hpos : 0 < len proxies).
    { pose proof (len_nonneg proxies). apply Z.eqb_neq in Hz. lia. }
    destruct (next_cursor_range index0 (len proxies) Hc Hpos) as [Heq Hr].
    rewrite Heq.
    destruct (slice_at proxies ((index0 + 1) mod len proxies));
      cbn [fst snd cursor_ok]; lia.
Qed.

Lemma apply_factory_cursor_ok (factory : SelectStrategyFactory)
      (provider : Provider) :
  cursor_ok (apply_factory factory provider).
Proof.
  revert provider. induction factory as [| | f IH filters]; intros provider;
    cbn; try exact I; [| apply IH].
  unfold max_int, int_bits. lia.
Qed.

(** C6.  [RandomSelect.Select()] and [RoundRobinSelect.Select()] return, and
    they return a non-nil error if and only if the (filtered) list of their
    provider is empty at the call; the error then is the failed-select error
    and the proxy returned is nil.  When the list is not empty they return an
    element of the list and a nil error.  [proxies] is what the provider's
    [GetProxies()] returns; it is a slice, and the cursor and the random
    source are within their ranges. *)
Theorem Select_error_iff_empty (s : SelectStrategy) (h : ProxyHeap)
        (pool : list ProxyPtr) (draws : nat) (proxies : list ProxyPtr) :
  Provider_GetProxies (strategy_provider s) h pool = Ok proxies ->
  len proxies <= max_int ->
  cursor_ok s ->
  rand_in_range lib ->
  exists (p : ProxyPtr) (e : option error),
    fst (fst (Select s h pool draws)) = Ok (p, e) /\
    (e <> None <-> proxies = []) /\
    (proxies = [] ->
     p = None /\ e = Some emptyProxiesError /\
     errors_Is e ErrFailedSelectProxy = true) /\
    (proxies <> [] -> e = None /\ In p proxies).
Proof.
  intros Hget Hlen Hc Hrand.
  destruct (len proxies =? 0) eqn:Hz.
  - (* the empty list *)
    assert (Hnil : proxies = []) by (now apply len_zero_iff).
    exists None, (Some emptyProxiesError).
    split; [| repeat split; try reflexivity; try congruence ].
    destruct s as [provider | provider index0];
      cbn [strategy_provider] in Hget; cbn [Select];
      unfold RandomSelect_Select, RoundRobinSelect_Select;
      rewrite Hget, Hz; reflexivity.
  - assert (Hne : proxies <> []).
    { intros Hnil. apply len_zero_iff in Hnil. congruence. }
    assert (Hpos : 0 < len proxies).
    { pose proof (len_nonneg proxies). apply Z.eqb_neq in Hz. lia. }
    destruct s as [provider | provider index0];
      cbn [strategy_provider] in Hget; cbn [Select].
    + (* RandomSelect *)
      pose proof (Hrand draws (len proxies) Hpos) as Hr.
      exists (nth (Z.to_nat (rand_IntN draws (len proxies))) proxies None),
        None.
      unfold RandomSelect_Select. rewrite Hget, Hz.
      rewrite (slice_at_in_range proxies _ None Hr). cbn [fst].
      repeat split; try congruence.
      apply nth_In, Nat2Z.inj_lt. rewrite Z2Nat.id by lia. apply Hr.
    + (* RoundRobinSelect *)
      destruct (next_cursor_range index0 (len proxies) Hc Hpos) as [Heq Hr].
      exists (nth (Z.to_nat ((index0 + 1) mod len proxies)) proxies None), None.
      unfold RoundRobinSelect_Select. rewrite Hget, Hz, Heq.
      rewrite (slice_at_in_range proxies _ None Hr). cbn [fst].
      repeat split; try congruence.
      apply nth_In, Nat2Z.inj_lt. rewrite Z2Nat.id by lia. apply Hr.
Qed.

End SelectTheorems.

Section RoundRobin.

Context {lib : GoLib}.

Variable P : list ProxyPtr.
Variable h : ProxyHeap.
Hypothesis P_slice : 1 <= len P <= max_int.

Lemma select_calls_length (k : nat) (s : SelectStrategy) (draws : nat) :
  List.length (select_calls k s h P draws) = k.
Proof.
  revert s draws. induction k as [| k IH]; intros s draws; [reflexivity |].
  cbn [select_calls]. destruct (Select s h P draws) as [[r s'] draws'].
  cbn [List.length]. now rewrite IH.
Qed.

(** One call on the unfiltered pool, with the cursor at [m - 1]. *)
Lemma round_robin_step (m : nat) (draws : nat) :
  (m <= List.length P)%nat ->
  Select (RoundRobinSelect OwnerProvider (Z.of_nat m - 1)) h P draws
  = (Ok (nth (m mod List.length P) P None, None),
     RoundRobinSelect OwnerProvider
                      (Z.of_nat (m mod List.length P + 1) - 1),
     draws).
Proof.
  intros Hm. cbn [Select]. unfold RoundRobinSelect_Select.
  cbn [Provider_GetProxies].
  assert (Hpos : 0 < len P) by lia.
  destruct (len P =? 0) eqn:Hz; [apply Z.eqb_eq in Hz; lia |].
  assert (Hc : -1 <= Z.of_nat m - 1 < max_int) by (unfold len in *; lia).
  destruct (next_cursor_range _ _ Hc Hpos) as [Heq Hr].
  rewrite Heq. rewrite (slice_at_in_range P _ None Hr).
  replace (Z.of_nat m - 1 + 1) with (Z.of_nat m) by lia.
  assert (Hmod : Z.of_nat m mod len P = Z.of_nat (m mod List.length P)).
  { unfold len. symmetry. apply Nat2Z.inj_mod. }
  rewrite Hmod, Nat2Z.id. do 3 f_equal. lia.
Qed.

(** The [j]-th of [k] calls (counting from 0), with the cursor at [m - 1]
    before the first. *)
Lemma round_robin_calls (k m j : nat) (draws : nat) :
  (m <= List.length P)%nat -> (j < k)%nat ->
  nth_error
    (select_calls k (RoundRobinSelect OwnerProvider (Z.of_nat m - 1))
                  h P draws) j
  = Some (Ok (nth ((m + j) mod List.length P) P None, None)).
Proof.
  assert (Hn : List.length P <> O) by (unfold len in P_slice; lia).
  revert m j. induction k as [| k IH]; intros m j Hm Hj; [lia |].
  cbn [select_calls]. rewrite (round_robin_step m draws Hm).
  destruct j as [| j]; cbn [nth_error].
  - now rewrite Nat.add_0_r.
  - rewrite IH.
    + do 4 f_equal.
      rewrite <- Nat.add_assoc, Nat.Div0.add_mod_idemp_l. f_equal.
    + pose proof (Nat.mod_upper_bound m (List.length P) Hn). lia.
    + lia.
Qed.

(** C5.  On a provider whose list is a fixed, unfiltered pool [P] of
    [n >= 1] proxies, the [i]-th call (from 1) of [Select()] on a new
    [RoundRobinSelect] returns [P[(i-1) mod n]] and a nil error; the first
    call returns [P[0]], the first [n] calls return the proxies of [P] in
    the order of [P], and the call [i + n] returns what the call [i]
    returned. *)
Theorem RoundRobinSelect_visits_in_order (draws : nat) :
  let s0 := apply_factory NewRoundRobinSelect OwnerProvider in
  let n := List.length P in
  (forall k i : nat,
      (1 <= i <= k)%nat ->
      nth_error (select_calls k s0 h P draws) (i - 1)
      = Some (Ok (nth ((i - 1) mod n) P None, None))) /\
  fst (fst (Select s0 h P draws)) = Ok (nth 0 P None, None) /\
  select_calls n s0 h P draws = map (fun p => Ok (p, None)) P /\
  (forall k i : nat,
      (1 <= i)%nat -> (i + n <= k)%nat ->
      nth_error (select_calls k s0 h P draws) (i + n - 1)
      = nth_error (select_calls k s0 h P draws) (i - 1)).
Proof.
  cbn zeta. cbn [apply_factory].
  assert (Hn : List.length P <> O) by (unfold len in P_slice; lia).
  assert (Hcalls : forall k j : nat,
             (j < k)%nat ->
             nth_error
               (select_calls k (RoundRobinSelect OwnerProvider (-1)) h P draws)
               j
             = Some (Ok (nth (j mod List.length P) P None, None))).
  { intros k j Hj.
    exact (round_robin_calls k 0 j draws (Nat.le_0_l _) Hj). }
  split; [| split; [| split]].
  - intros k i Hi. apply Hcalls. lia.
  - change (-1) with (Z.of_nat 0 - 1).
    rewrite (round_robin_step 0 draws (Nat.le_0_l _)). cbn [fst].
    now rewrite Nat.Div0.mod_0_l.
  - apply nth_error_ext. intros j.
    destruct (Nat.lt_ge_cases j (List.length P)) as [Hj | Hj].
    + rewrite Hcalls by exact Hj. rewrite Nat.mod_small by exact Hj.
      rewrite nth_error_map, (nth_error_nth' P None Hj). reflexivity.
    + rewrite (proj2 (nth_error_None _ _))
        by (now rewrite select_calls_length).
      symmetry. apply nth_error_None. now rewrite length_map.
  - intros k i Hi Hk. rewrite !Hcalls by lia. do 4 f_equal.
    replace (i + List.length P - 1)%nat
      with (i - 1 + 1 * List.length P)%nat by lia.
    apply Nat.Div0.mod_add.
Qed.

End RoundRobin.

(** ** Strings *)

Lemma substring_all (s : string) : String.substring 0 (String.length s) s = s.
Proof. induction s as [| c s IH]; cbn; [reflexivity | now rewrite IH]. Qed.

Lemma substring_after (a b : string) :
  String.substring (String.length a) (String.length b) (a ++ b)%string = b.
Proof. induction a as [| c a IH]; cbn; [apply substring_all | exact IH]. Qed.

Lemma length_append (a b : string) :
  String.length (a ++ b)%string = (String.length a + String.length b)%nat.
Proof. induction a as [| c a IH]; cbn; [reflexivity | now rewrite IH]. Qed.

Lemma substring_split (s : string) (n : nat) :
  (n <= String.length s)%nat ->
  s = (String.substring 0 n s
       ++ String.substring n (String.length s - n) s)%string.
Proof.
  revert n. induction s as [| c s IH]; intros n Hn.
  - destruct n; reflexivity.
  - destruct n as [| n].
    + cbn [String.substring append String.length Nat.sub].
      now rewrite substring_all.
    + cbn [String.substring append String.length Nat.sub].
      f_equal. apply IH. cbn in Hn. lia.
Qed.

(** [strings_HasSuffix s suffix] says that [s] ends with [suffix]. *)
Lemma strings_HasSuffix_spec (s suffix : string) :
  strings_HasSuffix s suffix = true
  <-> exists pre : string, s = (pre ++ suffix)%string.
Proof.
  unfold strings_HasSuffix. rewrite andb_true_iff, Nat.leb_le, String.eqb_eq.
  split.
  - intros [Hlen Hsub].
    exists (String.substring 0 (String.length s - String.length suffix) s).
    pose proof (substring_split s (String.length s - String.length suffix))
      as Hsplit.
    replace (String.length s - (String.length s - String.length suffix))%nat
      with (String.length suffix) in Hsplit by lia.
    rewrite Hsub in Hsplit. apply Hsplit. lia.
  - intros [pre ->]. rewrite length_append. split; [lia |].
    replace (String.length pre + String.length suffix
             - String.length suffix)%nat
      with (String.length pre) by lia.
    apply substring_after.
Qed.

(** [strings_TrimPrefix] removes a prefix that is there and nothing else. *)
Lemma strings_TrimPrefix_spec (s prefix : string) :
  (exists rest : string,
      s = (prefix ++ rest)%string /\ strings_TrimPrefix s prefix = rest) \/
  (strings_HasPrefix s prefix = false /\ strings_TrimPrefix s prefix = s).
Proof.
  unfold strings_TrimPrefix, strings_HasPrefix.
  destruct (String.prefix prefix s) eqn:Hp; [left | right; now split].
  apply prefix_correct in Hp.
  exists (String.substring (String.length prefix)
                           (String.length s - String.length prefix) s).
  split; [| reflexivity].
  assert (Hle : (String.length prefix <= String.length s)%nat).
  { destruct (Nat.le_gt_cases (String.length prefix) (String.length s))
      as [Hle | Hgt]; [exact Hle | exfalso].
    assert (Hl : String.length (String.substring 0 (String.length prefix) s)
                 = String.length prefix) by now rewrite Hp.
    revert Hl Hgt. clear Hp. generalize (String.length prefix) as n.
    induction s as [| c s IH]; intros n Hl Hgt.
    - destruct n; cbn in *; lia.
    - destruct n as [| n]; cbn in *; [lia |].
      apply (IH n); [congruence | lia]. }
  pose proof (substring_split s (String.length prefix) Hle) as Hsplit.
  now rewrite Hp in Hsplit.
Qed.

(** ** ResourceConfig: domain matching *)

Section DomainTheorems.

Context {lib : GoLib}.

(** [NewResourceConfig] with a domain and the two strategies returns a
    resource with the normalized domain that includes subdomains. *)
Lemma NewResourceConfig_default (d : string) (rotation : RotationStrategy)
      (factory : SelectStrategyFactory) :
  exists rc : ResourceConfig,
    NewResourceConfig true [WithDomain d;
                            WithResourceRotationStrategy (Some rotation);
                            WithResourceSelectStrategy (Some factory)]
    = Ok rc /\
    domain rc = normalizeDomain d /\
    notIgnoreSubdomains rc = false.
Proof. eexists. cbn. repeat split. Qed.

(** C7.  For a [ResourceConfig] with the normalized domain ["example.com"]:
    when subdomains are included, which is the default, [CompareDomain] is
    true for ["example.com"], ["api.example.com"] and
    ["https://example.com/"]; when subdomains are excluded it is true for
    ["example.com"] and false for ["api.example.com"]
    ([notIgnoreSubdomains] is false when subdomains are included).  The first
    five premises say what net/url and [strings.ToLower] do on these strings:
    a string without scheme and without ["//"] parses to a URL with an empty
    host. *)
Theorem CompareDomain_example_com (rc : ResourceConfig) :
  url_Hostname "example.com" = Some EmptyString ->
  url_Hostname "api.example.com" = Some EmptyString ->
  url_Hostname "https://example.com/" = Some "example.com" ->
  strings_ToLower "example.com" = "example.com" ->
  strings_ToLower "api.example.com" = "api.example.com" ->
  domain rc = "example.com" ->
  CompareDomain rc "example.com" = true /\
  CompareDomain rc "https://example.com/" = true /\
  CompareDomain rc "api.example.com" = negb (notIgnoreSubdomains rc).
Proof.
  intros U1 U2 U3 L1 L2 Hd.
  assert (N1 : normalizeDomain "example.com" = "example.com").
  { unfold normalizeDomain, getDomainFromURL. rewrite U1. cbn. exact L1. }
  assert (N2 : normalizeDomain "api.example.com" = "api.example.com").
  { unfold normalizeDomain, getDomainFromURL. rewrite U2. cbn. exact L2. }
  assert (N3 : normalizeDomain "https://example.com/" = "example.com").
  { unfold normalizeDomain, getDomainFromURL. rewrite U3. cbn. exact L1. }
  unfold CompareDomain, ResourceConfig_Domain.
  rewrite N1, N2, N3, Hd.
  destruct (notIgnoreSubdomains rc); repeat split.
Qed.

(** C8, as amended.  The empty string normalizes to the empty string.  For a
    [ResourceConfig] whose domain is the empty string, [CompareDomain] is
    true for a candidate exactly when the candidate normalizes to the empty
    string or, subdomains being included, the normalized candidate ends with
    a dot. *)
Theorem CompareDomain_empty_domain (rc : ResourceConfig) (d : string) :
  domain rc = EmptyString ->
  normalizeDomain EmptyString = EmptyString /\
  (CompareDomain rc d = true
   <-> normalizeDomain d = EmptyString \/
       (notIgnoreSubdomains rc = false /\
        exists pre : string, normalizeDomain d = (pre ++ ".")%string)).
Proof.
  intros Hd. split; [reflexivity |].
  unfold CompareDomain, ResourceConfig_Domain. rewrite Hd.
  change ("." ++ EmptyString)%string with ".".
  rewrite <- strings_HasSuffix_spec.
  destruct (String.eqb_spec (normalizeDomain d) EmptyString) as [He | Hne].
  - split; [now left | reflexivity].
  - destruct (notIgnoreSubdomains rc); cbn [negb andb].
    + split; [discriminate | intros [H | [H _]]; congruence].
    + destruct (strings_HasSuffix (normalizeDomain d) ".").
      * split; [now right | reflexivity].
      * split; [discriminate | intros [H | [_ H]]; congruence].
Qed.

End DomainTheorems.

(** C7 at the sample instance, subdomains included and excluded. *)
Lemma CompareDomain_example_com_witness :
  (CompareDomain (lib := sample_lib) rc_example_com "example.com" = true /\
   CompareDomain (lib := sample_lib) rc_example_com "https://example.com/"
   = true /\
   CompareDomain (lib := sample_lib) rc_example_com "api.example.com"
   = true) /\
  (CompareDomain (lib := sample_lib) rc_example_com_only "example.com"
   = true /\
   CompareDomain (lib := sample_lib) rc_example_com_only
                 "https://example.com/" = true /\
   CompareDomain (lib := sample_lib) rc_example_com_only "api.example.com"
   = false).
Proof.
  split.
  - apply (@CompareDomain_example_com sample_lib rc_example_com);
      reflexivity.
  - apply (@CompareDomain_example_com sample_lib rc_example_com_only);
      reflexivity.
Defined.

(** The amended C8 at the sample instance. *)
Lemma CompareDomain_empty_domain_witness :
  domain rc_empty_domain = EmptyString /\
  normalizeDomain (lib := sample_lib) EmptyString = EmptyString.
Proof.
  split; [reflexivity |].
  apply (@CompareDomain_empty_domain sample_lib rc_empty_domain "x.org").
  reflexivity.
Defined.

(** C8 as the claim has it fails: the resource for the empty domain matches
    the candidates ["."] and ["example.com."], which do not normalize to the
    empty string, by the suffix rule (the suffix looked for is a dot followed
    by the empty domain). *)
Lemma CompareDomain_empty_domain_suffix_match :
  domain rc_empty_domain = EmptyString /\
  CompareDomain (lib := sample_lib) rc_empty_domain "." = true /\
  normalizeDomain (lib := sample_lib) "." = "." /\
  normalizeDomain (lib := sample_lib) "." <> EmptyString /\
  strings_HasSuffix (normalizeDomain (lib := sample_lib) ".")
                    ("." ++ domain rc_empty_domain) = true /\
  CompareDomain (lib := sample_lib) rc_empty_domain "example.com." = true /\
  normalizeDomain (lib := sample_lib) "example.com." = "example.com.".
Proof. repeat split. discriminate. Qed.

Lemma sample_lib_rand_in_range : rand_in_range sample_lib.
Proof.
  intros k n Hn. cbn [rand_IntN sample_lib].
  replace (0 <? n) with true by (symmetry; now apply Z.ltb_lt).
  apply Z.mod_pos_bound. exact Hn.
Qed.

(** C6 at the default select strategy over the sample pool. *)
Lemma Select_error_iff_empty_witness :
  exists (p : ProxyPtr) (e : option error),
    fst (fst (Select (lib := sample_lib)
                     (apply_factory DefaultSelectStrategy OwnerProvider)
                     fresh_heap sample_pool 4)) = Ok (p, e) /\
    (e <> None <-> sample_pool = []) /\
    (sample_pool = [] ->
     p = None /\ e = Some emptyProxiesError /\
     errors_Is e ErrFailedSelectProxy = true) /\
    (sample_pool <> [] -> e = None /\ In p sample_pool).
Proof.
  apply (@Select_error_iff_empty sample_lib
           (apply_factory DefaultSelectStrategy OwnerProvider)
           fresh_heap sample_pool 4 sample_pool).
  - reflexivity.
  - vm_compute. discriminate.
  - exact I.
  - exact sample_lib_rand_in_range.
Defined.

(** C5 at the sample pool: seven calls. *)
Lemma RoundRobinSelect_visits_in_order_witness :
  select_calls (lib := sample_lib) 7
               (apply_factory NewRoundRobinSelect OwnerProvider)
               fresh_heap sample_pool 0
  = map (fun p => Ok (p, None))
        [Some 0; Some 1; Some 2; Some 0; Some 1; Some 2; Some 0]%nat /\
  select_calls (lib := sample_lib) 3
               (apply_factory NewRoundRobinSelect OwnerProvider)
               fresh_heap sample_pool 0
  = map (fun p => Ok (p, None)) sample_pool.
Proof.
  split; [reflexivity |].
  apply (@RoundRobinSelect_visits_in_order sample_lib sample_pool fresh_heap).
  vm_compute. split; discriminate.
Defined.

(** ** Providers and filters select from the pool *)

Lemma RemoveActiveProxyFilter_incl (h : ProxyHeap) (l l' : list ProxyPtr) :
  RemoveActiveProxyFilter_Filter h l = Ok l' -> incl l' l.
Proof.
  revert l'. induction l as [| [i |] l IH]; intros l' H; cbn in H.
  - injection H as <-. apply incl_refl.
  - destruct (RemoveActiveProxyFilter_Filter h l) as [result |];
      [| discriminate].
    specialize (IH result eq_refl).
    destruct (negb (Proxy_IsActive (h i))); injection H as <-.
    + intros x [<- | Hx]; [now left | right; now apply IH].
    + now apply incl_tl.
  - discriminate.
Qed.

Lemma RemoveDisabledFilter_incl (h : ProxyHeap) (l l' : list ProxyPtr) :
  RemoveDisabledFilter_Filter h l = Ok l' -> incl l' l.
Proof.
  revert l'. induction l as [| [i |] l IH]; intros l' H; cbn in H.
  - injection H as <-. apply incl_refl.
  - destruct (RemoveDisabledFilter_Filter h l) as [result |];
      [| discriminate].
    specialize (IH result eq_refl).
    destruct (negb (Proxy_IsDisabled (h i))); injection H as <-.
    + intros x [<- | Hx]; [now left | right; now apply IH].
    + now apply incl_tl.
  - discriminate.
Qed.

Lemma Filter_incl (f : SelectFilter) (h : ProxyHeap) (l l' : list ProxyPtr) :
  Filter f h l = Ok l' -> incl l' l.
Proof.
  destruct f; cbn [Filter];
    [apply RemoveActiveProxyFilter_incl | apply RemoveDisabledFilter_incl].
Qed.

Lemma filters_loop_incl (h : ProxyHeap) (filters : list SelectFilter)
      (l l' : list ProxyPtr) :
  filters_loop h filters l = Ok l' -> incl l' l.
Proof.
  revert l l'. induction filters as [| f filters IH]; intros l l' H;
    cbn [filters_loop] in H.
  - injection H as <-. apply incl_refl.
  - destruct (Filter f h l) as [l1 |] eqn:Hf; [| discriminate].
    apply Filter_incl in Hf.
    destruct (len l1 =? 0).
    + injection H as <-. exact Hf.
    + apply IH in H. eapply incl_tran; eassumption.
Qed.

Lemma Provider_GetProxies_incl (p : Provider) (h : ProxyHeap)
      (pool l : list ProxyPtr) :
  Provider_GetProxies p h pool = Ok l -> incl l pool.
Proof.
  revert l. induction p as [| p IH filters]; intros l H;
    cbn [Provider_GetProxies] in H.
  - injection H as <-. apply incl_refl.
  - destruct (Provider_GetProxies p h pool) as [l1 |]; [| discriminate].
    apply filters_loop_incl in H. eapply incl_tran; [exact H | now apply IH].
Qed.

Lemma slice_at_In {A : Type} (s : list A) (i : Z) (a : A) :
  slice_at s i = Ok a -> In a s.
Proof.
  unfold slice_at. destruct ((i <? 0) || (len s <=? i)); [discriminate |].
  destruct (nth_error s (Z.to_nat i)) as [b |] eqn:Hn; [| discriminate].
  intros H. injection H as <-. eapply nth_error_In. exact Hn.
Qed.

Section SelectFrame.

Context {lib : GoLib}.

(** What [Select] can return: the failed-select error with a nil proxy, or
    an element of the owner's pool with a nil error. *)
Lemma Select_returns (s : SelectStrategy) (h : ProxyHeap)
      (pool : list ProxyPtr) (draws : nat) (p : ProxyPtr)
      (e : option error) :
  fst (fst (Select s h pool draws)) = Ok (p, e) ->
  (p = None /\ e = Some emptyProxiesError) \/ (e = None /\ In p pool).
Proof.
  destruct s as [provider | provider index0]; cbn [Select];
    unfold RandomSelect_Select, RoundRobinSelect_Select;
    destruct (Provider_GetProxies provider h pool) as [l |] eqn:Hget;
    try (cbn; discriminate);
    apply Provider_GetProxies_incl in Hget;
    destruct (len l =? 0).
  - cbn. intros H. injection H as <- <-. now left.
  - destruct (slice_at l _) as [a |] eqn:Hi; cbn; [| discriminate].
    intros H. injection H as <- <-. right. split; [reflexivity |].
    apply Hget. eapply slice_at_In. exact Hi.
  - cbn. intros H. injection H as <- <-. now left.
  - destruct (slice_at l _) as [a |] eqn:Hi; cbn; [| discriminate].
    intros H. injection H as <- <-. right. split; [reflexivity |].
    apply Hget. eapply slice_at_In. exact Hi.
Qed.

End SelectFrame.

(** ** ProxyManagerImpl: what [GetNextProxy] returns *)

Lemma len_slice_elems {A : Type} (mem : Arrays A) (s : Slice) :
  len (slice_elems mem s) = slice_len s.
Proof.
  unfold len, slice_elems, slice_len. now rewrite length_map, length_seq.
Qed.

Lemma slice_elems_nil {A : Type} (mem : Arrays A) (s : Slice) :
  slice_elems mem s = [] <-> sl_len s = 0%nat.
Proof.
  unfold slice_elems. destruct (sl_len s); cbn; split; congruence.
Qed.

Lemma slice_len_zero (s : Slice) :
  (slice_len s =? 0) = true <-> sl_len s = 0%nat.
Proof. unfold slice_len. rewrite Z.eqb_eq. lia. Qed.

Lemma same_but_select_state_refl (w : World) : same_but_select_state w w.
Proof. unfold same_but_select_state. repeat split. Qed.

Lemma same_but_select_state_pools (w w' : World) :
  same_but_select_state w w' -> pool_ptrs w' = pool_ptrs w.
Proof.
  intros (_ & _ & Hp & Hr & _ & Hrc & Hpa & Hra).
  unfold pool_ptrs, resource_list, ProxyManagerImpl_GetProxies.
  rewrite Hp, Hr, Hpa, Hra.
  f_equal. apply flat_map_ext. intros [r |]; cbn [resource_pool];
    [| reflexivity].
  unfold ResourceConfig_GetProxies. now rewrite (proj1 (Hrc r)).
Qed.

Lemma keeps_lastUsed_true (strategy : option RotationStrategy)
      (h : ProxyHeap) (last : ProxyPtr) :
  keeps_lastUsed strategy h last = Ok true ->
  exists (l : nat) (rot : RotationStrategy),
    last = Some l /\ strategy = Some rot /\ ShouldRotate rot (h l) = false.
Proof.
  unfold keeps_lastUsed. destruct last as [l |]; [| discriminate].
  destruct strategy as [rot |]; [| discriminate].
  intros H. injection H as H. exists l, rot. repeat split.
  now apply negb_true_iff.
Qed.

Lemma install_current_nil (last : ProxyPtr) (w : World) :
  install_current last None w = (Ok (None, Some ErrProxyNotAvailable), w).
Proof. reflexivity. Qed.

Section ManagerReturns.

Context {lib : GoLib}.

Lemma getResourceByDomain_loop_returns (rh : ResourceHeap)
      (rs : list ResourcePtr) (d : string) (res : ResourcePtr)
      (err : option error) :
  getResourceByDomain_loop rh rs d = Ok (res, err) ->
  (res = None /\ err = Some ErrResourceNotFound) \/
  (exists r : nat, res = Some r /\ err = None /\ In (Some r) rs).
Proof.
  induction rs as [| [r |] rs IH]; cbn [getResourceByDomain_loop]; intros H.
  - injection H as <- <-. now left.
  - destruct (CompareDomain (rh r) d).
    + injection H as <- <-. right. exists r. repeat split. now left.
    + destruct (IH H) as [Hnone | (r' & -> & -> & Hin)]; [now left |].
      right. exists r'. repeat split. now right.
  - discriminate.
Qed.

(** The outcomes of the decision in the global scope. *)
Lemma decide_global_returns (last : ProxyPtr) (w : World) (po : ProxyPtr)
      (e : option error) (w' : World) :
  decide_global last w = (Ok (po, e), w') ->
  (exists (l : nat) (rot : RotationStrategy),
      last = Some l /\ rotationStrategy (pm w) = Some rot /\
      ShouldRotate rot (heap w l) = false /\
      po = Some l /\ e = None /\ w' = w) \/
  (po = None /\
   (e = Some (proxyNotAvailable emptyProxiesError) \/
    e = Some ErrProxyNotAvailable) /\
   same_but_select_state w w') \/
  (exists (c : nat) (w1 : World),
      po = Some c /\ e = None /\
      In (Some c) (ProxyManagerImpl_GetProxies (proxyArrays w) (pm w)) /\
      same_but_select_state w w1 /\
      w' = snd (install_current last (Some c) w1)).
Proof.
  unfold decide_global.
  destruct (keeps_lastUsed (rotationStrategy (pm w)) (heap w) last)
    as [[|] |] eqn:Hkeep; [| | discriminate].
  - intros H. injection H as <- <- <-.
    destruct (keeps_lastUsed_true _ _ _ Hkeep) as (l & rot & -> & Hrot & Hs).
    left. exists l, rot. repeat split; assumption.
  - destruct (selectStrategy (pm w)) as [strategy |]; [| discriminate].
    destruct (Select strategy (heap w)
                     (ProxyManagerImpl_GetProxies (proxyArrays w) (pm w))
                     (randDraws w)) as [[r strategy'] draws'] eqn:HS.
    pose proof (Select_returns strategy (heap w)
                  (ProxyManagerImpl_GetProxies (proxyArrays w) (pm w))
                  (randDraws w)) as Hret.
    rewrite HS in Hret. cbn [fst] in Hret.
    set (w1 := mkWorld (heap w) (rheap w) (proxyArrays w) (resourceArrays w)
                       (set_selectStrategy (pm w) strategy') draws'
                       (S (selectCalls w))).
    assert (Hsame : same_but_select_state w w1)
      by (unfold same_but_select_state; repeat split).
    destruct r as [[p [errSelect |]] |]; [| | discriminate].
    + intros H. injection H as <- <- <-.
      destruct (Hret p (Some errSelect) eq_refl) as [[_ He] | [He _]];
        [| discriminate].
      injection He as ->. right. left.
      split; [reflexivity | split; [now left | exact Hsame]].
    + destruct (Hret p None eq_refl) as [[_ He] | [_ Hin]]; [discriminate |].
      destruct p as [c |].
      * intros H. right. right. exists c, w1.
        cbn [install_current] in H. injection H as <- <- <-.
        split; [reflexivity | split; [reflexivity |]].
        split; [exact Hin | split; [exact Hsame | reflexivity]].
      * rewrite install_current_nil. intros H. injection H as <- <- <-.
        right. left.
        split; [reflexivity | split; [now right | exact Hsame]].
Qed.

(** The outcomes of the decision in the scope of a resource. *)
Lemma decide_resource_returns (r : nat) (last : ProxyPtr) (w : World)
      (po : ProxyPtr) (e : option error) (w' : World) :
  decide_resource r last w = (Ok (po, e), w') ->
  (exists (l : nat) (rot : RotationStrategy),
      last = Some l /\ rc_rotationStrategy (rheap w r) = Some rot /\
      ShouldRotate rot (heap w l) = false /\
      po = Some l /\ e = None /\ w' = w) \/
  (po = None /\
   (e = Some (proxyNotAvailable emptyProxiesError) \/
    e = Some ErrProxyNotAvailable) /\
   same_but_select_state w w') \/
  (exists (c : nat) (w1 : World),
      po = Some c /\ e = None /\
      In (Some c) (ResourceConfig_GetProxies (proxyArrays w) (rheap w r)) /\
      same_but_select_state w w1 /\
      w' = snd (install_current last (Some c) w1)).
Proof.
  unfold decide_resource.
  destruct (keeps_lastUsed (rc_rotationStrategy (rheap w r)) (heap w) last)
    as [[|] |] eqn:Hkeep; [| | discriminate].
  - intros H. injection H as <- <- <-.
    destruct (keeps_lastUsed_true _ _ _ Hkeep) as (l & rot & -> & Hrot & Hs).
    left. exists l, rot. repeat split; assumption.
  - destruct (rc_selectStrategy (rheap w r)) as [strategy |];
      [| discriminate].
    destruct (Select strategy (heap w)
                     (ResourceConfig_GetProxies (proxyArrays w) (rheap w r))
                     (randDraws w)) as [[r' strategy'] draws'] eqn:HS.
    pose proof (Select_returns strategy (heap w)
                  (ResourceConfig_GetProxies (proxyArrays w) (rheap w r))
                  (randDraws w))
      as Hret.
    rewrite HS in Hret. cbn [fst] in Hret.
    set (w1 := mkWorld (heap w)
                       (rheap_set (rheap w) r
                          (set_rc_selectStrategy (rheap w r) strategy'))
                       (proxyArrays w) (resourceArrays w)
                       (pm w) draws' (S (selectCalls w))).
    assert (Hsame : same_but_select_state w w1).
    { unfold same_but_select_state. repeat split;
        subst w1; cbn [rheap]; unfold rheap_set;
        destruct (Nat.eqb_spec r0 r) as [-> |]; reflexivity. }
    destruct r' as [[p [errSelect |]] |]; [| | discriminate].
    + intros H. injection H as <- <- <-.
      destruct (Hret p (Some errSelect) eq_refl) as [[_ He] | [He _]];
        [| discriminate].
      injection He as ->. right. left.
      split; [reflexivity | split; [now left | exact Hsame]].
    + destruct (Hret p None eq_refl) as [[_ He] | [_ Hin]]; [discriminate |].
      destruct p as [c |].
      * intros H. right. right. exists c, w1.
        cbn [install_current] in H. injection H as <- <- <-.
        split; [reflexivity | split; [reflexivity |]].
        split; [exact Hin | split; [exact Hsame | reflexivity]].
      * rewrite install_current_nil. intros H. injection H as <- <- <-.
        right. left.
        split; [reflexivity | split; [now right | exact Hsame]].
Qed.

End ManagerReturns.

Lemma pool_ptrs_nonempty (w : World) (p : ProxyPtr) :
  In p (pool_ptrs w) ->
  (slice_len (proxies (pm w)) =? 0) && (slice_len (resources (pm w)) =? 0)
  = false.
Proof.
  unfold pool_ptrs, resource_list, ProxyManagerImpl_GetProxies.
  intros Hin. apply andb_false_iff.
  rewrite <- (len_slice_elems (proxyArrays w)),
    <- (len_slice_elems (resourceArrays w)).
  destruct (slice_elems (proxyArrays w) (proxies (pm w))) as [| a l];
    [| left; reflexivity].
  destruct (slice_elems (resourceArrays w) (resources (pm w))) as [| r rs];
    [| right; reflexivity].
  destruct Hin.
Qed.

(** The first test of [GetNextProxy] is on the two lengths: it succeeds
    when the global pool and the list of resources are both empty. *)
Lemma both_empty_iff (w : World) :
  (slice_len (proxies (pm w)) =? 0) && (slice_len (resources (pm w)) =? 0)
  = true
  <-> ProxyManagerImpl_GetProxies (proxyArrays w) (pm w) = [] /\
      resource_list w = [].
Proof.
  unfold ProxyManagerImpl_GetProxies, resource_list.
  rewrite andb_true_iff, !slice_len_zero, !slice_elems_nil. reflexivity.
Qed.

Lemma resource_pool_in_pools (w : World) (r : nat) (p : ProxyPtr) :
  In (Some r) (resource_list w) ->
  In p (ResourceConfig_GetProxies (proxyArrays w) (rheap w r)) ->
  In p (pool_ptrs w).
Proof.
  intros Hr Hp. unfold pool_ptrs. apply in_or_app. right.
  apply in_flat_map. exists (Some r). split; [exact Hr | exact Hp].
Qed.

Section GetNextProxyReturns.

Context {lib : GoLib}.

(** The outcomes of [GetNextProxy] when it returns: the empty-pool error; the
    reuse of [lastUsed], with the state as it was; a failure of the selection
    or a nil selection, with nothing but the state of a select strategy
    changed; the installation of a selected proxy of a pool. *)
Lemma GetNextProxy_returns (d : string) (w : World) (po : ProxyPtr)
      (e : option error) (w' : World) :
  ProxyManagerImpl_GetNextProxy d w = (Ok (po, e), w') ->
  (po = None /\ e = Some (proxyNotAvailable ErrEmptyProxyList) /\ w' = w) \/
  (exists (l : nat) (rot : RotationStrategy),
      lastUsed (pm w) = Some l /\
      applicable_rotation w d = Ok (Some rot) /\
      ShouldRotate rot (heap w l) = false /\
      po = Some l /\ e = None /\ w' = w) \/
  (po = None /\
   (e = Some (proxyNotAvailable emptyProxiesError) \/
    e = Some ErrProxyNotAvailable) /\
   same_but_select_state w w') \/
  (exists (c : nat) (w1 : World),
      po = Some c /\ e = None /\ In (Some c) (pool_ptrs w) /\
      same_but_select_state w w1 /\
      w' = snd (install_current (lastUsed (pm w)) (Some c) w1)).
Proof.
  unfold ProxyManagerImpl_GetNextProxy, applicable_rotation.
  destruct ((slice_len (proxies (pm w)) =? 0)
            && (slice_len (resources (pm w)) =? 0)).
  { intros H. injection H as <- <- <-. left. repeat split. }
  unfold getResourceByDomain.
  destruct (getResourceByDomain_loop (rheap w) (resource_list w) d)
    as [[res err] |] eqn:Hres; [| discriminate].
  destruct (getResourceByDomain_loop_returns _ _ _ _ _ Hres)
    as [[-> ->] | (r & -> & -> & Hin)].
  - (* no resource matches: the global scope *)
    cbn [errors_Is errors_Is_nonnil error_eqb orb andb negb].
    unfold ProxyManagerImpl_LastUsed. intros H.
    destruct (decide_global_returns _ _ _ _ _ H)
      as [(l & rot & Hl & Hrot & Hs & -> & -> & ->) | [Hfail | Hinst]].
    + right. left. exists l, rot. rewrite Hrot. repeat split; assumption.
    + right. right. left. exact Hfail.
    + destruct Hinst as (c & w1 & -> & -> & Hc & Hsame & ->).
      right. right. right. exists c, w1.
      split; [reflexivity | split; [reflexivity |]].
      split; [| split; [exact Hsame | reflexivity]].
      unfold pool_ptrs. apply in_or_app. now left.
  - (* the resource [r] matches *)
    cbn [errors_Is andb].
    unfold ProxyManagerImpl_LastUsed. intros H.
    destruct (decide_resource_returns _ _ _ _ _ _ H)
      as [(l & rot & Hl & Hrot & Hs & -> & -> & ->) | [Hfail | Hinst]].
    + right. left. exists l, rot. rewrite Hrot. repeat split; assumption.
    + right. right. left. exact Hfail.
    + destruct Hinst as (c & w1 & -> & -> & Hc & Hsame & ->).
      right. right. right. exists c, w1.
      split; [reflexivity | split; [reflexivity |]].
      split; [| split; [exact Hsame | reflexivity]].
      eapply resource_pool_in_pools; eassumption.
Qed.

(** C10.  When [GetNextProxy(domain)] returns a non-nil error (for the empty
    pool, for a failed selection, or for a nil proxy selected without an
    error) it returns no proxy, and the manager's state is as before the
    call: [lastUsed] is the same pointer, no [Proxy] object has changed (so no
    active flag was toggled), and the pools are the same.  What may have
    changed is the cursor of a select strategy. *)
Theorem GetNextProxy_error_keeps_state (d : string) (w : World)
        (po : ProxyPtr) (e : error) (w' : World) :
  ProxyManagerImpl_GetNextProxy d w = (Ok (po, Some e), w') ->
  po = None /\
  (e = proxyNotAvailable ErrEmptyProxyList \/
   e = proxyNotAvailable emptyProxiesError \/
   e = ErrProxyNotAvailable) /\
  ProxyManagerImpl_LastUsed (pm w') = ProxyManagerImpl_LastUsed (pm w) /\
  (forall i : nat, heap w' i = heap w i) /\
  same_but_select_state w w'.
Proof.
  intros H.
  destruct (GetNextProxy_returns _ _ _ _ _ H)
    as [(-> & He & ->) | [(l & rot & _ & _ & _ & _ & He & _)
                         | [(-> & He & Hsame) | (c & w1 & _ & He & _)]]];
    try discriminate.
  - injection He as ->. split; [reflexivity |]. split; [now left |].
    split; [reflexivity |]. split; [reflexivity |].
    apply same_but_select_state_refl.
  - split; [reflexivity |].
    split; [destruct He as [He | He]; injection He as ->; auto |].
    pose proof Hsame as (Hh & Hl & _).
    split; [exact Hl |]. split; [now rewrite Hh | exact Hsame].
Qed.

End GetNextProxyReturns.

(** ** Slices: what [append] does *)

Lemma map_seq_nth_error {A : Type} (g : nat -> A) (xs : list A)
      (start : nat) :
  (forall k : nat,
      (k < List.length xs)%nat ->
      nth_error xs k = Some (g (start + k)%nat)) ->
  map g (seq start (List.length xs)) = xs.
Proof.
  revert start. induction xs as [| x xs IH]; intros start H; [reflexivity |].
  cbn [List.length seq map]. f_equal.
  - specialize (H 0%nat ltac:(cbn; lia)). cbn in H.
    rewrite Nat.add_0_r in H. congruence.
  - apply IH. intros k Hk. specialize (H (S k) ltac:(cbn; lia)). cbn in H.
    rewrite H. do 2 f_equal. lia.
Qed.

Lemma cell_write_outside {A : Type} (c : nat -> nat -> A) (a i : nat)
      (xs : list A) (a' j : nat) :
  a' <> a \/ (j < i)%nat \/ (i + List.length xs <= j)%nat ->
  cell_write c a i xs a' j = c a' j.
Proof.
  intros H. unfold cell_write.
  destruct (Nat.eqb_spec a' a) as [Ha |]; [| reflexivity].
  destruct (Nat.leb_spec i j) as [Hi |]; [| reflexivity].
  destruct (Nat.ltb_spec j (i + List.length xs)) as [Hj |]; [| reflexivity].
  destruct H as [H | [H | H]]; [congruence | lia | lia].
Qed.

Lemma cell_write_inside {A : Type} (c : nat -> nat -> A) (a i : nat)
      (xs : list A) (k : nat) :
  (k < List.length xs)%nat ->
  nth_error xs k = Some (cell_write c a i xs a (i + k)%nat).
Proof.
  intros Hk. unfold cell_write. rewrite Nat.eqb_refl.
  destruct (Nat.leb_spec i (i + k)) as [_ |]; [| lia].
  destruct (Nat.ltb_spec (i + k) (i + List.length xs)) as [_ |]; [| lia].
  cbn [andb]. replace (i + k - i)%nat with k by lia.
  now apply nth_error_nth'.
Qed.

Lemma slices_apart_sym (s t : Slice) : slices_apart s t -> slices_apart t s.
Proof. unfold slices_apart. intros H. lia. Qed.

Section AppendFacts.

Context {lib : GoLib} {A : Type}.

Lemma slice_append_len (mem : Arrays A) (s : Slice) (xs : list A) :
  sl_len (snd (slice_append mem s xs)) = (sl_len s + List.length xs)%nat.
Proof. unfold slice_append. destruct (_ <=? _)%nat; reflexivity. Qed.

(** The slice that [append] returns holds the elements of the slice it was
    given, followed by the appended ones. *)
Lemma slice_append_elems (mem : Arrays A) (s : Slice) (xs : list A) :
  slice_elems (fst (slice_append mem s xs)) (snd (slice_append mem s xs))
  = (slice_elems mem s ++ xs)%list.
Proof.
  unfold slice_append.
  destruct (Nat.leb_spec (sl_len s + List.length xs) (sl_cap s))
    as [Hfit | Hgrow]; cbn [fst snd].
  - unfold slice_elems at 1. cbn [sl_array sl_off sl_len cell].
    rewrite seq_app, map_app. f_equal.
    + apply map_ext_in. intros i Hi. apply in_seq in Hi.
      apply cell_write_outside. lia.
    + apply map_seq_nth_error. intros k Hk.
      rewrite (cell_write_inside (cell mem) (sl_array s)
                                 (sl_off s + sl_len s) xs k Hk).
      do 2 f_equal. lia.
  - assert (Hlen : List.length (slice_elems mem s ++ xs)%list
                   = (sl_len s + List.length xs)%nat).
    { rewrite length_app. unfold slice_elems.
      now rewrite length_map, length_seq. }
    unfold slice_elems at 1. cbn [sl_array sl_off sl_len cell].
    rewrite <- Hlen. apply map_seq_nth_error. intros k Hk.
    now rewrite (cell_write_inside (cell mem) (allocated mem) 0 _ k Hk).
Qed.

(** [append] on a slice does not change what a slice apart from it holds. *)
Lemma slice_append_frame (mem : Arrays A) (s : Slice) (xs : list A)
      (t : Slice) :
  slices_apart s t -> slice_ok mem t ->
  slice_elems (fst (slice_append mem s xs)) t = slice_elems mem t.
Proof.
  intros Hapart [Hlen Halloc]. unfold slice_elems.
  apply map_ext_in. intros i Hi. apply in_seq in Hi.
  unfold slice_append, slices_apart in *.
  destruct (Nat.leb_spec (sl_len s + List.length xs) (sl_cap s))
    as [Hfit | Hgrow]; cbn [fst cell]; apply cell_write_outside.
  - destruct (Nat.eq_dec (sl_array t) (sl_array s)) as [He | Hne];
      [right; lia | now left].
  - left. lia.
Qed.

Lemma slice_append_ok (mem : Arrays A) (s : Slice) (xs : list A) :
  slice_ok mem s ->
  slice_ok (fst (slice_append mem s xs)) (snd (slice_append mem s xs)).
Proof.
  unfold slice_ok, slice_append. intros [Hlen Halloc].
  destruct (Nat.leb_spec (sl_len s + List.length xs) (sl_cap s));
    cbn [fst snd sl_len sl_cap sl_array allocated]; lia.
Qed.

Lemma slice_append_ok_other (mem : Arrays A) (s : Slice) (xs : list A)
      (t : Slice) :
  slice_ok mem t -> slice_ok (fst (slice_append mem s xs)) t.
Proof.
  unfold slice_ok, slice_append. intros [Hlen Halloc].
  destruct (Nat.leb_spec (sl_len s + List.length xs) (sl_cap s));
    cbn [fst allocated]; lia.
Qed.

Lemma slice_append_apart (mem : Arrays A) (s : Slice) (xs : list A)
      (t : Slice) :
  slices_apart s t -> slice_ok mem t ->
  slices_apart (snd (slice_append mem s xs)) t.
Proof.
  unfold slices_apart, slice_ok, slice_append. intros Hapart [Hlen Halloc].
  destruct (Nat.leb_spec (sl_len s + List.length xs) (sl_cap s));
    cbn [snd sl_len sl_cap sl_array sl_off]; lia.
Qed.

End AppendFacts.

(** ** ProxyManagerImpl: what the adding methods change *)

Section Adding.

Context {lib : GoLib}.

Lemma AddProxies_fields (ps : list ProxyPtr) (w : World) :
  let w' := ProxyManagerImpl_AddProxies ps w in
  let r := slice_append (proxyArrays w) (proxies (pm w)) ps in
  proxyArrays w' = fst r /\ proxies (pm w') = snd r /\
  heap w' = heap w /\ rheap w' = rheap w /\
  resourceArrays w' = resourceArrays w /\
  resources (pm w') = resources (pm w) /\
  lastUsed (pm w') = lastUsed (pm w) /\
  rotationStrategy (pm w') = rotationStrategy (pm w) /\
  selectStrategy (pm w') = selectStrategy (pm w) /\
  randDraws w' = randDraws w /\ selectCalls w' = selectCalls w.
Proof.
  unfold ProxyManagerImpl_AddProxies.
  destruct (slice_append (proxyArrays w) (proxies (pm w)) ps) as [mem s].
  cbn. repeat split.
Qed.

Lemma AddResources_fields (rs : list ResourcePtr) (w : World) :
  let w' := ProxyManagerImpl_AddResources rs w in
  let r := slice_append (resourceArrays w) (resources (pm w)) rs in
  resourceArrays w' = fst r /\ resources (pm w') = snd r /\
  heap w' = heap w /\ rheap w' = rheap w /\
  proxyArrays w' = proxyArrays w /\
  proxies (pm w') = proxies (pm w) /\
  lastUsed (pm w') = lastUsed (pm w) /\
  rotationStrategy (pm w') = rotationStrategy (pm w) /\
  selectStrategy (pm w') = selectStrategy (pm w) /\
  randDraws w' = randDraws w /\ selectCalls w' = selectCalls w.
Proof.
  unfold ProxyManagerImpl_AddResources.
  destruct (slice_append (resourceArrays w) (resources (pm w)) rs)
    as [mem s].
  cbn. repeat split.
Qed.

Lemma ResourceAddProxies_fields (r : nat) (ps : list ProxyPtr) (w : World) :
  let w' := ResourceConfig_AddProxies_at r ps w in
  let a := slice_append (proxyArrays w) (rc_proxies (rheap w r)) ps in
  proxyArrays w' = fst a /\ rc_proxies (rheap w' r) = snd a /\
  (forall j : nat, j <> r -> rheap w' j = rheap w j) /\
  (forall j : nat,
      domain (rheap w' j) = domain (rheap w j) /\
      notIgnoreSubdomains (rheap w' j) = notIgnoreSubdomains (rheap w j) /\
      rc_selectStrategy (rheap w' j) = rc_selectStrategy (rheap w j) /\
      rc_rotationStrategy (rheap w' j) = rc_rotationStrategy (rheap w j)) /\
  heap w' = heap w /\ resourceArrays w' = resourceArrays w /\
  pm w' = pm w /\
  randDraws w' = randDraws w /\ selectCalls w' = selectCalls w.
Proof.
  unfold ResourceConfig_AddProxies_at, ResourceConfig_AddProxies.
  destruct (slice_append (proxyArrays w) (rc_proxies (rheap w r)) ps)
    as [mem s].
  cbn. unfold rheap_set. rewrite Nat.eqb_refl.
  split; [reflexivity |]. split; [reflexivity |].
  split.
  { intros j Hj. now destruct (Nat.eqb_spec j r). }
  split; [| repeat split].
  intros j. destruct (Nat.eqb_spec j r) as [-> |]; repeat split.
Qed.

(** The pools after [AddProxies]: the global pool holds the proxies it held,
    followed by the new ones; when the pools do not share memory the pools
    of the resources hold what they held. *)
Lemma AddProxies_pools (ps : list ProxyPtr) (w : World) :
  let w' := ProxyManagerImpl_AddProxies ps w in
  ProxyManagerImpl_GetProxies (proxyArrays w') (pm w')
  = (ProxyManagerImpl_GetProxies (proxyArrays w) (pm w) ++ ps)%list /\
  resource_list w' = resource_list w /\
  (pools_separate w ->
   forall r : nat,
     ResourceConfig_GetProxies (proxyArrays w') (rheap w' r)
     = ResourceConfig_GetProxies (proxyArrays w) (rheap w r)).
Proof.
  cbn zeta.
  destruct (AddProxies_fields ps w)
    as (Hmem & Hs & _ & Hrh & Hra & Hrs & _).
  unfold ProxyManagerImpl_GetProxies, resource_list,
    ResourceConfig_GetProxies.
  rewrite Hmem, Hs, Hrh, Hra, Hrs.
  split; [apply slice_append_elems |]. split; [reflexivity |].
  intros (_ & Hok & Hapart & _) r. apply slice_append_frame; auto.
Qed.

(** The pools after [AddResources]: the list of resources holds what it
    held, followed by the new ones; the pools are as they were. *)
Lemma AddResources_pools (rs : list ResourcePtr) (w : World) :
  let w' := ProxyManagerImpl_AddResources rs w in
  resource_list w' = (resource_list w ++ rs)%list /\
  ProxyManagerImpl_GetProxies (proxyArrays w') (pm w')
  = ProxyManagerImpl_GetProxies (proxyArrays w) (pm w) /\
  (forall r : nat,
      ResourceConfig_GetProxies (proxyArrays w') (rheap w' r)
      = ResourceConfig_GetProxies (proxyArrays w) (rheap w r)).
Proof.
  cbn zeta.
  destruct (AddResources_fields rs w)
    as (Hmem & Hs & _ & Hrh & Hpa & Hps & _).
  unfold ProxyManagerImpl_GetProxies, resource_list,
    ResourceConfig_GetProxies.
  rewrite Hmem, Hs, Hrh, Hpa, Hps.
  split; [apply slice_append_elems |]. split; reflexivity.
Qed.

(** The pools after [AddProxies] on the resource [r]: its pool holds the
    proxies it held, followed by the new ones; when the pools do not share
    memory the global pool and the pools of the other resources hold what
    they held. *)
Lemma ResourceAddProxies_pools (r : nat) (ps : list ProxyPtr) (w : World) :
  let w' := ResourceConfig_AddProxies_at r ps w in
  ResourceConfig_GetProxies (proxyArrays w') (rheap w' r)
  = (ResourceConfig_GetProxies (proxyArrays w) (rheap w r) ++ ps)%list /\
  resource_list w' = resource_list w /\
  (pools_separate w ->
   ProxyManagerImpl_GetProxies (proxyArrays w') (pm w')
   = ProxyManagerImpl_GetProxies (proxyArrays w) (pm w) /\
   forall j : nat,
     j <> r ->
     ResourceConfig_GetProxies (proxyArrays w') (rheap w' j)
     = ResourceConfig_GetProxies (proxyArrays w) (rheap w j)).
Proof.
  cbn zeta.
  destruct (ResourceAddProxies_fields r ps w)
    as (Hmem & Hs & Hother & _ & _ & Hra & Hpm & _).
  unfold ProxyManagerImpl_GetProxies, resource_list,
    ResourceConfig_GetProxies.
  rewrite Hmem, Hs, Hra, Hpm.
  split; [apply slice_append_elems |]. split; [reflexivity |].
  intros (Hokg & Hok & Hapart & Hrr). split.
  - apply slice_append_frame; [| exact Hokg].
    apply slices_apart_sym, Hapart.
  - intros j Hj. rewrite (Hother j Hj).
    apply slice_append_frame; [| apply Hok]. apply Hrr. congruence.
Qed.

Lemma AddProxies_separate (ps : list ProxyPtr) (w : World) :
  pools_separate w -> pools_separate (ProxyManagerImpl_AddProxies ps w).
Proof.
  intros (Hokg & Hok & Hapart & Hrr).
  destruct (AddProxies_fields ps w) as (Hmem & Hs & _ & Hrh & _).
  unfold pools_separate. rewrite Hmem, Hs, Hrh.
  split; [now apply slice_append_ok |].
  split; [intros r; now apply slice_append_ok_other |].
  split; [intros r; now apply slice_append_apart | exact Hrr].
Qed.

Lemma AddResources_separate (rs : list ResourcePtr) (w : World) :
  pools_separate w -> pools_separate (ProxyManagerImpl_AddResources rs w).
Proof.
  destruct (AddResources_fields rs w) as (_ & _ & _ & Hrh & Hpa & Hps & _).
  unfold pools_separate. now rewrite Hrh, Hpa, Hps.
Qed.

Lemma ResourceAddProxies_separate (r : nat) (ps : list ProxyPtr)
      (w : World) :
  pools_separate w -> pools_separate (ResourceConfig_AddProxies_at r ps w).
Proof.
  intros (Hokg & Hok & Hapart & Hrr).
  destruct (ResourceAddProxies_fields r ps w)
    as (Hmem & Hs & Hother & _ & _ & _ & Hpm & _).
  assert (Hslice : forall j : nat,
             rc_proxies (rheap (ResourceConfig_AddProxies_at r ps w) j)
             = if Nat.eqb j r
               then snd (slice_append (proxyArrays w)
                                      (rc_proxies (rheap w r)) ps)
               else rc_proxies (rheap w j)).
  { intros j. destruct (Nat.eqb_spec j r) as [-> | Hj];
      [exact Hs | now rewrite (Hother j Hj)]. }
  unfold pools_separate. rewrite Hmem, Hpm.
  split; [now apply slice_append_ok_other |].
  split; [| split].
  - intros j. rewrite Hslice. destruct (Nat.eqb_spec j r) as [-> | Hj];
      [now apply slice_append_ok | now apply slice_append_ok_other].
  - intros j. rewrite Hslice. destruct (Nat.eqb_spec j r) as [-> | Hj];
      [| apply Hapart].
    apply slices_apart_sym, slice_append_apart; [| exact Hokg].
    apply slices_apart_sym, Hapart.
  - intros j j' Hjj. rewrite !Hslice.
    destruct (Nat.eqb_spec j r) as [-> | Hj];
      destruct (Nat.eqb_spec j' r) as [-> | Hj'].
    + congruence.
    + apply slice_append_apart; [now apply Hrr | apply Hok].
    + apply slices_apart_sym, slice_append_apart; [| apply Hok].
      apply Hrr. congruence.
    + now apply Hrr.
Qed.

End Adding.

(** ** ProxyManagerImpl: invariants of the reachable states *)

Lemma apply_options_lastUsed (opts : list ProxyManagerImplOption)
      (m0 m : ProxyManagerImpl) :
  apply_ProxyManagerImplOptions opts m0 = Ok m -> lastUsed m = lastUsed m0.
Proof.
  revert m0. induction opts as [| opt opts IH]; intros m0 H;
    cbn [apply_ProxyManagerImplOptions] in H.
  - injection H as <-. reflexivity.
  - destruct (apply_ProxyManagerImplOption m0 opt) as [m1 |] eqn:E;
      [| discriminate].
    rewrite (IH m1 H).
    destruct opt as [ps | rs | strategy | [factory |]]; cbn in E;
      try discriminate; injection E as <-; reflexivity.
Qed.

Lemma NewProxyManager_lastUsed (opts : list ProxyManagerImplOption)
      (m : ProxyManagerImpl) :
  NewProxyManager opts = Ok m -> lastUsed m = None.
Proof.
  unfold NewProxyManager.
  destruct (apply_ProxyManagerImplOptions opts _) as [m1 |] eqn:E;
    [| discriminate].
  apply apply_options_lastUsed in E.
  destruct (rotationStrategy m1); [| discriminate].
  destruct (selectStrategy m1); [| discriminate].
  intros H. injection H as <-. exact E.
Qed.

Lemma install_current_world (last : ProxyPtr) (c : nat) (w1 : World) :
  let w' := snd (install_current last (Some c) w1) in
  lastUsed (pm w') = Some c /\
  pool_ptrs w' = pool_ptrs w1 /\
  (forall i : nat,
      isActive (heap w' i) = true
      <-> i = c \/ (Some i <> last /\ isActive (heap w1 i) = true)).
Proof.
  cbn. split; [reflexivity |]. split; [reflexivity |].
  intros i. unfold heap_set.
  destruct (Nat.eqb_spec i c) as [-> | Hic].
  - cbn. split; [now left | reflexivity].
  - destruct last as [l |].
    + destruct (Nat.eqb_spec i l) as [-> | Hil]; cbn.
      * split; [discriminate | intros [H | [H _]]; congruence].
      * split; [intros H; right; split; [congruence | exact H]
               | intros [H | [_ H]]; [congruence | exact H]].
    + split; [intros H; right; split; [discriminate | exact H]
             | intros [H | [_ H]]; [congruence | exact H]].
Qed.

Lemma install_current_slices (last : ProxyPtr) (c : nat) (w1 : World) :
  let w' := snd (install_current last (Some c) w1) in
  proxies (pm w') = proxies (pm w1) /\
  resources (pm w') = resources (pm w1) /\
  rheap w' = rheap w1 /\
  proxyArrays w' = proxyArrays w1 /\
  resourceArrays w' = resourceArrays w1.
Proof. cbn. repeat split. Qed.

Lemma same_but_select_state_separate (w w' : World) :
  same_but_select_state w w' -> pools_separate w -> pools_separate w'.
Proof.
  intros (_ & _ & Hp & _ & _ & Hrc & Hpa & _) (Hokg & Hok & Hapart & Hrr).
  unfold pools_separate. rewrite Hp, Hpa.
  split; [exact Hokg |].
  split; [intros r; rewrite (proj1 (Hrc r)); apply Hok |].
  split; [intros r; rewrite (proj1 (Hrc r)); apply Hapart |].
  intros r r' Hne. rewrite (proj1 (Hrc r)), (proj1 (Hrc r')).
  now apply Hrr.
Qed.

Lemma guard_grows (s s' r r' : Slice) :
  (sl_len s <= sl_len s')%nat -> (sl_len r <= sl_len r')%nat ->
  (slice_len s =? 0) && (slice_len r =? 0) = false ->
  (slice_len s' =? 0) && (slice_len r' =? 0) = false.
Proof.
  unfold slice_len. rewrite !andb_false_iff, !Z.eqb_neq. lia.
Qed.

Section Invariants.

Context {lib : GoLib}.

Lemma GetNextProxy_last_in_pools (d : string) (w w' : World)
      (r : Selected) :
  ProxyManagerImpl_GetNextProxy d w = (Ok r, w') ->
  last_in_pools w -> last_in_pools w'.
Proof.
  destruct r as [po e]. intros H Hinv.
  destruct (GetNextProxy_returns _ _ _ _ _ H)
    as [(_ & _ & ->) | [(l & rot & _ & _ & _ & _ & _ & ->)
                       | [(_ & _ & Hsame)
                         | (c & w1 & _ & _ & Hc & Hsame & ->)]]];
    try exact Hinv.
  - intros l Hl. rewrite (same_but_select_state_pools _ _ Hsame).
    apply Hinv. destruct Hsame as (_ & <- & _). exact Hl.
  - destruct (install_current_world (lastUsed (pm w)) c w1)
      as (Hlast & Hpools & _).
    intros l Hl. rewrite Hlast in Hl. injection Hl as <-.
    rewrite Hpools, (same_but_select_state_pools _ _ Hsame). exact Hc.
Qed.

Lemma GetNextProxy_separate (d : string) (w w' : World) (r : Selected) :
  ProxyManagerImpl_GetNextProxy d w = (Ok r, w') ->
  pools_separate w -> pools_separate w'.
Proof.
  destruct r as [po e]. intros H Hinv.
  destruct (GetNextProxy_returns _ _ _ _ _ H)
    as [(_ & _ & ->) | [(l & rot & _ & _ & _ & _ & _ & ->)
                       | [(_ & _ & Hsame)
                         | (c & w1 & _ & _ & Hc & Hsame & ->)]]];
    try exact Hinv.
  - eapply same_but_select_state_separate; eassumption.
  - apply (same_but_select_state_separate _ _ Hsame) in Hinv.
    destruct (install_current_slices (lastUsed (pm w)) c w1)
      as (Hp & _ & Hrh & Hpa & _).
    unfold pools_separate. rewrite Hp, Hrh, Hpa. exact Hinv.
Qed.

Lemma GetNextProxy_last_needs_pool (d : string) (w w' : World)
      (r : Selected) :
  ProxyManagerImpl_GetNextProxy d w = (Ok r, w') ->
  last_needs_pool w -> last_needs_pool w'.
Proof.
  destruct r as [po e]. intros H Hinv.
  destruct (GetNextProxy_returns _ _ _ _ _ H)
    as [(_ & _ & ->) | [(l & rot & _ & _ & _ & _ & _ & ->)
                       | [(_ & _ & Hsame)
                         | (c & w1 & _ & _ & Hc & Hsame & ->)]]];
    try exact Hinv.
  - destruct Hsame as (_ & Hl & Hp & Hr & _).
    unfold last_needs_pool. rewrite Hl, Hp, Hr. exact Hinv.
  - destruct (install_current_slices (lastUsed (pm w)) c w1)
      as (Hp & Hr & _).
    destruct Hsame as (_ & _ & Hp1 & Hr1 & _).
    unfold last_needs_pool. rewrite Hp, Hr, Hp1, Hr1. intros _.
    eapply pool_ptrs_nonempty. exact Hc.
Qed.

Lemma GetNextProxy_active_is_last (d : string) (w w' : World)
      (r : Selected) :
  ProxyManagerImpl_GetNextProxy d w = (Ok r, w') ->
  active_is_last w -> active_is_last w'.
Proof.
  destruct r as [po e]. intros H Hinv.
  destruct (GetNextProxy_returns _ _ _ _ _ H)
    as [(_ & _ & ->) | [(l & rot & _ & _ & _ & _ & _ & ->)
                       | [(_ & _ & Hsame)
                         | (c & w1 & _ & _ & Hc & Hsame & ->)]]];
    try exact Hinv.
  - destruct Hsame as (Hh & Hl & _). intros i. rewrite Hh, Hl. apply Hinv.
  - destruct (install_current_world (lastUsed (pm w)) c w1)
      as (Hlast & _ & Hact).
    destruct Hsame as (Hh & Hl & _).
    intros i. rewrite Hlast, Hact, Hh. rewrite (Hinv i). split.
    + intros [-> | [Hne Heq]]; [reflexivity | congruence].
    + intros Heq. injection Heq as ->. now left.
Qed.

(** A proxy of a pool stays in the pools through [AddProxies] on a
    resource, when the pools do not share memory. *)
Lemma ResourceAddProxies_keeps (r : nat) (ps : list ProxyPtr) (w : World)
      (p : ProxyPtr) :
  pools_separate w ->
  In p (pool_ptrs w) ->
  In p (pool_ptrs (ResourceConfig_AddProxies_at r ps w)).
Proof.
  intros Hsep Hin.
  destruct (ResourceAddProxies_pools r ps w) as (Hr & Hrs & Hrest).
  destruct (Hrest Hsep) as (Hg & Hother).
  unfold pool_ptrs in *. rewrite Hg, Hrs.
  apply in_app_or in Hin. apply in_or_app.
  destruct Hin as [Hin | Hin]; [now left | right].
  rewrite in_flat_map in *. destruct Hin as (x & Hx & Hp).
  exists x. split; [exact Hx |].
  destruct x as [j |]; cbn [resource_pool] in *; [| exact Hp].
  destruct (Nat.eq_dec j r) as [-> | Hj].
  - rewrite Hr. apply in_or_app. now left.
  - now rewrite (Hother j Hj).
Qed.

Lemma exec_separate_last_in_pools (c : Call) (w w' : World) :
  exec c w = Ok w' ->
  pools_separate w /\ last_in_pools w ->
  pools_separate w' /\ last_in_pools w'.
Proof.
  destruct c as [d | ps | rs | d ps | r ps | p | p | p report];
    cbn [exec]; intros H [Hsep Hinv].
  - destruct (ProxyManagerImpl_GetNextProxy d w) as [[r |] w1] eqn:Hget;
      [| discriminate].
    injection H as <-.
    split; [eapply GetNextProxy_separate; eassumption
           | eapply GetNextProxy_last_in_pools; eassumption].
  - injection H as <-. split; [now apply AddProxies_separate |].
    destruct (AddProxies_fields ps w) as (_ & _ & _ & _ & _ & _ & Hl & _).
    destruct (AddProxies_pools ps w) as (Hg & Hrs & Hrest).
    pose proof (Hrest Hsep) as Hres.
    intros l Hl'. rewrite Hl in Hl'. specialize (Hinv l Hl').
    unfold pool_ptrs in *. rewrite Hg, Hrs.
    apply in_app_or in Hinv. apply in_or_app.
    destruct Hinv as [Hin | Hin];
      [left; apply in_or_app; now left | right].
    rewrite in_flat_map in *. destruct Hin as (x & Hx & Hp).
    exists x. split; [exact Hx |].
    destruct x as [j |]; cbn [resource_pool] in *; [| exact Hp].
    now rewrite Hres.
  - injection H as <-. split; [now apply AddResources_separate |].
    destruct (AddResources_fields rs w)
      as (_ & _ & _ & _ & _ & _ & Hl & _).
    destruct (AddResources_pools rs w) as (Hrs & Hg & Hres).
    intros l Hl'. rewrite Hl in Hl'. specialize (Hinv l Hl').
    unfold pool_ptrs in *. rewrite Hg, Hrs.
    apply in_app_or in Hinv. apply in_or_app.
    destruct Hinv as [Hin | Hin]; [now left | right].
    rewrite flat_map_app. apply in_or_app. left.
    rewrite in_flat_map in *. destruct Hin as (x & Hx & Hp).
    exists x. split; [exact Hx |].
    destruct x as [j |]; cbn [resource_pool] in *; [| exact Hp].
    now rewrite Hres.
  - unfold ProxyManagerImpl_AddResourceProxies in H.
    destruct (getResourceByDomain w d) as [[[r |] [err |]] |];
      try discriminate; injection H as <-; try (split; assumption).
    split; [now apply ResourceAddProxies_separate |].
    destruct (ResourceAddProxies_fields r ps w)
      as (_ & _ & _ & _ & _ & _ & Hpm & _).
    intros l Hl. rewrite Hpm in Hl. specialize (Hinv l Hl).
    now apply ResourceAddProxies_keeps.
  - injection H as <-.
    split; [now apply ResourceAddProxies_separate |].
    destruct (ResourceAddProxies_fields r ps w)
      as (_ & _ & _ & _ & _ & _ & Hpm & _).
    intros l Hl. rewrite Hpm in Hl. specialize (Hinv l Hl).
    now apply ResourceAddProxies_keeps.
  - injection H as <-. split; assumption.
  - injection H as <-. split; assumption.
  - injection H as <-. split; assumption.
Qed.

Lemma exec_last_needs_pool (c : Call) (w w' : World) :
  exec c w = Ok w' -> last_needs_pool w -> last_needs_pool w'.
Proof.
  destruct c as [d | ps | rs | d ps | r ps | p | p | p report];
    cbn [exec]; intros H Hinv.
  - destruct (ProxyManagerImpl_GetNextProxy d w) as [[r |] w1] eqn:Hget;
      [| discriminate].
    injection H as <-. eapply GetNextProxy_last_needs_pool; eassumption.
  - injection H as <-.
    destruct (AddProxies_fields ps w)
      as (_ & Hs & _ & _ & _ & Hrs & Hl & _).
    unfold last_needs_pool. rewrite Hs, Hrs, Hl. intros Hlast.
    apply (guard_grows (proxies (pm w)) _ (resources (pm w)) _);
      [rewrite slice_append_len; lia | lia | now apply Hinv].
  - injection H as <-.
    destruct (AddResources_fields rs w)
      as (_ & Hs & _ & _ & _ & Hps & Hl & _).
    unfold last_needs_pool. rewrite Hs, Hps, Hl. intros Hlast.
    apply (guard_grows (proxies (pm w)) _ (resources (pm w)) _);
      [lia | rewrite slice_append_len; lia | now apply Hinv].
  - unfold ProxyManagerImpl_AddResourceProxies in H.
    destruct (getResourceByDomain w d) as [[[r |] [err |]] |];
      try discriminate; injection H as <-; try exact Hinv.
    destruct (ResourceAddProxies_fields r ps w)
      as (_ & _ & _ & _ & _ & _ & Hpm & _).
    unfold last_needs_pool. rewrite Hpm. exact Hinv.
  - injection H as <-.
    destruct (ResourceAddProxies_fields r ps w)
      as (_ & _ & _ & _ & _ & _ & Hpm & _).
    unfold last_needs_pool. rewrite Hpm. exact Hinv.
  - injection H as <-. exact Hinv.
  - injection H as <-. exact Hinv.
  - injection H as <-. exact Hinv.
Qed.

Lemma exec_active_is_last (c : Call) (w w' : World) :
  exec c w = Ok w' -> active_is_last w -> active_is_last w'.
Proof.
  destruct c as [d | ps | rs | d ps | r ps | p | p | p report];
    cbn [exec]; intros H Hinv.
  - destruct (ProxyManagerImpl_GetNextProxy d w) as [[r |] w1] eqn:Hget;
      [| discriminate].
    injection H as <-. eapply GetNextProxy_active_is_last; eassumption.
  - injection H as <-.
    destruct (AddProxies_fields ps w)
      as (_ & _ & Hh & _ & _ & _ & Hl & _).
    unfold active_is_last. rewrite Hh, Hl. exact Hinv.
  - injection H as <-.
    destruct (AddResources_fields rs w)
      as (_ & _ & Hh & _ & _ & _ & Hl & _).
    unfold active_is_last. rewrite Hh, Hl. exact Hinv.
  - unfold ProxyManagerImpl_AddResourceProxies in H.
    destruct (getResourceByDomain w d) as [[[r |] [err |]] |];
      try discriminate; injection H as <-; try exact Hinv.
    destruct (ResourceAddProxies_fields r ps w)
      as (_ & _ & _ & _ & Hh & _ & Hpm & _).
    unfold active_is_last. rewrite Hh, Hpm. exact Hinv.
  - injection H as <-.
    destruct (ResourceAddProxies_fields r ps w)
      as (_ & _ & _ & _ & Hh & _ & Hpm & _).
    unfold active_is_last. rewrite Hh, Hpm. exact Hinv.
  - injection H as <-. intros i. specialize (Hinv i).
    cbn [with_heap heap pm]. unfold heap_set.
    destruct (Nat.eqb_spec i p) as [-> |]; exact Hinv.
  - injection H as <-. intros i. specialize (Hinv i).
    cbn [with_heap heap pm]. unfold heap_set.
    destruct (Nat.eqb_spec i p) as [-> |]; exact Hinv.
  - injection H as <-. intros i. specialize (Hinv i).
    cbn [with_heap heap pm]. unfold heap_set.
    destruct (Nat.eqb_spec i p) as [-> |]; exact Hinv.
Qed.

Lemma run_invariants (cs : list Call) (w w' : World) :
  run cs w = Ok w' ->
  (pools_separate w /\ last_in_pools w ->
   pools_separate w' /\ last_in_pools w') /\
  (active_is_last w -> active_is_last w').
Proof.
  revert w. induction cs as [| c cs IH]; intros w H; cbn [run] in H.
  - injection H as <-. split; trivial.
  - destruct (exec c w) as [w1 |] eqn:Hexec; [| discriminate].
    destruct (IH w1 H) as [IH1 IH2]. split; intros Hinv.
    + apply IH1. eapply exec_separate_last_in_pools; eassumption.
    + apply IH2. eapply exec_active_is_last; eassumption.
Qed.

Lemma run_last_needs_pool (cs : list Call) (w w' : World) :
  run cs w = Ok w' -> last_needs_pool w -> last_needs_pool w'.
Proof.
  revert w. induction cs as [| c cs IH]; intros w H Hinv; cbn [run] in H.
  - injection H as <-. exact Hinv.
  - destruct (exec c w) as [w1 |] eqn:Hexec; [| discriminate].
    apply (IH w1 H). eapply exec_last_needs_pool; eassumption.
Qed.

End Invariants.

(** ** ProxyManagerImpl: the decision *)

Section Decision.

Context {lib : GoLib}.

(** The states that a manager made by [NewProxyManager] reaches satisfy
    [last_needs_pool]. *)
Lemma reachable_last_needs_pool (opts : list ProxyManagerImplOption)
      (w0 : World) (cs : list Call) (w : World) :
  NewProxyManager opts = Ok (pm w0) ->
  run cs w0 = Ok w ->
  last_needs_pool w.
Proof.
  intros Hnew Hrun. apply (run_last_needs_pool cs w0 w Hrun).
  intros Hl. rewrite (NewProxyManager_lastUsed opts _ Hnew) in Hl.
  congruence.
Qed.

(** C2.  For a manager with a non-nil [lastUsed]: if the rotation strategy
    that applies to the domain (the matched resource's, else the manager's)
    answers false for [lastUsed], then [GetNextProxy(domain)] returns
    [lastUsed] and a nil error and leaves the whole state as it was: no
    [Select] was called (the ghost counter [selectCalls], the cursors and the
    draws are the same), [lastUsed] is the same pointer, and every [Proxy]
    has the flags and the statistics it had.  The manager is one that
    [NewProxyManager] made, after any sequence of calls. *)
Theorem GetNextProxy_reuses_lastUsed (opts : list ProxyManagerImplOption)
        (w0 : World) (cs : list Call) (w : World) (d : string) (l : nat)
        (rot : RotationStrategy) :
  NewProxyManager opts = Ok (pm w0) ->
  run cs w0 = Ok w ->
  ProxyManagerImpl_LastUsed (pm w) = Some l ->
  applicable_rotation w d = Ok (Some rot) ->
  ShouldRotate rot (heap w l) = false ->
  ProxyManagerImpl_GetNextProxy d w = (Ok (Some l, None), w).
Proof.
  intros Hnew Hrun Hlast Happ Hrot.
  pose proof (reachable_last_needs_pool opts w0 cs w Hnew Hrun) as Hguard.
  unfold ProxyManagerImpl_LastUsed in Hlast.
  unfold ProxyManagerImpl_GetNextProxy, ProxyManagerImpl_LastUsed.
  rewrite Hguard by congruence.
  unfold applicable_rotation in Happ. unfold getResourceByDomain in *.
  destruct (getResourceByDomain_loop (rheap w) (resource_list w) d)
    as [[res err] |] eqn:Hres; [| discriminate].
  destruct (getResourceByDomain_loop_returns _ _ _ _ _ Hres)
    as [[-> ->] | (r & -> & -> & _)]; injection Happ as Happ.
  - cbn [errors_Is errors_Is_nonnil error_eqb orb andb negb].
    unfold decide_global, keeps_lastUsed. rewrite Hlast, Happ, Hrot.
    reflexivity.
  - cbn [errors_Is andb].
    unfold decide_resource, keeps_lastUsed. rewrite Hlast, Happ, Hrot.
    reflexivity.
Qed.

(** C1, as amended.  Take a manager that [NewProxyManager] made, with no
    [Proxy] object active at first, and any sequence of calls of
    [GetNextProxy], [AddProxies], [AddResources], [AddResourceProxies],
    [Disable], [Enable] and [Update] that returned.  After a next call of
    [GetNextProxy] that returns a proxy and a nil error, the returned proxy
    is active, it is what [LastUsed()] returns, and no other [Proxy] object
    is active, in the pools or outside.  When the global pool and the pools
    of the resources were given slices that share no memory, the returned
    proxy is one of the global pool or of the pool of a resource: then
    exactly one proxy among the pools is active.  The select strategies are
    the ones of the module, which return a proxy of their owner's pool. *)
Theorem GetNextProxy_exactly_one_active (opts : list ProxyManagerImplOption)
        (w0 : World) (cs : list Call) (w : World) (d : string) (p : nat)
        (w' : World) :
  NewProxyManager opts = Ok (pm w0) ->
  (forall i : nat, isActive (heap w0 i) = false) ->
  run cs w0 = Ok w ->
  ProxyManagerImpl_GetNextProxy d w = (Ok (Some p, None), w') ->
  (pools_separate w0 -> In (Some p) (pool_ptrs w')) /\
  Proxy_IsActive (heap w' p) = true /\
  (forall q : nat,
      In (Some q) (pool_ptrs w') -> Proxy_IsActive (heap w' q) = true ->
      q = p) /\
  (forall q : nat, Proxy_IsActive (heap w' q) = true -> q = p) /\
  ProxyManagerImpl_LastUsed (pm w') = Some p.
Proof.
  intros Hnew Hflags Hrun Hget.
  pose proof (NewProxyManager_lastUsed opts _ Hnew) as Hnil.
  destruct (run_invariants cs w0 w Hrun) as [Hpools Hactive].
  assert (Ha : active_is_last w).
  { apply Hactive. intros i. rewrite Hflags, Hnil.
    split; discriminate. }
  pose proof (GetNextProxy_active_is_last d w w' _ Hget Ha) as Ha'.
  assert (Hlast : lastUsed (pm w') = Some p).
  { destruct (GetNextProxy_returns _ _ _ _ _ Hget)
      as [(Hpo & _) | [(l & rot & Hl & _ & _ & Hpo & _ & ->)
                      | [(Hpo & _) | (c & w1 & Hpo & _ & _ & _ & ->)]]];
      try discriminate.
    - congruence.
    - injection Hpo as ->.
      apply (install_current_world (lastUsed (pm w)) c w1). }
  unfold Proxy_IsActive, ProxyManagerImpl_LastUsed.
  split; [| split; [now apply Ha' |]].
  - intros Hsep.
    assert (Hp : last_in_pools w).
    { apply Hpools. split; [exact Hsep |]. intros l Hl. congruence. }
    now apply (GetNextProxy_last_in_pools d w w' _ Hget Hp).
  - split; [| split; [| exact Hlast]].
    + intros q _ Hq. apply Ha' in Hq. congruence.
    + intros q Hq. apply Ha' in Hq. congruence.
Qed.

End Decision.

(** The options [sample_opts] make the manager [sample_pm]. *)
Lemma NewProxyManager_sample : NewProxyManager sample_opts = Ok sample_pm.
Proof. reflexivity. Qed.

(** C2 at the sample manager after a first decision: the proxy 0 it chose has
    no error and is enabled, and the next call for ["x.com"] returns it. *)
Lemma GetNextProxy_reuses_lastUsed_witness :
  ProxyManagerImpl_GetNextProxy (lib := sample_lib) "x.com"
                                (after sample_calls_1 sample_world)
  = (Ok (Some 0%nat, None), after sample_calls_1 sample_world).
Proof.
  apply (@GetNextProxy_reuses_lastUsed sample_lib sample_opts sample_world
           sample_calls_1 (after sample_calls_1 sample_world) "x.com" 0%nat
           DefaultRotationStrategy);
    reflexivity.
Defined.

(** The pools of the sample manager share no memory. *)
Lemma sample_world_separate : pools_separate sample_world.
Proof.
  unfold pools_separate, slice_ok, slices_apart, sample_world, sample_rheap.
  cbn [pm rheap proxyArrays proxies sample_pm].
  split; [cbn; lia |].
  split; [intros r; destruct (r =? 0)%nat; cbn; lia |].
  split; [intros r; destruct (r =? 0)%nat; cbn; lia |].
  intros r r' Hne.
  destruct (Nat.eqb_spec r 0) as [-> |], (Nat.eqb_spec r' 0) as [-> |];
    cbn; lia.
Qed.

(** C1 at the sample manager, whose pools share no memory, after the calls
    [sample_calls_2]: the decision for ["b.com"] leaves the failed proxy 0
    and picks the proxy 4. *)
Lemma GetNextProxy_exactly_one_active_witness :
  let w' := snd (ProxyManagerImpl_GetNextProxy
                   (lib := sample_lib) "b.com"
                   (after sample_calls_2 sample_world)) in
  pools_separate sample_world /\
  In (Some 4%nat) (pool_ptrs w') /\
  Proxy_IsActive (heap w' 4%nat) = true /\
  (forall q : nat,
      In (Some q) (pool_ptrs w') -> Proxy_IsActive (heap w' q) = true ->
      q = 4%nat) /\
  (forall q : nat, Proxy_IsActive (heap w' q) = true -> q = 4%nat) /\
  ProxyManagerImpl_LastUsed (pm w') = Some 4%nat.
Proof.
  cbn zeta.
  destruct (@GetNextProxy_exactly_one_active
              sample_lib sample_opts sample_world sample_calls_2
              (after sample_calls_2 sample_world) "b.com" 4%nat
              (snd (ProxyManagerImpl_GetNextProxy
                      (lib := sample_lib) "b.com"
                      (after sample_calls_2 sample_world)))
              eq_refl (fun _ => eq_refl) eq_refl eq_refl)
    as (Hin & Hrest).
  split; [exact sample_world_separate |].
  split; [exact (Hin sample_world_separate) | exact Hrest].
Defined.

(** C1 as the spec has it fails when two pools share memory.  The caller
    cuts the global pool and the pool of the resource for ["a.com"] from one
    array: [all[:2]] and [all[2:]].  A decision for ["a.com"] picks the
    proxy 2 of the resource.  [AddProxies] then appends in place and writes
    the proxy 3 over the proxy 2.  The next decision for ["a.com"] returns
    the proxy 2, which is active and in no pool: no proxy of a pool is
    active. *)
Theorem GetNextProxy_active_outside_pools :
  let w := after aliased_calls aliased_world in
  let w' := snd (ProxyManagerImpl_GetNextProxy (lib := sample_lib)
                                               "a.com" w) in
  NewProxyManager aliased_opts = Ok (pm aliased_world) /\
  (forall i : nat, isActive (heap aliased_world i) = false) /\
  pool_ptrs aliased_world = [Some 0; Some 1; Some 2]%nat /\
  run aliased_calls aliased_world = Ok w /\
  ProxyManagerImpl_GetNextProxy (lib := sample_lib) "a.com" w
  = (Ok (Some 2%nat, None), w') /\
  ProxyManagerImpl_LastUsed (pm w') = Some 2%nat /\
  Proxy_IsActive (heap w' 2%nat) = true /\
  pool_ptrs w' = [Some 0; Some 1; Some 3; Some 3]%nat /\
  ~ In (Some 2%nat) (pool_ptrs w') /\
  (forall q : nat,
      In (Some q) (pool_ptrs w') -> Proxy_IsActive (heap w' q) = false).
Proof.
  cbn zeta.
  assert (Hpools :
            pool_ptrs (snd (ProxyManagerImpl_GetNextProxy
                              (lib := sample_lib) "a.com"
                              (after aliased_calls aliased_world)))
            = [Some 0; Some 1; Some 3; Some 3]%nat) by reflexivity.
  repeat split; try reflexivity.
  - rewrite Hpools. cbn. intros [H | [H | [H | [H | []]]]]; discriminate.
  - intros q. rewrite Hpools. cbn.
    intros [H | [H | [H | [H | []]]]]; injection H as <-; reflexivity.
Qed.

(** C10 at a manager without proxies of its own: the selection in the global
    scope fails. *)
Lemma GetNextProxy_error_keeps_state_witness :
  let w' := snd (ProxyManagerImpl_GetNextProxy (lib := sample_lib) "x.com"
                                               poolless_world) in
  ProxyManagerImpl_LastUsed (pm w') = ProxyManagerImpl_LastUsed
                                        (pm poolless_world) /\
  (forall i : nat, heap w' i = heap poolless_world i).
Proof.
  cbn zeta.
  pose proof (@GetNextProxy_error_keeps_state sample_lib "x.com" poolless_world
                None (proxyNotAvailable emptyProxiesError)
                (snd (ProxyManagerImpl_GetNextProxy (lib := sample_lib)
                        "x.com" poolless_world)) eq_refl)
    as (_ & _ & Hlast & Hheap & _).
  split; [exact Hlast | exact Hheap].
Defined.

(** The three errors of [GetNextProxy]: the empty pool, the failed selection,
    and the nil proxy selected without an error.  In the last case the cursor
    of the [RoundRobinSelect] has moved from -1 to 0. *)
Lemma GetNextProxy_errors_examples :
  fst (ProxyManagerImpl_GetNextProxy (lib := sample_lib) "x.com" empty_world)
  = Ok (None, Some (proxyNotAvailable ErrEmptyProxyList)) /\
  fst (ProxyManagerImpl_GetNextProxy (lib := sample_lib) "x.com"
                                     poolless_world)
  = Ok (None, Some (proxyNotAvailable emptyProxiesError)) /\
  fst (ProxyManagerImpl_GetNextProxy (lib := sample_lib) "x.com"
                                     nil_entry_world)
  = Ok (None, Some ErrProxyNotAvailable) /\
  selectStrategy (pm nil_entry_world)
  = Some (RoundRobinSelect OwnerProvider (-1)) /\
  selectStrategy
    (pm (snd (ProxyManagerImpl_GetNextProxy (lib := sample_lib) "x.com"
                                            nil_entry_world)))
  = Some (RoundRobinSelect OwnerProvider 0).
Proof. repeat split. Qed.

(** The scenario of a manager with the default policy: the first decision
    picks a proxy of the global pool and marks it active; once a failure is
    reported on it, the next decision for the same domain leaves it for
    another proxy of the pool and clears its flag; a domain under ["a.com"]
    is served from the pool of the resource. *)
Lemma GetNextProxy_scenario :
  let w1 := after sample_calls_1 sample_world in
  let w2 := after [CallUpdate 0 report_failed] w1 in
  let r3 := ProxyManagerImpl_GetNextProxy (lib := sample_lib) "x.com" w2 in
  ProxyManagerImpl_LastUsed (pm w1) = Some 0%nat /\
  Proxy_IsActive (heap w1 0%nat) = true /\
  fst r3 = Ok (Some 2%nat, None) /\
  Proxy_IsActive (heap (snd r3) 0%nat) = false /\
  Proxy_IsActive (heap (snd r3) 2%nat) = true /\
  fst (ProxyManagerImpl_GetNextProxy (lib := sample_lib) "api.a.com" w2)
  = Ok (Some 3%nat, None).
Proof. repeat split. Qed.

(** * Further properties of the code *)

(** ** Filters and filtered providers *)

Lemma nil_free_cons (p : ProxyPtr) (l : list ProxyPtr) :
  nil_free (p :: l) <-> p <> None /\ nil_free l.
Proof.
  unfold nil_free. cbn. split.
  - intros H. split; [intros -> | intros Hin]; apply H; auto.
  - intros [Hp Hl] [Heq | Hin]; [now apply Hp | now apply Hl].
Qed.

Lemma nil_free_dec (l : list ProxyPtr) : In None l \/ nil_free l.
Proof.
  induction l as [| [i |] l IH].
  - right. intros [].
  - destruct IH as [Hin | Hnf]; [left; now right |].
    right. apply nil_free_cons. split; [discriminate | exact Hnf].
  - left. now left.
Qed.

Lemma nil_free_filter (f : ProxyPtr -> bool) (l : list ProxyPtr) :
  nil_free l -> nil_free (filter f l).
Proof. unfold nil_free. intros H Hin. apply filter_In in Hin. tauto. Qed.

Lemma filter_filter {A : Type} (f g : A -> bool) (l : list A) :
  filter g (filter f l) = filter (fun x => f x && g x) l.
Proof.
  induction l as [| a l IH]; [reflexivity |]. cbn.
  destruct (f a); cbn; [destruct (g a) |]; now rewrite IH.
Qed.

Lemma Filter_panics_on_nil (f : SelectFilter) (h : ProxyHeap)
      (l : list ProxyPtr) :
  In None l -> Filter f h l = Panicked.
Proof.
  induction l as [| [i |] l IH]; intros Hin.
  - destruct Hin.
  - destruct Hin as [Heq | Hin]; [discriminate |].
    specialize (IH Hin). destruct f; cbn in *; now rewrite IH.
  - destruct f; reflexivity.
Qed.

Lemma has_nil_true (l : list ProxyPtr) : has_nil l = true <-> In None l.
Proof.
  unfold has_nil. rewrite existsb_exists. split.
  - intros ([i |] & Hin & Hx); [discriminate | exact Hin].
  - intros Hin. exists None. now split.
Qed.

Lemma has_nil_false (l : list ProxyPtr) : has_nil l = false <-> nil_free l.
Proof.
  unfold nil_free. rewrite <- has_nil_true.
  destruct (has_nil l); split; congruence.
Qed.

Lemma filter_Ok_spec (f : SelectFilter) (h : ProxyHeap)
      (l : list ProxyPtr) :
  nil_free l -> Filter f h l = Ok (filter (passes f h) l).
Proof.
  induction l as [| [i |] l IH]; intros Hnf.
  - destruct f; reflexivity.
  - apply nil_free_cons in Hnf. destruct Hnf as [_ Hnf].
    specialize (IH Hnf).
    destruct f; cbn in *; rewrite IH;
      [destruct (negb (Proxy_IsActive (h i)))
      | destruct (negb (Proxy_IsDisabled (h i)))]; reflexivity.
  - exfalso. apply Hnf. now left.
Qed.

(** [RemoveActiveProxyFilter.Filter] and [RemoveDisabledFilter.Filter] panic
    when the slice holds a nil pointer, and otherwise return the proxies of
    the slice that are not active (not disabled), in the order of the
    slice. *)
Theorem Filter_keeps_passing (f : SelectFilter) (h : ProxyHeap)
        (l : list ProxyPtr) :
  Filter f h l
  = if has_nil l then Panicked else Ok (filter (passes f h) l).
Proof.
  destruct (has_nil l) eqn:Hn.
  - apply Filter_panics_on_nil. now apply has_nil_true.
  - apply filter_Ok_spec. now apply has_nil_false.
Qed.

Lemma passes_all_cons (f : SelectFilter) (fs : list SelectFilter)
      (h : ProxyHeap) (p : ProxyPtr) :
  passes_all (f :: fs) h p = passes f h p && passes_all fs h p.
Proof. reflexivity. Qed.

Lemma passes_all_app (fs1 fs2 : list SelectFilter) (h : ProxyHeap)
      (p : ProxyPtr) :
  passes_all (fs1 ++ fs2) h p = passes_all fs1 h p && passes_all fs2 h p.
Proof. unfold passes_all. apply forallb_app. Qed.

Lemma filter_all {A : Type} (l : list A) : filter (fun _ => true) l = l.
Proof. induction l as [| a l IH]; cbn; [reflexivity | now rewrite IH]. Qed.

Lemma has_nil_filter_passes (f : SelectFilter) (h : ProxyHeap)
      (l : list ProxyPtr) :
  has_nil (filter (passes f h) l) = false.
Proof.
  apply has_nil_false. intros Hin. apply filter_In in Hin.
  destruct Hin as [_ Hp]. discriminate.
Qed.

Lemma filters_loop_spec (h : ProxyHeap) (fs : list SelectFilter)
      (l : list ProxyPtr) :
  filters_loop h fs l
  = if has_nil l && negb (no_filters fs) then Panicked
    else Ok (filter (passes_all fs h) l).
Proof.
  revert l. induction fs as [| f fs IH]; intros l.
  - cbn [filters_loop no_filters negb]. rewrite andb_false_r.
    unfold passes_all. cbn [forallb]. now rewrite filter_all.
  - cbn [filters_loop no_filters negb]. rewrite andb_true_r.
    destruct (has_nil l) eqn:Hn;
      [now rewrite Filter_panics_on_nil by now apply has_nil_true |].
    rewrite filter_Ok_spec by now apply has_nil_false.
    assert (Hsplit : filter (passes_all (f :: fs) h) l
                     = filter (passes_all fs h) (filter (passes f h) l)).
    { rewrite filter_filter. apply filter_ext. intros p.
      apply passes_all_cons. }
    rewrite Hsplit.
    destruct (len (filter (passes f h) l) =? 0) eqn:Hz.
    + apply len_zero_iff in Hz. now rewrite Hz.
    + rewrite IH, has_nil_filter_passes. reflexivity.
Qed.

Lemma Provider_GetProxies_spec (p : Provider) (h : ProxyHeap)
      (pool : list ProxyPtr) :
  Provider_GetProxies p h pool
  = if has_nil pool && negb (no_filters (provider_filters p)) then Panicked
    else Ok (filter (passes_all (provider_filters p) h) pool).
Proof.
  induction p as [| src IH fs].
  - cbn. rewrite andb_false_r. now rewrite filter_all.
  - cbn [Provider_GetProxies provider_filters]. rewrite IH.
    destruct (provider_filters src) as [| f0 fs0] eqn:Hsrc.
    + cbn [no_filters negb app]. rewrite andb_false_r.
      unfold passes_all at 1. cbn [forallb]. rewrite filter_all.
      apply filters_loop_spec.
    + cbn [no_filters negb app]. rewrite !andb_true_r.
      destruct (has_nil pool) eqn:Hn; [reflexivity |].
      rewrite filters_loop_spec.
      assert (Hnf : has_nil (filter (passes_all (f0 :: fs0) h) pool) = false).
      { apply has_nil_false, nil_free_filter. now apply has_nil_false. }
      rewrite Hnf. cbn [andb]. f_equal.
      rewrite filter_filter. apply filter_ext. intros x.
      change (f0 :: fs0 ++ fs)%list with ((f0 :: fs0) ++ fs)%list.
      now rewrite passes_all_app.
Qed.

(** [FilteredSelectProvider.GetProxies] returns the proxies of the owner's
    pool that pass every filter of the provider, in the order of the pool:
    the early return on an empty intermediate result does not show.  It
    panics exactly when there is a filter and the pool holds a nil
    pointer. *)
Theorem Provider_GetProxies_filters (p : Provider) (h : ProxyHeap)
        (pool : list ProxyPtr) :
  (Provider_GetProxies p h pool = Panicked
   <-> In None pool /\ provider_filters p <> []) /\
  (forall l : list ProxyPtr,
      Provider_GetProxies p h pool = Ok l ->
      l = filter (passes_all (provider_filters p) h) pool) /\
  (has_nil pool = false ->
   Provider_GetProxies p h pool
   = Ok (filter (passes_all (provider_filters p) h) pool)).
Proof.
  rewrite Provider_GetProxies_spec.
  destruct (has_nil pool) eqn:Hn.
  - apply has_nil_true in Hn.
    destruct (provider_filters p) as [| f fs]; cbn [no_filters negb andb].
    + split; [split; [discriminate | intros [_ H]; congruence] |].
      split; [intros l H; now injection H as <- | discriminate].
    + split; [split; [intros _; split; [exact Hn | discriminate]
                     | reflexivity] |].
      split; [discriminate | discriminate].
  - cbn [andb]. apply has_nil_false in Hn.
    split; [split; [discriminate | intros [Hin _]; now destruct Hn] |].
    split; [intros l H; now injection H as <- | reflexivity].
Qed.

(** The order of the filters and their repetition do not matter: two
    filtered providers over the same source provider, be it the owner or a
    filtered provider itself, whose lists hold the same filters return the
    same proxies, or panic both. *)
Theorem FilteredSelectProvider_order_irrelevant (sourceProvider : Provider)
        (fs fs' : list SelectFilter) (h : ProxyHeap)
        (pool : list ProxyPtr) :
  (forall f : SelectFilter, In f fs <-> In f fs') ->
  Provider_GetProxies (NewFilteredSelectProvider sourceProvider fs) h pool
  = Provider_GetProxies (NewFilteredSelectProvider sourceProvider fs') h pool.
Proof.
  intros Hsame. unfold NewFilteredSelectProvider.
  cbn [Provider_GetProxies].
  destruct (Provider_GetProxies sourceProvider h pool) as [l |];
    [| reflexivity].
  rewrite !filters_loop_spec.
  assert (Hno : no_filters fs = no_filters fs').
  { destruct fs as [| a fs], fs' as [| b fs']; try reflexivity.
    - destruct (proj2 (Hsame b)). now left.
    - destruct (proj1 (Hsame a)). now left. }
  rewrite Hno. destruct (has_nil l && negb (no_filters fs'));
    [reflexivity |].
  f_equal. apply filter_ext. intros x. unfold passes_all.
  apply eq_true_iff_eq. rewrite !forallb_forall. split; intros H f Hf;
    apply H, Hsame, Hf.
Qed.

(** ** Select strategies over filtered providers *)

Section SelectFiltered.

Context {lib : GoLib}.

(** [Select] on a provider whose list is [l]. *)
Lemma Select_on_list (s : SelectStrategy) (h : ProxyHeap)
      (pool : list ProxyPtr) (draws : nat) (l : list ProxyPtr) :
  Provider_GetProxies (strategy_provider s) h pool = Ok l ->
  len l <= max_int -> cursor_ok s -> rand_in_range lib ->
  match l with
  | [] => fst (fst (Select s h pool draws))
          = Ok (None, Some emptyProxiesError)
  | _ :: _ => exists p : ProxyPtr,
      fst (fst (Select s h pool draws)) = Ok (p, None) /\ In p l
  end.
Proof.
  intros Hget Hlen Hc Hrand.
  destruct l as [| a l'].
  - destruct s as [provider | provider index0];
      cbn [strategy_provider] in Hget; cbn [Select];
      unfold RandomSelect_Select, RoundRobinSelect_Select;
      rewrite Hget; reflexivity.
  - assert (Hz : (len (a :: l') =? 0) = false).
    { apply Z.eqb_neq. unfold len. cbn [List.length]. lia. }
    set (l := a :: l') in *. clearbody l.
    assert (Hpos : 0 < len l).
    { pose proof (len_nonneg l). apply Z.eqb_neq in Hz. lia. }
    destruct s as [provider | provider index0];
      cbn [strategy_provider] in Hget; cbn [Select].
    + pose proof (Hrand draws (len l) Hpos) as Hr.
      exists (nth (Z.to_nat (rand_IntN draws (len l))) l None).
      unfold RandomSelect_Select. rewrite Hget, Hz.
      rewrite (slice_at_in_range l _ None Hr). cbn [fst].
      split; [reflexivity |].
      apply nth_In, Nat2Z.inj_lt. rewrite Z2Nat.id by lia. apply Hr.
    + destruct (next_cursor_range index0 (len l) Hc Hpos) as [Heq Hr].
      exists (nth (Z.to_nat ((index0 + 1) mod len l)) l None).
      unfold RoundRobinSelect_Select. rewrite Hget, Hz, Heq.
      rewrite (slice_at_in_range l _ None Hr). cbn [fst].
      split; [reflexivity |].
      apply nth_In, Nat2Z.inj_lt. rewrite Z2Nat.id by lia. apply Hr.
Qed.

Lemma len_filter_le {A : Type} (f : A -> bool) (l : list A) :
  len (filter f l) <= len l.
Proof.
  unfold len. apply inj_le. induction l as [| a l IH]; cbn; [lia |].
  destruct (f a); cbn; lia.
Qed.

Lemma Select_selected_passes (s : SelectStrategy) (h : ProxyHeap)
      (pool : list ProxyPtr) (draws : nat) (c : nat) :
  fst (fst (Select s h pool draws)) = Ok (Some c, None) ->
  In (Some c) pool /\
  passes_all (provider_filters (strategy_provider s)) h (Some c) = true.
Proof.
  intros Hsel.
  assert (Hin : exists l : list ProxyPtr,
             Provider_GetProxies (strategy_provider s) h pool = Ok l /\
             In (Some c) l).
  { destruct s as [provider | provider index0];
      cbn [Select strategy_provider] in *;
      unfold RandomSelect_Select, RoundRobinSelect_Select in Hsel;
      destruct (Provider_GetProxies provider h pool) as [l |];
      try (cbn in Hsel; discriminate);
      exists l; (split; [reflexivity |]);
      destruct (len l =? 0); try (cbn in Hsel; discriminate);
      destruct (slice_at l _) as [a |] eqn:Hat;
      try (cbn in Hsel; discriminate);
      cbn in Hsel; injection Hsel as ->;
      eapply slice_at_In; exact Hat. }
  destruct Hin as (l & Hget & Hin).
  rewrite Provider_GetProxies_spec in Hget.
  destruct (has_nil pool && _); [discriminate |]. injection Hget as <-.
  apply filter_In in Hin. exact Hin.
Qed.

(** A proxy that [Select] returns is in the owner's pool and passes every
    filter of the strategy's provider: with a [RemoveActiveProxyFilter] it is
    not active, with a [RemoveDisabledFilter] it is not disabled; the
    default select strategy returns neither the active proxy nor a disabled
    one. *)
Theorem Select_passes_filters (s : SelectStrategy) (h : ProxyHeap)
        (pool : list ProxyPtr) (draws : nat) (c : nat) :
  fst (fst (Select s h pool draws)) = Ok (Some c, None) ->
  In (Some c) pool /\
  (In RemoveActiveProxyFilter (provider_filters (strategy_provider s)) ->
   Proxy_IsActive (h c) = false) /\
  (In RemoveDisabledFilter (provider_filters (strategy_provider s)) ->
   Proxy_IsDisabled (h c) = false) /\
  (s = apply_factory DefaultSelectStrategy OwnerProvider ->
   Proxy_IsActive (h c) = false /\ Proxy_IsDisabled (h c) = false).
Proof.
  intros Hsel.
  destruct (Select_selected_passes s h pool draws c Hsel) as [Hpool Hpass].
  unfold passes_all in Hpass. rewrite forallb_forall in Hpass.
  split; [exact Hpool |].
  assert (Ha : In RemoveActiveProxyFilter
                  (provider_filters (strategy_provider s)) ->
               Proxy_IsActive (h c) = false).
  { intros Hf. specialize (Hpass _ Hf). cbn in Hpass.
    now apply negb_true_iff. }
  assert (Hd : In RemoveDisabledFilter
                  (provider_filters (strategy_provider s)) ->
               Proxy_IsDisabled (h c) = false).
  { intros Hf. specialize (Hpass _ Hf). cbn in Hpass.
    now apply negb_true_iff. }
  split; [exact Ha | split; [exact Hd |]].
  intros ->. split; [apply Ha | apply Hd]; cbn; auto.
Qed.

Lemma Select_filtered_outcome (s : SelectStrategy) (h : ProxyHeap)
      (pool : list ProxyPtr) (draws : nat) :
  has_nil pool = false ->
  len pool <= max_int -> cursor_ok s -> rand_in_range lib ->
  if existsb (passes_all (provider_filters (strategy_provider s)) h) pool
  then exists c : nat,
      fst (fst (Select s h pool draws)) = Ok (Some c, None) /\
      In (Some c) pool
  else fst (fst (Select s h pool draws)) = Ok (None, Some emptyProxiesError).
Proof.
  intros Hnil Hlen Hc Hrand.
  set (fs := provider_filters (strategy_provider s)).
  assert (Hget : Provider_GetProxies (strategy_provider s) h pool
                 = Ok (filter (passes_all fs h) pool)).
  { rewrite Provider_GetProxies_spec, Hnil. reflexivity. }
  assert (Hl : len (filter (passes_all fs h) pool) <= max_int).
  { pose proof (len_filter_le (passes_all fs h) pool). lia. }
  pose proof (Select_on_list s h pool draws _ Hget Hl Hc Hrand) as Hsel.
  destruct (existsb (passes_all fs h) pool) eqn:Hex.
  - apply existsb_exists in Hex. destruct Hex as (x & Hx & Hpass).
    assert (Hxin : In x (filter (passes_all fs h) pool))
      by (apply filter_In; now split).
    destruct (filter (passes_all fs h) pool) as [| a l'] eqn:Hf;
      [destruct Hxin |].
    destruct Hsel as (p & Hsel & Hp).
    rewrite <- Hf in Hp. apply filter_In in Hp. destruct Hp as [Hpool Hpp].
    destruct p as [c |].
    + exists c. now split.
    + exfalso. apply has_nil_false in Hnil. now apply Hnil.
  - destruct (filter (passes_all fs h) pool) as [| a l'] eqn:Hf;
      [exact Hsel |].
    exfalso.
    assert (Ha : In a (filter (passes_all fs h) pool))
      by (rewrite Hf; now left).
    apply filter_In in Ha. destruct Ha as [Hin Hpa].
    assert (Htrue : existsb (passes_all fs h) pool = true)
      by (apply existsb_exists; exists a; now split).
    congruence.
Qed.

(** [Select] on a pool without nil pointers returns a proxy exactly when a
    proxy of the pool passes every filter of the provider, and the
    failed-select error exactly when none does.  The pool is a slice, and the
    cursor and the random source are within their ranges. *)
Theorem Select_succeeds_iff_some_passes (s : SelectStrategy) (h : ProxyHeap)
        (pool : list ProxyPtr) (draws : nat) :
  has_nil pool = false ->
  len pool <= max_int -> cursor_ok s -> rand_in_range lib ->
  ((exists c : nat, fst (fst (Select s h pool draws)) = Ok (Some c, None))
   <-> exists x : ProxyPtr,
       In x pool /\
       passes_all (provider_filters (strategy_provider s)) h x = true) /\
  (fst (fst (Select s h pool draws)) = Ok (None, Some emptyProxiesError)
   <-> forall x : ProxyPtr,
       In x pool ->
       passes_all (provider_filters (strategy_provider s)) h x = false).
Proof.
  intros Hnil Hlen Hc Hrand.
  pose proof (Select_filtered_outcome s h pool draws Hnil Hlen Hc Hrand)
    as Hout.
  destruct (existsb (passes_all (provider_filters (strategy_provider s)) h)
                    pool) eqn:Hex.
  - destruct Hout as (c & Hsel & Hin).
    apply existsb_exists in Hex. split; split.
    + intros _. exact Hex.
    + intros _. exists c. exact Hsel.
    + rewrite Hsel. discriminate.
    + intros Hall. destruct Hex as (x & Hx & Hp).
      rewrite (Hall x Hx) in Hp. discriminate.
  - split; split.
    + intros (c & Hsel). rewrite Hsel in Hout. discriminate.
    + intros Hx. apply existsb_exists in Hx. congruence.
    + intros _ x Hx.
      destruct (passes_all (provider_filters (strategy_provider s)) h x)
        eqn:Hp; [| reflexivity].
      assert (Htrue : existsb
                        (passes_all (provider_filters (strategy_provider s))
                                    h) pool = true)
        by (apply existsb_exists; exists x; now split).
      congruence.
    + intros _. exact Hout.
Qed.

End SelectFiltered.

(** ** Rotation strategies and the counters they read *)

(** [CompositeRotation.ShouldRotate] over any number of sub-strategies: with
    OR logic it is true when some sub-strategy is, with AND logic when all
    are, and false without sub-strategies or with another value of the
    logic. *)
Theorem CompositeRotation_any_all (strategies : list RotationStrategy)
        (logic : CompositeRotationLogicType) (p : Proxy) :
  ShouldRotate (NewCompositeRotationStrategy logic strategies) p
  = match strategies with
    | [] => false
    | _ :: _ =>
        if logic =? RotationLogicOR
        then existsb (fun s => ShouldRotate s p) strategies
        else if logic =? RotationLogicAND
             then forallb (fun s => ShouldRotate s p) strategies
             else false
    end.
Proof.
  unfold NewCompositeRotationStrategy.
  assert (Hstep : forall (s0 s1 : RotationStrategy)
                         (l : list RotationStrategy),
             ShouldRotate (CompositeRotation (s0 :: s1 :: l) logic) p
             = if (logic =? RotationLogicOR) && ShouldRotate s0 p then true
               else if (logic =? RotationLogicAND) && negb (ShouldRotate s0 p)
                    then false
                    else ShouldRotate (CompositeRotation (s1 :: l) logic) p)
    by reflexivity.
  destruct strategies as [| s0 l0]; [reflexivity |].
  assert (Hone : forall s0 : RotationStrategy,
             ShouldRotate (CompositeRotation [s0] logic) p
             = if (logic =? RotationLogicOR) && ShouldRotate s0 p then true
               else if (logic =? RotationLogicAND) && negb (ShouldRotate s0 p)
                    then false
                    else logic =? RotationLogicAND)
    by reflexivity.
  revert s0.
  destruct (Z.eqb_spec logic RotationLogicOR) as [-> | Hor];
    [| destruct (Z.eqb_spec logic RotationLogicAND) as [-> | Hand]].
  - (* OR *)
    induction l0 as [| s1 l IH]; intros s0.
    + rewrite Hone. cbn. destruct (ShouldRotate s0 p); reflexivity.
    + rewrite Hstep, IH. cbn.
      destruct (ShouldRotate s0 p); reflexivity.
  - (* AND *)
    induction l0 as [| s1 l IH]; intros s0.
    + rewrite Hone. cbn. destruct (ShouldRotate s0 p); reflexivity.
    + rewrite Hstep, IH. cbn.
      destruct (ShouldRotate s0 p); reflexivity.
  - (* neither *)
    apply Z.eqb_neq in Hor, Hand.
    induction l0 as [| s1 l IH]; intros s0.
    + rewrite Hone, ?Hor, ?Hand. reflexivity.
    + rewrite Hstep, IH, ?Hor, ?Hand. reflexivity.
Qed.

Section Counters.

Context {lib : GoLib}.

Lemma Proxy_run_app (rs1 rs2 : list Report) (p : Proxy) :
  Proxy_run (rs1 ++ rs2) p = Proxy_run rs2 (Proxy_run rs1 p).
Proof. unfold Proxy_run. apply fold_left_app. Qed.

(** [Proxy.Update] touches the statistics only. *)
Lemma Proxy_run_fields (rs : list Report) (p : Proxy) :
  url (Proxy_run rs p) = url p /\
  isActive (Proxy_run rs p) = isActive p /\
  isDisabled (Proxy_run rs p) = isDisabled p /\
  stats (Proxy_run rs p) = ProxyStats_run rs (stats p).
Proof.
  revert p. induction rs as [| r rs IH]; intros p; [repeat split |].
  cbn [Proxy_run ProxyStats_run fold_left].
  destruct (IH (Proxy_Update (rep_now r) (rep_response r) (rep_err r) p))
    as (Hu & Ha & Hd & Hs).
  unfold Proxy_run, ProxyStats_run in *. rewrite Hu, Ha, Hd, Hs.
  repeat split.
Qed.

Lemma len_app_one {A : Type} (l : list A) (a : A) :
  len (l ++ [a]) = len l + 1.
Proof. unfold len. rewrite length_app. cbn [List.length]. lia. Qed.

Lemma run_counts (rs : list Report) :
  len rs < uint_modulus ->
  let s := ProxyStats_run rs ProxyStats_zero in
  totalRequests s = len rs /\
  successCount s = len (filter report_success rs) /\
  errorCount s = len (filter (fun r => negb (report_success r)) rs) /\
  stats_lastUsed s = last (map rep_now rs) 0.
Proof.
  cbn zeta.
  induction rs as [| r rs IH] using rev_ind; intros Hlen.
  - repeat split.
  - rewrite len_app_one in Hlen.
    destruct IH as (Ht & Hs & He & _); [lia |].
    rewrite ProxyStats_run_app, !filter_app, map_app. cbn [map].
    rewrite last_last.
    set (s := ProxyStats_run rs ProxyStats_zero) in *.
    pose proof (len_nonneg rs) as H0.
    pose proof (len_filter_le report_success rs) as Hs1.
    pose proof (len_filter_le (fun r => negb (report_success r)) rs) as He1.
    pose proof (len_nonneg (filter report_success rs)) as Hs0.
    pose proof (len_nonneg (filter (fun r => negb (report_success r)) rs))
      as He0.
    cbn [ProxyStats_run fold_left filter map].
    unfold ProxyStats_report, ProxyStats_Update.
    pose proof (eq_refl (report_success r)) as Hrs.
    unfold report_success at 2 in Hrs.
    destruct (rep_response r), (rep_err r); rewrite Hrs;
      cbn [totalRequests successCount errorCount stats_lastUsed negb];
      rewrite ?len_app_one, ?app_nil_r;
      unfold uint_incr; rewrite !uint_wrap_small by lia;
      repeat split; lia.
Qed.

(** For a proxy made by [NewProxy] and fewer than [2^64] reports: the total
    is the number of reports, the success count the number of reports with a
    response and no error, the error count the number of the others, and
    [LastUsed()] the time of the last report; the flags and the URL are as
    [NewProxy] set them. *)
Theorem ProxyStats_counts_reports (u : option string) (rs : list Report) :
  len rs < uint_modulus ->
  let p := Proxy_run rs (NewProxy u) in
  let s := Proxy_Stats p in
  ProxyStats_TotalRequests s = len rs /\
  ProxyStats_SuccessCount s = len (filter report_success rs) /\
  ProxyStats_ErrorCount s
  = len (filter (fun r => negb (report_success r)) rs) /\
  ProxyStats_LastUsed s = last (map rep_now rs) 0 /\
  url p = u /\ Proxy_IsActive p = false /\ Proxy_IsDisabled p = false.
Proof.
  intros Hlen. cbn zeta. unfold Proxy_Stats, Proxy_IsActive, Proxy_IsDisabled.
  destruct (Proxy_run_fields rs (NewProxy u)) as (-> & -> & -> & ->).
  cbn [NewProxy stats].
  destruct (run_counts rs Hlen) as (Ht & Hs & He & Hl).
  repeat split; assumption.
Qed.

(** The rotation strategies on a proxy made by [NewProxy] after fewer than
    [2^64] reports: [ErrorThresholdRotation] rotates when the number of
    failed reports has reached the threshold, [RequestLimitedRotation] when
    the number of reports has reached the limit, the default strategy as
    soon as one report has failed, [OnlyEnabledRotation] not at all. *)
Theorem rotation_after_reports (u : option string) (rs : list Report)
        (threshold limit : Z) :
  len rs < uint_modulus ->
  let p := Proxy_run rs (NewProxy u) in
  ShouldRotate (NewErrorThresholdRotation threshold) p
  = (len (filter (fun r => negb (report_success r)) rs) >=? threshold) /\
  ShouldRotate (NewRequestLimitedRotation limit) p = (len rs >=? limit) /\
  ShouldRotate DefaultRotationStrategy p
  = existsb (fun r => negb (report_success r)) rs /\
  ShouldRotate OnlyEnabledRotation p = false.
Proof.
  intros Hlen. cbn zeta.
  destruct (run_counts rs Hlen) as (Ht & _ & He & _).
  destruct (Proxy_run_fields rs (NewProxy u)) as (_ & _ & Hd & Hst).
  cbn [NewCompositeRotationStrategy NewErrorThresholdRotation
       NewRequestLimitedRotation DefaultRotationStrategy ShouldRotate].
  unfold Proxy_IsDisabled, Proxy_Stats, ProxyStats_ErrorCount,
    ProxyStats_TotalRequests.
  rewrite Hd, Hst. cbn [NewProxy isDisabled stats]. rewrite Ht, He.
  repeat split.
  cbn. destruct (existsb _ rs) eqn:Hex.
  - apply existsb_exists in Hex. destruct Hex as (r & Hin & Hr).
    assert (Hf : In r (filter (fun r => negb (report_success r)) rs))
      by (apply filter_In; now split).
    destruct (filter (fun r => negb (report_success r)) rs) as [| a l];
      [destruct Hf |].
    unfold len. cbn [List.length].
    destruct (Z.geb_spec (Z.of_nat (S (List.length l))) 1); [reflexivity | lia].
  - assert (Hnil : filter (fun r => negb (report_success r)) rs = []).
    { destruct (filter (fun r => negb (report_success r)) rs) as [| a l] eqn:Hf;
        [reflexivity | exfalso].
      assert (Ha : In a (filter (fun r => negb (report_success r)) rs))
        by (rewrite Hf; now left).
      apply filter_In in Ha.
      assert (existsb (fun r => negb (report_success r)) rs = true)
        by (apply existsb_exists; exists a; exact Ha).
      congruence. }
    rewrite Hnil. reflexivity.
Qed.

End Counters.

(** ** ResourceConfig: construction and matching *)

Lemma TrimLeft_begins (s cutset : string) :
  begins_in cutset (strings_TrimLeft s cutset) = false.
Proof.
  induction s as [| c s IH]; [reflexivity |]. cbn [strings_TrimLeft].
  destruct (in_cutset c cutset) eqn:Hc; [exact IH |].
  unfold begins_in. cbn. exact Hc.
Qed.

Lemma TrimRight_ends (s cutset : string) :
  ends_in cutset (strings_TrimRight s cutset) = false.
Proof.
  induction s as [| c s IH]; [reflexivity |]. cbn [strings_TrimRight].
  destruct (strings_TrimRight s cutset) as [| c' kept] eqn:Hk.
  - destruct (in_cutset c cutset) eqn:Hc; [reflexivity |].
    unfold ends_in. cbn. exact Hc.
  - unfold ends_in in *. cbn [last_byte] in *. exact IH.
Qed.

Lemma TrimRight_begins (s cutset : string) :
  begins_in cutset s = false ->
  begins_in cutset (strings_TrimRight s cutset) = false.
Proof.
  destruct s as [| c s]; [reflexivity |]. cbn [strings_TrimRight].
  unfold begins_in. cbn [first_byte]. intros Hc.
  destruct (strings_TrimRight s cutset); [rewrite Hc |]; cbn; exact Hc.
Qed.

(** [trimDomain] returns a string that neither begins nor ends with a slash
    or a space. *)
Theorem trimDomain_trimmed (d : string) :
  begins_in "/ " (trimDomain d) = false /\
  ends_in "/ " (trimDomain d) = false.
Proof.
  unfold trimDomain, strings_Trim. split.
  - apply TrimRight_begins, TrimLeft_begins.
  - apply TrimRight_ends.
Qed.

Section ResourceMore.

Context {lib : GoLib}.

(** [CompareDomain] is true exactly when the normalized candidate is the
    resource's domain or, subdomains not being excluded, ends with a dot
    followed by the resource's domain. *)
Theorem CompareDomain_exact_or_suffix (rc : ResourceConfig) (d : string) :
  CompareDomain rc d = true
  <-> normalizeDomain d = ResourceConfig_Domain rc \/
      (notIgnoreSubdomains rc = false /\
       exists pre : string,
         normalizeDomain d
         = (pre ++ "." ++ ResourceConfig_Domain rc)%string).
Proof.
  unfold CompareDomain. rewrite <- strings_HasSuffix_spec.
  destruct (String.eqb_spec (normalizeDomain d) (ResourceConfig_Domain rc))
    as [He | Hne].
  - split; [now left | reflexivity].
  - destruct (notIgnoreSubdomains rc); cbn [negb andb].
    + split; [discriminate | intros [H | [H _]]; congruence].
    + destruct (strings_HasSuffix (normalizeDomain d)
                                  ("." ++ ResourceConfig_Domain rc)).
      * split; [now right | reflexivity].
      * split; [discriminate | intros [H | [_ H]]; congruence].
Qed.

Lemma apply_options_domain (opts : list ResourceConfigOption)
      (rc0 rc : ResourceConfig) :
  apply_ResourceConfigOptions opts rc0 = Ok rc ->
  domain rc
  = fold_left (fun d opt => match opt with WithDomain d' => d' | _ => d end)
              opts (domain rc0).
Proof.
  revert rc0. induction opts as [| opt opts IH]; intros rc0 H;
    cbn [apply_ResourceConfigOptions] in H.
  - injection H as <-. reflexivity.
  - destruct (apply_ResourceConfigOption rc0 opt) as [rc1 |] eqn:E;
      [| discriminate].
    cbn [fold_left]. rewrite (IH rc1 H).
    destruct opt as [ps | [factory |] | strategy | d | ignore]; cbn in E;
      try discriminate; injection E as <-; reflexivity.
Qed.

(** A resource that [NewResourceConfig] makes with normalization matches the
    domain string it was given, whatever that string is; its domain is the
    normalized string.  Without normalization its domain is the string as
    given. *)
Theorem NewResourceConfig_matches_given_domain (normalize : bool)
        (opts : list ResourceConfigOption) (rc : ResourceConfig) :
  NewResourceConfig normalize opts = Ok rc ->
  ResourceConfig_Domain rc
  = (if normalize then normalizeDomain (given_domain opts)
     else given_domain opts) /\
  (normalize = true -> CompareDomain rc (given_domain opts) = true).
Proof.
  unfold NewResourceConfig, given_domain, ResourceConfig_Domain.
  destruct (apply_ResourceConfigOptions opts _) as [rc1 |] eqn:E;
    [| discriminate].
  apply apply_options_domain in E. cbn [domain] in E.
  destruct (rc_rotationStrategy rc1); [| discriminate].
  destruct (rc_selectStrategy rc1); [| discriminate].
  destruct normalize; intros H; injection H as <-; cbn [domain].
  - rewrite E. split; [reflexivity |]. intros _.
    unfold CompareDomain, ResourceConfig_Domain. cbn [domain].
    now rewrite String.eqb_refl.
  - split; [exact E | discriminate].
Qed.

End ResourceMore.

(** What the options of a manager leave in the strategy fields. *)
Lemma apply_manager_options_spec (opts : list ProxyManagerImplOption)
      (m0 : ProxyManagerImpl) :
  match apply_ProxyManagerImplOptions opts m0 with
  | Panicked => existsb nil_factory_given opts = true
  | Ok m =>
      existsb nil_factory_given opts = false /\
      rotationStrategy m
      = fold_left (fun r opt =>
                     match opt with
                     | WithRotationStrategy r' => r'
                     | _ => r
                     end)
                  opts (rotationStrategy m0) /\
      (selectStrategy m = None
       <-> selectStrategy m0 = None /\
           existsb has_select_option opts = false)
  end.
Proof.
  revert m0. induction opts as [| opt opts IH]; intros m0.
  - cbn. tauto.
  - cbn [apply_ProxyManagerImplOptions existsb fold_left].
    destruct opt as [ps | rs | strategy | [factory |]];
      cbn [apply_ProxyManagerImplOption nil_factory_given
           has_select_option orb];
      try reflexivity;
      match goal with
      | |- context [apply_ProxyManagerImplOptions opts ?m1] =>
          specialize (IH m1);
          destruct (apply_ProxyManagerImplOptions opts m1) as [m |];
          [| exact IH]
      end;
      destruct IH as (Hnil & Hrot & Hsel);
      cbn [rotationStrategy selectStrategy] in *;
      (split; [exact Hnil | split; [exact Hrot |]]);
      rewrite Hsel; split; intros [H1 H2];
        try discriminate; split; assumption.
Qed.

(** What the options of a resource leave in the strategy fields. *)
Lemma apply_resource_options_spec (opts : list ResourceConfigOption)
      (rc0 : ResourceConfig) :
  match apply_ResourceConfigOptions opts rc0 with
  | Panicked => existsb nil_rc_factory_given opts = true
  | Ok rc =>
      existsb nil_rc_factory_given opts = false /\
      rc_rotationStrategy rc
      = fold_left (fun r opt =>
                     match opt with
                     | WithResourceRotationStrategy r' => r'
                     | _ => r
                     end)
                  opts (rc_rotationStrategy rc0) /\
      (rc_selectStrategy rc = None
       <-> rc_selectStrategy rc0 = None /\
           existsb has_rc_select_option opts = false)
  end.
Proof.
  revert rc0. induction opts as [| opt opts IH]; intros rc0.
  - cbn. tauto.
  - cbn [apply_ResourceConfigOptions existsb fold_left].
    destruct opt as [ps | [factory |] | strategy | d | ignore];
      cbn [apply_ResourceConfigOption nil_rc_factory_given
           has_rc_select_option orb];
      try reflexivity;
      match goal with
      | |- context [apply_ResourceConfigOptions opts ?rc1] =>
          specialize (IH rc1);
          destruct (apply_ResourceConfigOptions opts rc1) as [rc |];
          [| exact IH]
      end;
      destruct IH as (Hnil & Hrot & Hsel);
      cbn [rc_rotationStrategy rc_selectStrategy] in *;
      (split; [exact Hnil | split; [exact Hrot |]]);
      rewrite Hsel; split; intros [H1 H2];
        try discriminate; split; assumption.
Qed.

(** [NewProxyManager] and [NewResourceConfig] panic exactly when an option
    calls a nil factory, when the last rotation-strategy option carries a
    nil strategy or there is none, or when there is no select-strategy
    option; whatever else the options hold.  A manager that is returned has
    the rotation strategy of its last [WithRotationStrategy] and a nil
    [lastUsed]. *)
Theorem constructors_panic_iff_strategy_missing
        (opts : list ProxyManagerImplOption)
        (normalize : bool) (ropts : list ResourceConfigOption)
        (lib : GoLib) :
  (NewProxyManager opts = Panicked
   <-> existsb nil_factory_given opts = true \/
       given_rotation opts = None \/
       existsb has_select_option opts = false) /\
  (forall m : ProxyManagerImpl,
      NewProxyManager opts = Ok m ->
      ProxyManagerImpl_LastUsed m = None /\
      rotationStrategy m = given_rotation opts) /\
  (NewResourceConfig normalize ropts = Panicked
   <-> existsb nil_rc_factory_given ropts = true \/
       given_rc_rotation ropts = None \/
       existsb has_rc_select_option ropts = false).
Proof.
  split; [| split].
  - unfold NewProxyManager, given_rotation.
    pose proof (apply_manager_options_spec opts
                  (mkProxyManagerImpl empty_slice empty_slice
                                      None None None)) as Hspec.
    destruct (apply_ProxyManagerImplOptions opts _) as [m |].
    + destruct Hspec as (Hnil & Hrot & Hsel).
      cbn [rotationStrategy selectStrategy] in *. rewrite <- Hrot.
      destruct (rotationStrategy m) as [r |], (selectStrategy m) as [s |];
        split; intros H; try reflexivity; try discriminate.
      * destruct H as [H | [H | H]]; [congruence | discriminate |].
        destruct Hsel as [_ Hsel].
        specialize (Hsel (conj eq_refl H)). discriminate.
      * right. right. now apply Hsel.
      * right. now left.
      * right. now left.
    + split; [intros _; now left | reflexivity].
  - intros m H. split.
    + unfold ProxyManagerImpl_LastUsed.
      eapply NewProxyManager_lastUsed. exact H.
    + unfold NewProxyManager, given_rotation in *.
      pose proof (apply_manager_options_spec opts
                    (mkProxyManagerImpl empty_slice empty_slice
                                        None None None)) as Hspec.
      destruct (apply_ProxyManagerImplOptions opts _) as [m1 |];
        [| discriminate].
      destruct Hspec as (_ & Hrot & _).
      destruct (rotationStrategy m1) eqn:Er; [| discriminate].
      destruct (selectStrategy m1); [| discriminate].
      injection H as <-. rewrite Er. exact Hrot.
  - unfold NewResourceConfig, given_rc_rotation.
    pose proof (apply_resource_options_spec ropts
                  (mkResourceConfig empty_slice EmptyString false
                                    None None)) as Hspec.
    destruct (apply_ResourceConfigOptions ropts _) as [rc |].
    + destruct Hspec as (Hnil & Hrot & Hsel).
      cbn [rc_rotationStrategy rc_selectStrategy] in *. rewrite <- Hrot.
      destruct (rc_rotationStrategy rc) as [r |],
        (rc_selectStrategy rc) as [s |];
        split; intros H; try reflexivity; try discriminate;
        try (destruct normalize; discriminate).
      * destruct H as [H | [H | H]]; [congruence | discriminate |].
        destruct Hsel as [_ Hsel].
        specialize (Hsel (conj eq_refl H)). discriminate.
      * right. right. now apply Hsel.
      * right. now left.
      * right. now left.
    + split; [intros _; now left | reflexivity].
Qed.

(** ** ProxyManagerImpl: the two scopes *)

Section Scopes.

Context {lib : GoLib}.

Lemma decide_global_selects (w : World) (r : Selected) (w' : World) :
  decide_global (lastUsed (pm w)) w = (Ok r, w') ->
  (exists (l : nat) (rot : RotationStrategy),
      lastUsed (pm w) = Some l /\ rotationStrategy (pm w) = Some rot /\
      ShouldRotate rot (heap w l) = false /\
      r = (Some l, None) /\ w' = w) \/
  (keeps_lastUsed (rotationStrategy (pm w)) (heap w) (lastUsed (pm w))
   = Ok false /\
   exists (s : SelectStrategy) (sr : Selected),
     selectStrategy (pm w) = Some s /\
     fst (fst (Select s (heap w)
                      (ProxyManagerImpl_GetProxies (proxyArrays w) (pm w))
                      (randDraws w))) = Ok sr /\
     selection_outcome w sr r w').
Proof.
  unfold decide_global.
  destruct (keeps_lastUsed (rotationStrategy (pm w)) (heap w)
                           (lastUsed (pm w)))
    as [[|] |] eqn:Hkeep; [| | discriminate].
  - intros H. injection H as <- <-.
    destruct (keeps_lastUsed_true _ _ _ Hkeep) as (l & rot & Hl & Hrot & Hs).
    left. exists l, rot. rewrite Hl. repeat split; assumption.
  - destruct (selectStrategy (pm w)) as [strategy |]; [| discriminate].
    destruct (Select strategy (heap w)
                     (ProxyManagerImpl_GetProxies (proxyArrays w) (pm w))
                     (randDraws w)) as [[sr0 strategy'] draws'] eqn:HS.
    set (w1 := mkWorld (heap w) (rheap w) (proxyArrays w) (resourceArrays w)
                       (set_selectStrategy (pm w) strategy') draws'
                       (S (selectCalls w))).
    assert (Hsame : same_but_select_state w w1)
      by (unfold same_but_select_state; repeat split).
    intros H. right. split; [reflexivity |].
    destruct sr0 as [[p [errSelect |]] |]; [| | discriminate].
    + injection H as <- <-. exists strategy, (p, Some errSelect).
      rewrite HS. cbn [fst selection_outcome].
      split; [reflexivity | split; [reflexivity |]].
      destruct p; (split; [reflexivity | exact Hsame]).
    + exists strategy, (p, None). rewrite HS. cbn [fst].
      split; [reflexivity | split; [reflexivity |]].
      destruct p as [c |]; cbn [selection_outcome].
      * cbn [install_current] in H. injection H as <- <-.
        split; [reflexivity |]. exists w1. split; [exact Hsame |].
        destruct Hsame as (_ & Hl & _). cbn [install_current snd].
        reflexivity.
      * rewrite install_current_nil in H. injection H as <- <-.
        split; [reflexivity | exact Hsame].
Qed.

Lemma decide_resource_selects (i : nat) (w : World) (r : Selected)
      (w' : World) :
  decide_resource i (lastUsed (pm w)) w = (Ok r, w') ->
  (exists (l : nat) (rot : RotationStrategy),
      lastUsed (pm w) = Some l /\
      rc_rotationStrategy (rheap w i) = Some rot /\
      ShouldRotate rot (heap w l) = false /\
      r = (Some l, None) /\ w' = w) \/
  (keeps_lastUsed (rc_rotationStrategy (rheap w i)) (heap w)
                  (lastUsed (pm w)) = Ok false /\
   exists (s : SelectStrategy) (sr : Selected),
     rc_selectStrategy (rheap w i) = Some s /\
     fst (fst (Select s (heap w)
                      (ResourceConfig_GetProxies (proxyArrays w) (rheap w i))
                      (randDraws w))) = Ok sr /\
     selection_outcome w sr r w').
Proof.
  unfold decide_resource.
  destruct (keeps_lastUsed (rc_rotationStrategy (rheap w i)) (heap w)
                           (lastUsed (pm w)))
    as [[|] |] eqn:Hkeep; [| | discriminate].
  - intros H. injection H as <- <-.
    destruct (keeps_lastUsed_true _ _ _ Hkeep) as (l & rot & Hl & Hrot & Hs).
    left. exists l, rot. rewrite Hl. repeat split; assumption.
  - destruct (rc_selectStrategy (rheap w i)) as [strategy |];
      [| discriminate].
    destruct (Select strategy (heap w)
                     (ResourceConfig_GetProxies (proxyArrays w) (rheap w i))
                     (randDraws w)) as [[sr0 strategy'] draws'] eqn:HS.
    set (w1 := mkWorld (heap w)
                       (rheap_set (rheap w) i
                          (set_rc_selectStrategy (rheap w i) strategy'))
                       (proxyArrays w) (resourceArrays w)
                       (pm w) draws' (S (selectCalls w))).
    assert (Hsame : same_but_select_state w w1).
    { unfold same_but_select_state. repeat split;
        subst w1; cbn [rheap]; unfold rheap_set;
        destruct (Nat.eqb_spec r0 i) as [-> |]; reflexivity. }
    intros H. right. split; [reflexivity |].
    destruct sr0 as [[p [errSelect |]] |]; [| | discriminate].
    + injection H as <- <-. exists strategy, (p, Some errSelect).
      rewrite HS. cbn [fst selection_outcome].
      split; [reflexivity | split; [reflexivity |]].
      destruct p; (split; [reflexivity | exact Hsame]).
    + exists strategy, (p, None). rewrite HS. cbn [fst].
      split; [reflexivity | split; [reflexivity |]].
      destruct p as [c |]; cbn [selection_outcome].
      * cbn [install_current] in H. injection H as <- <-.
        split; [reflexivity |]. exists w1. split; [exact Hsame |].
        reflexivity.
      * rewrite install_current_nil in H. injection H as <- <-.
        split; [reflexivity | exact Hsame].
Qed.

(** The analysis of a call of [GetNextProxy] that returned: the empty-list
    error; or, in the scope that applies to the domain, the reuse of
    [lastUsed] or a selection. *)
Lemma GetNextProxy_analysis (d : string) (w : World) (r : Selected)
      (w' : World) :
  ProxyManagerImpl_GetNextProxy d w = (Ok r, w') ->
  (ProxyManagerImpl_GetProxies (proxyArrays w) (pm w) = [] /\
   resource_list w = [] /\
   r = (None, Some (proxyNotAvailable ErrEmptyProxyList)) /\ w' = w) \/
  (~ (ProxyManagerImpl_GetProxies (proxyArrays w) (pm w) = [] /\
      resource_list w = []) /\
   exists (rot : option RotationStrategy) (sel : option SelectStrategy)
          (pool : list ProxyPtr),
     applicable_rotation w d = Ok rot /\
     applicable_select w d = Ok sel /\
     applicable_pool w d = Ok pool /\
     ((exists (l : nat) (rs : RotationStrategy),
          lastUsed (pm w) = Some l /\ rot = Some rs /\
          ShouldRotate rs (heap w l) = false /\
          r = (Some l, None) /\ w' = w) \/
      (keeps_lastUsed rot (heap w) (lastUsed (pm w)) = Ok false /\
       exists (s : SelectStrategy) (sr : Selected),
         sel = Some s /\
         fst (fst (Select s (heap w) pool (randDraws w))) = Ok sr /\
         selection_outcome w sr r w'))).
Proof.
  unfold ProxyManagerImpl_GetNextProxy, applicable_rotation,
    applicable_select, applicable_pool.
  destruct ((slice_len (proxies (pm w)) =? 0)
            && (slice_len (resources (pm w)) =? 0)) eqn:Hempty.
  { intros H. injection H as <- <-. left.
    apply both_empty_iff in Hempty. destruct Hempty as [H1 H2].
    repeat split; assumption. }
  assert (Hne : ~ (ProxyManagerImpl_GetProxies (proxyArrays w) (pm w) = [] /\
                   resource_list w = [])).
  { intros Hboth. apply both_empty_iff in Hboth. congruence. }
  unfold getResourceByDomain.
  destruct (getResourceByDomain_loop (rheap w) (resource_list w) d)
    as [[res err] |] eqn:Hres; [| discriminate].
  destruct (getResourceByDomain_loop_returns _ _ _ _ _ Hres)
    as [[-> ->] | (i & -> & -> & Hin)].
  - cbn [errors_Is errors_Is_nonnil error_eqb orb andb negb].
    unfold ProxyManagerImpl_LastUsed. intros H. right. split; [exact Hne |].
    exists (rotationStrategy (pm w)), (selectStrategy (pm w)),
      (ProxyManagerImpl_GetProxies (proxyArrays w) (pm w)).
    repeat split. exact (decide_global_selects w r w' H).
  - cbn [errors_Is andb].
    unfold ProxyManagerImpl_LastUsed. intros H. right. split; [exact Hne |].
    exists (rc_rotationStrategy (rheap w i)), (rc_selectStrategy (rheap w i)),
      (ResourceConfig_GetProxies (proxyArrays w) (rheap w i)).
    repeat split. exact (decide_resource_selects i w r w' H).
Qed.

End Scopes.

Lemma install_current_frame (last : ProxyPtr) (c : nat) (w1 : World)
      (i : nat) :
  let w' := snd (install_current last (Some c) w1) in
  url (heap w' i) = url (heap w1 i) /\
  stats (heap w' i) = stats (heap w1 i) /\
  isDisabled (heap w' i) = isDisabled (heap w1 i) /\
  (Some i <> last -> i <> c -> isActive (heap w' i) = isActive (heap w1 i)).
Proof.
  cbn. unfold heap_set.
  destruct (Nat.eqb_spec i c) as [-> | Hic].
  - destruct last as [l |]; [destruct (Nat.eqb_spec c l) as [-> |] |];
      cbn; repeat split; intros; congruence.
  - destruct last as [l |]; [destruct (Nat.eqb_spec i l) as [-> |] |];
      cbn; repeat split; intros; congruence.
Qed.

Section ManagerMore.

Context {lib : GoLib}.

(** [GetNextProxy] returns the empty-proxy-list error exactly when the global
    pool and the list of resources are both empty, for every domain, and
    then leaves the state as it is. *)
Theorem GetNextProxy_empty_list_error_iff (d : string) (w : World) :
  ((exists (po : ProxyPtr) (w' : World),
       ProxyManagerImpl_GetNextProxy d w
       = (Ok (po, Some (proxyNotAvailable ErrEmptyProxyList)), w'))
   <-> ProxyManagerImpl_GetProxies (proxyArrays w) (pm w) = [] /\
       resource_list w = []) /\
  (forall (po : ProxyPtr) (w' : World),
      ProxyManagerImpl_GetNextProxy d w
      = (Ok (po, Some (proxyNotAvailable ErrEmptyProxyList)), w') ->
      po = None /\ w' = w).
Proof.
  assert (Hinv : forall (po : ProxyPtr) (w' : World),
             ProxyManagerImpl_GetNextProxy d w
             = (Ok (po, Some (proxyNotAvailable ErrEmptyProxyList)), w') ->
             ProxyManagerImpl_GetProxies (proxyArrays w) (pm w) = [] /\
             resource_list w = [] /\
             po = None /\ w' = w).
  { intros po w' H.
    destruct (GetNextProxy_analysis _ _ _ _ H)
      as [(H1 & H2 & Hr & ->)
         | (_ & rot & sel & pool & _ & _ & _ & [Hreuse | Hsel])].
    - injection Hr as ->. repeat split; assumption.
    - destruct Hreuse as (l & rs & _ & _ & _ & Hr & _). discriminate.
    - destruct Hsel as (_ & s & sr & _ & Hsr & Hout).
      destruct sr as [p [errSelect |]]; cbn [selection_outcome] in Hout.
      + destruct (Select_returns _ _ _ _ _ _ Hsr) as [[_ He] | [He _]];
          [| discriminate].
        injection He as ->. destruct p; destruct Hout as [Hr _];
          discriminate.
      + destruct p; destruct Hout as [Hr _]; discriminate. }
  split; [split |].
  - intros (po & w' & H). destruct (Hinv po w' H) as (H1 & H2 & _).
    now split.
  - intros Hboth. exists None, w. apply both_empty_iff in Hboth.
    unfold ProxyManagerImpl_GetNextProxy. rewrite Hboth. reflexivity.
  - intros po w' H. destruct (Hinv po w' H) as (_ & _ & Hpo & Hw).
    now split.
Qed.

(** What [GetNextProxy] never touches, whatever it returns: the URL, the
    statistics and the disabled flag of every proxy, the pools, the list of
    resources and their domains, and the rotation strategies; no slice and
    no backing array changes.  Of the active flags it changes at most those
    of the previous [lastUsed] and of the proxy it returns. *)
Theorem GetNextProxy_frame (d : string) (w : World) (r : Selected)
        (w' : World) :
  ProxyManagerImpl_GetNextProxy d w = (Ok r, w') ->
  (forall i : nat,
      url (heap w' i) = url (heap w i) /\
      Proxy_Stats (heap w' i) = Proxy_Stats (heap w i) /\
      Proxy_IsDisabled (heap w' i) = Proxy_IsDisabled (heap w i)) /\
  (forall i : nat,
      Some i <> lastUsed (pm w) -> Some i <> fst r ->
      Proxy_IsActive (heap w' i) = Proxy_IsActive (heap w i)) /\
  ProxyManagerImpl_GetProxies (proxyArrays w') (pm w')
  = ProxyManagerImpl_GetProxies (proxyArrays w) (pm w) /\
  resource_list w' = resource_list w /\
  rotationStrategy (pm w') = rotationStrategy (pm w) /\
  (forall j : nat,
      ResourceConfig_GetProxies (proxyArrays w') (rheap w' j)
      = ResourceConfig_GetProxies (proxyArrays w) (rheap w j) /\
      ResourceConfig_Domain (rheap w' j) = ResourceConfig_Domain (rheap w j) /\
      notIgnoreSubdomains (rheap w' j) = notIgnoreSubdomains (rheap w j) /\
      rc_rotationStrategy (rheap w' j) = rc_rotationStrategy (rheap w j)) /\
  proxyArrays w' = proxyArrays w /\
  resourceArrays w' = resourceArrays w /\
  proxies (pm w') = proxies (pm w) /\
  resources (pm w') = resources (pm w) /\
  (forall j : nat, rc_proxies (rheap w' j) = rc_proxies (rheap w j)).
Proof.
  destruct r as [po e]. intros H.
  unfold Proxy_Stats, Proxy_IsDisabled, Proxy_IsActive,
    ProxyManagerImpl_GetProxies, ResourceConfig_GetProxies,
    ResourceConfig_Domain, resource_list.
  assert (Hsame_case : forall w2 : World,
             same_but_select_state w w2 ->
             (forall i : nat,
                 url (heap w2 i) = url (heap w i) /\
                 stats (heap w2 i) = stats (heap w i) /\
                 isDisabled (heap w2 i) = isDisabled (heap w i)) /\
             (forall i : nat, isActive (heap w2 i) = isActive (heap w i)) /\
             proxies (pm w2) = proxies (pm w) /\
             resources (pm w2) = resources (pm w) /\
             rotationStrategy (pm w2) = rotationStrategy (pm w) /\
             (forall j : nat,
                 rc_proxies (rheap w2 j) = rc_proxies (rheap w j) /\
                 domain (rheap w2 j) = domain (rheap w j) /\
                 notIgnoreSubdomains (rheap w2 j)
                 = notIgnoreSubdomains (rheap w j) /\
                 rc_rotationStrategy (rheap w2 j)
                 = rc_rotationStrategy (rheap w j)) /\
             proxyArrays w2 = proxyArrays w /\
             resourceArrays w2 = resourceArrays w).
  { intros w2 (Hh & _ & Hp & Hr & Hrot & Hrc & Hpa & Hra). rewrite Hh.
    repeat split; try assumption; apply Hrc. }
  assert (Hgoal : forall w2 : World,
             same_but_select_state w w2 ->
             proxies (pm w') = proxies (pm w2) ->
             resources (pm w') = resources (pm w2) ->
             rotationStrategy (pm w') = rotationStrategy (pm w2) ->
             rheap w' = rheap w2 ->
             proxyArrays w' = proxyArrays w2 ->
             resourceArrays w' = resourceArrays w2 ->
             slice_elems (proxyArrays w') (proxies (pm w'))
             = slice_elems (proxyArrays w) (proxies (pm w)) /\
             slice_elems (resourceArrays w') (resources (pm w'))
             = slice_elems (resourceArrays w) (resources (pm w)) /\
             rotationStrategy (pm w') = rotationStrategy (pm w) /\
             (forall j : nat,
                 slice_elems (proxyArrays w') (rc_proxies (rheap w' j))
                 = slice_elems (proxyArrays w) (rc_proxies (rheap w j)) /\
                 domain (rheap w' j) = domain (rheap w j) /\
                 notIgnoreSubdomains (rheap w' j)
                 = notIgnoreSubdomains (rheap w j) /\
                 rc_rotationStrategy (rheap w' j)
                 = rc_rotationStrategy (rheap w j)) /\
             proxyArrays w' = proxyArrays w /\
             resourceArrays w' = resourceArrays w /\
             proxies (pm w') = proxies (pm w) /\
             resources (pm w') = resources (pm w) /\
             (forall j : nat,
                 rc_proxies (rheap w' j) = rc_proxies (rheap w j))).
  { intros w2 Hsame E1 E2 E3 E4 E5 E6.
    destruct (Hsame_case w2 Hsame)
      as (_ & _ & H3 & H4 & H5 & H6 & H7 & H8).
    rewrite E1, E2, E3, E4, E5, E6, H3, H4, H5, H7, H8.
    repeat split; try apply H6.
    now rewrite (proj1 (H6 j)). }
  destruct (GetNextProxy_returns _ _ _ _ _ H)
    as [(_ & _ & ->) | [(l & rot & _ & _ & _ & _ & _ & ->)
                       | [(_ & _ & Hsame)
                         | (c & w1 & -> & _ & _ & Hsame & ->)]]].
  - split; [intros i; repeat split |]. split; [reflexivity |].
    apply (Hgoal w (same_but_select_state_refl w)); reflexivity.
  - split; [intros i; repeat split |]. split; [reflexivity |].
    apply (Hgoal w (same_but_select_state_refl w)); reflexivity.
  - destruct (Hsame_case w' Hsame) as (H1 & H2 & _).
    split; [exact H1 |]. split; [intros i _ _; apply H2 |].
    apply (Hgoal w' Hsame); reflexivity.
  - destruct (Hsame_case w1 Hsame) as (H1 & H2 & _).
    split; [| split].
    + intros i.
      destruct (install_current_frame (lastUsed (pm w)) c w1 i)
        as (Hu & Hs & Hd & _).
      cbn zeta in *. rewrite Hu, Hs, Hd. apply H1.
    + intros i Hl Hc. cbn [fst] in Hc.
      destruct (install_current_frame (lastUsed (pm w)) c w1 i)
        as (_ & _ & _ & Ha).
      cbn zeta in Ha. rewrite Ha; [apply H2 | exact Hl | congruence].
    + apply (Hgoal w1 Hsame); reflexivity.
Qed.

(** A proxy that [GetNextProxy] returns is the previous [lastUsed], or it is
    a proxy of the pool of the scope that applies to the domain (the first
    matching resource's, else the global pool) that passes the filters of
    that scope's select strategy.  A first decision for a domain that a
    resource matches never returns a proxy from outside the resource's
    pool. *)
Theorem GetNextProxy_selects_in_scope (d : string) (w : World) (c : nat)
        (w' : World) :
  ProxyManagerImpl_GetNextProxy d w = (Ok (Some c, None), w') ->
  lastUsed (pm w) = Some c \/
  exists (s : SelectStrategy) (pool : list ProxyPtr),
    applicable_select w d = Ok (Some s) /\
    applicable_pool w d = Ok pool /\
    In (Some c) pool /\
    passes_all (provider_filters (strategy_provider s)) (heap w) (Some c)
    = true.
Proof.
  intros H.
  destruct (GetNextProxy_analysis _ _ _ _ H)
    as [(_ & _ & Hr & _)
       | (_ & rot & sel & pool & _ & Hsel & Hpool & [Hreuse | Hs])];
    [discriminate | |].
  - destruct Hreuse as (l & rs & Hl & _ & _ & Hr & _).
    injection Hr as <-. now left.
  - destruct Hs as (_ & s & sr & -> & Hsr & Hout). right.
    destruct sr as [[c0 |] [errSelect |]]; cbn [selection_outcome] in Hout;
      destruct Hout as [Hr _]; try discriminate.
    injection Hr as <-.
    destruct (Select_selected_passes _ _ _ _ _ Hsr) as [Hin Hpass].
    exists s, pool. repeat split; assumption.
Qed.

End ManagerMore.

Lemma DefaultRotationStrategy_keeps_enabled (p : Proxy) :
  ShouldRotate DefaultRotationStrategy p = false ->
  Proxy_IsDisabled p = false /\ ProxyStats_ErrorCount (Proxy_Stats p) < 1.
Proof.
  cbn. destruct (Proxy_IsDisabled p); [discriminate |]. cbn.
  destruct (Z.geb_spec (ProxyStats_ErrorCount (Proxy_Stats p)) 1);
    [discriminate |].
  intros _. split; [reflexivity | lia].
Qed.

Lemma CompareDomain_depends (rc rc' : ResourceConfig) (d : string)
      {lib : GoLib} :
  domain rc' = domain rc ->
  notIgnoreSubdomains rc' = notIgnoreSubdomains rc ->
  CompareDomain rc' d = CompareDomain rc d.
Proof.
  intros Hd Hn. unfold CompareDomain, ResourceConfig_Domain.
  now rewrite Hd, Hn.
Qed.

Section ManagerPolicies.

Context {lib : GoLib}.

(** Under the default policy [GetNextProxy] never returns a disabled proxy:
    when the rotation strategy that applies is the default one and the select
    strategy that applies filters with [RemoveDisabledFilter], the proxy
    returned is enabled. *)
Theorem GetNextProxy_default_policy_enabled (d : string) (w : World)
        (s : SelectStrategy) (c : nat) (w' : World) :
  applicable_rotation w d = Ok (Some DefaultRotationStrategy) ->
  applicable_select w d = Ok (Some s) ->
  In RemoveDisabledFilter (provider_filters (strategy_provider s)) ->
  ProxyManagerImpl_GetNextProxy d w = (Ok (Some c, None), w') ->
  Proxy_IsDisabled (heap w' c) = false.
Proof.
  intros Hrot Hsel Hfilter H.
  destruct (GetNextProxy_analysis _ _ _ _ H)
    as [(_ & _ & Hr & _)
       | (_ & rot & sel & pool & Hrot' & Hsel' & _ & [Hreuse | Hs])];
    [discriminate | |].
  - destruct Hreuse as (l & rs & _ & -> & Hkeep & Hr & ->).
    injection Hr as ->. rewrite Hrot in Hrot'. injection Hrot' as <-.
    now apply DefaultRotationStrategy_keeps_enabled.
  - destruct Hs as (_ & s0 & sr & -> & Hsr & Hout).
    rewrite Hsel in Hsel'. injection Hsel' as <-.
    destruct sr as [[c0 |] [errSelect |]]; cbn [selection_outcome] in Hout;
      destruct Hout as [Hr Hw]; try discriminate.
    injection Hr as <-. destruct Hw as (w1 & Hsame & ->).
    destruct (Select_selected_passes _ _ _ _ _ Hsr) as [_ Hpass].
    unfold passes_all in Hpass. rewrite forallb_forall in Hpass.
    specialize (Hpass _ Hfilter). cbn in Hpass.
    apply negb_true_iff in Hpass.
    destruct (install_current_frame (lastUsed (pm w)) c w1 c)
      as (_ & _ & Hd & _).
    cbn zeta in Hd. unfold Proxy_IsDisabled in *. rewrite Hd.
    destruct Hsame as (-> & _). exact Hpass.
Qed.

(** A rotation goes to another proxy: for a manager that [NewProxyManager]
    made, with no proxy active at first, after any calls, when the rotation
    strategy that applies asks to rotate away from [lastUsed] and the select
    strategy that applies filters with [RemoveActiveProxyFilter], the proxy
    that [GetNextProxy] returns is not the previous [lastUsed]. *)
Theorem GetNextProxy_rotates_to_another (opts : list ProxyManagerImplOption)
        (w0 : World) (cs : list Call) (w : World) (d : string) (l : nat)
        (rot : RotationStrategy) (s : SelectStrategy) (c : nat)
        (w' : World) :
  NewProxyManager opts = Ok (pm w0) ->
  (forall i : nat, isActive (heap w0 i) = false) ->
  run cs w0 = Ok w ->
  ProxyManagerImpl_LastUsed (pm w) = Some l ->
  applicable_rotation w d = Ok (Some rot) ->
  ShouldRotate rot (heap w l) = true ->
  applicable_select w d = Ok (Some s) ->
  In RemoveActiveProxyFilter (provider_filters (strategy_provider s)) ->
  ProxyManagerImpl_GetNextProxy d w = (Ok (Some c, None), w') ->
  c <> l /\ Proxy_IsActive (heap w' l) = false.
Proof.
  intros Hnew Hflags Hrun Hlast Hrot Hshould Hsel Hfilter H.
  unfold ProxyManagerImpl_LastUsed in Hlast.
  pose proof (NewProxyManager_lastUsed opts _ Hnew) as Hnil.
  assert (Ha : active_is_last w).
  { apply (proj2 (run_invariants cs w0 w Hrun)). intros i.
    rewrite Hflags, Hnil. split; discriminate. }
  assert (Ha' : active_is_last w')
    by (eapply GetNextProxy_active_is_last; eassumption).
  assert (Hcl : c <> l).
  { destruct (GetNextProxy_analysis _ _ _ _ H)
      as [(_ & _ & Hr & _)
         | (_ & rot' & sel & pool & Hrot' & Hsel' & _ & [Hreuse | Hs])];
      [discriminate | |].
    - destruct Hreuse as (l' & rs & Hl' & -> & Hkeep & _).
      rewrite Hrot in Hrot'. injection Hrot' as <-. congruence.
    - destruct Hs as (_ & s0 & sr & -> & Hsr & Hout).
      rewrite Hsel in Hsel'. injection Hsel' as <-.
      destruct sr as [[c0 |] [errSelect |]]; cbn [selection_outcome] in Hout;
        destruct Hout as [Hr Hw]; try discriminate.
      injection Hr as <-.
      destruct (Select_selected_passes _ _ _ _ _ Hsr) as [_ Hpass].
      unfold passes_all in Hpass. rewrite forallb_forall in Hpass.
      specialize (Hpass _ Hfilter). cbn in Hpass.
      apply negb_true_iff in Hpass. intros ->.
      apply (Ha l) in Hlast. unfold Proxy_IsActive in Hpass. congruence. }
  split; [exact Hcl |].
  assert (Hlast' : lastUsed (pm w') = Some c).
  { destruct (GetNextProxy_returns _ _ _ _ _ H)
      as [(Hpo & _) | [(l' & rot' & Hl' & _ & _ & Hpo & _ & ->)
                      | [(Hpo & _) | (c' & w1 & Hpo & _ & _ & _ & ->)]]];
      try discriminate.
    - congruence.
    - injection Hpo as ->.
      apply (install_current_world (lastUsed (pm w)) c' w1). }
  unfold Proxy_IsActive.
  destruct (isActive (heap w' l)) eqn:Hact; [| reflexivity].
  apply (Ha' l) in Hact. congruence.
Qed.

(** [getResourceByDomain] returns the first resource of the list that
    matches the domain: the resources before it do not match.  It returns
    the resource-not-found error exactly when no resource matches. *)
Theorem getResourceByDomain_first_match (w : World) (d : string)
        (res : ResourcePtr) (err : option error) :
  getResourceByDomain w d = Ok (res, err) ->
  match res with
  | Some r =>
      err = None /\
      CompareDomain (rheap w r) d = true /\
      exists before after : list ResourcePtr,
        resource_list w = (before ++ Some r :: after)%list /\
        Forall (fun x => exists i : nat,
                    x = Some i /\ CompareDomain (rheap w i) d = false)
               before
  | None =>
      err = Some ErrResourceNotFound /\
      Forall (fun x => exists i : nat,
                  x = Some i /\ CompareDomain (rheap w i) d = false)
             (resource_list w)
  end.
Proof.
  unfold getResourceByDomain. generalize (resource_list w) as rs.
  induction rs as [| [i |] rs IH]; cbn [getResourceByDomain_loop]; intros H.
  - injection H as <- <-. split; [reflexivity | constructor].
  - destruct (CompareDomain (rheap w i) d) eqn:Hc.
    + injection H as <- <-. split; [reflexivity |]. split; [exact Hc |].
      exists [], rs. split; [reflexivity | constructor].
    + specialize (IH H). destruct res as [r |].
      * destruct IH as (-> & Hr & before & after & -> & Hall).
        split; [reflexivity |]. split; [exact Hr |].
        exists (Some i :: before), after. split; [reflexivity |].
        constructor; [exists i; now split | exact Hall].
      * destruct IH as (-> & Hall). split; [reflexivity |].
        constructor; [exists i; now split | exact Hall].
  - discriminate.
Qed.

Lemma getResourceByDomain_loop_ext (rh rh' : ResourceHeap)
      (rs : list ResourcePtr) (d : string) :
  (forall j : nat,
      domain (rh' j) = domain (rh j) /\
      notIgnoreSubdomains (rh' j) = notIgnoreSubdomains (rh j)) ->
  getResourceByDomain_loop rh' rs d = getResourceByDomain_loop rh rs d.
Proof.
  intros Hext. induction rs as [| [i |] rs IH]; cbn; [reflexivity | |];
    [| reflexivity].
  destruct (Hext i) as [Hd Hn].
  rewrite (CompareDomain_depends (rh i) (rh' i) d Hd Hn), IH. reflexivity.
Qed.

(** [AddResourceProxies] returns the resource-not-found error, with the
    state as it was, when no resource matches the domain.  Otherwise the
    pool of the first matching resource holds what it held, followed by the
    proxies; the same resource matches the domain afterwards; and no
    [Proxy], no field of the manager, no other [ResourceConfig] and no entry
    of the list of resources changes.  When the pools share no memory, the
    global pool and the pools of the other resources hold what they held:
    an [append] in place writes into the backing array, where a pool that
    shares it would see the proxies. *)
Theorem AddResourceProxies_effect (d : string) (ps : list ProxyPtr)
        (w : World) (e : option error) (w' : World) :
  ProxyManagerImpl_AddResourceProxies d ps w = (Ok e, w') ->
  match e with
  | Some err =>
      err = ErrResourceNotFound /\ w' = w /\
      getResourceByDomain w d = Ok (None, Some ErrResourceNotFound)
  | None =>
      exists r : nat,
        getResourceByDomain w d = Ok (Some r, None) /\
        getResourceByDomain w' d = Ok (Some r, None) /\
        ResourceConfig_GetProxies (proxyArrays w') (rheap w' r)
        = (ResourceConfig_GetProxies (proxyArrays w) (rheap w r)
             ++ ps)%list /\
        (forall j : nat, j <> r -> rheap w' j = rheap w j) /\
        pm w' = pm w /\ heap w' = heap w /\
        resource_list w' = resource_list w /\
        (pools_separate w ->
         ProxyManagerImpl_GetProxies (proxyArrays w') (pm w')
         = ProxyManagerImpl_GetProxies (proxyArrays w) (pm w) /\
         forall j : nat,
           j <> r ->
           ResourceConfig_GetProxies (proxyArrays w') (rheap w' j)
           = ResourceConfig_GetProxies (proxyArrays w) (rheap w j))
  end.
Proof.
  unfold ProxyManagerImpl_AddResourceProxies.
  destruct (getResourceByDomain w d) as [[res err] |] eqn:Hres;
    [| discriminate].
  unfold getResourceByDomain in Hres.
  destruct (getResourceByDomain_loop_returns _ _ _ _ _ Hres)
    as [[-> ->] | (r & -> & -> & _)]; intros H; injection H as <- <-.
  - repeat split.
  - destruct (ResourceAddProxies_fields r ps w)
      as (_ & _ & Hother & Hfields & Hh & _ & Hpm & _).
    destruct (ResourceAddProxies_pools r ps w) as (Hr & Hrs & Hsep).
    exists r. split; [reflexivity |].
    split;
      [| split; [exact Hr | split; [exact Hother | split; [exact Hpm |]]];
         split; [exact Hh | split; [exact Hrs | exact Hsep]]].
    unfold getResourceByDomain. rewrite Hrs.
    etransitivity; [apply getResourceByDomain_loop_ext | exact Hres].
    intros j. destruct (Hfields j) as (Hd & Hn & _). now split.
Qed.

(** The proxy selector returns a URL only together with a nil error, and the
    URL is that of the manager's [lastUsed] after the call, which is
    enabled; a nil URL with a nil error means that [lastUsed] is a direct
    connection.  When [GetNextProxy] picks a disabled proxy the selector
    returns the bare proxy-not-available error although the manager has
    made that proxy its [lastUsed]. *)
Theorem GetProxySelector_returns (hostname : string) (w : World)
        (u : option string) (e : option error) (w' : World) :
  GetProxySelector hostname w = (Ok (u, e), w') ->
  match e with
  | None =>
      exists p : nat,
        ProxyManagerImpl_GetNextProxy hostname w = (Ok (Some p, None), w') /\
        ProxyManagerImpl_LastUsed (pm w') = Some p /\
        Proxy_IsDisabled (heap w' p) = false /\
        u = url (heap w' p) /\
        (u = None <-> Proxy_IsDirect (heap w' p) = true)
  | Some err =>
      u = None /\
      (ProxyManagerImpl_GetNextProxy hostname w = (Ok (None, e), w') \/
       exists p : nat,
         ProxyManagerImpl_GetNextProxy hostname w = (Ok (Some p, None), w') /\
         err = ErrProxyNotAvailable /\
         Proxy_IsDisabled (heap w' p) = true /\
         ProxyManagerImpl_LastUsed (pm w') = Some p)
  end.
Proof.
  unfold GetProxySelector.
  destruct (ProxyManagerImpl_GetNextProxy hostname w)
    as [[[po [err |]] |] w1] eqn:Hget; [| | discriminate].
  - assert (Hpo : po = None).
    { destruct (GetNextProxy_returns _ _ _ _ _ Hget)
        as [(-> & _) | [(l & rot & _ & _ & _ & _ & He & _)
                       | [(-> & _) | (c & w2 & _ & He & _)]]];
        try discriminate; reflexivity. }
    subst po. intros H. injection H as <- <- <-.
    split; [reflexivity |]. left. reflexivity.
  - destruct po as [p |]; [| discriminate].
    assert (Hlast : lastUsed (pm w1) = Some p).
    { destruct (GetNextProxy_returns _ _ _ _ _ Hget)
        as [(Hpo & _) | [(l' & rot' & Hl' & _ & _ & Hpo & _ & ->)
                        | [(Hpo & _) | (c' & w2 & Hpo & _ & _ & _ & ->)]]];
        try discriminate.
      - congruence.
      - injection Hpo as ->.
        apply (install_current_world (lastUsed (pm w)) c' w2). }
    destruct (Proxy_IsDisabled (heap w1 p)) eqn:Hd; intros H;
      injection H as <- <- <-.
    + split; [reflexivity |]. right. exists p. repeat split; assumption.
    + exists p. repeat split; try assumption.
      * unfold Proxy_IsDirect. intros ->. reflexivity.
      * unfold Proxy_IsDirect. destruct (url (heap w1 p));
          [discriminate | reflexivity].
Qed.

(** [ProxyTransport.RoundTrip] returns what the base transport returned.  It
    reports the outcome to the proxy that is the manager's [lastUsed] after
    the base transport ran: that proxy's total grows by one, as a success
    exactly when there is a response and no error; no other proxy and nothing
    of the manager changes.  Without a [lastUsed] nothing is recorded. *)
Theorem RoundTrip_reports_to_lastUsed (baseTransport : RoundTripper)
        (now : Z) (w : World) (resp : option Response)
        (err : option error) (w' : World) :
  ProxyTransport_RoundTrip baseTransport now w = (Ok (resp, err), w') ->
  exists w1 : World,
    baseTransport w = (Ok (resp, err), w1) /\
    pm w' = pm w1 /\ rheap w' = rheap w1 /\
    match ProxyManagerImpl_LastUsed (pm w1) with
    | None => w' = w1
    | Some p =>
        heap w' p = Proxy_Update now resp err (heap w1 p) /\
        ProxyStats_TotalRequests (Proxy_Stats (heap w' p))
        = uint_incr (ProxyStats_TotalRequests (Proxy_Stats (heap w1 p))) /\
        (ProxyStats_SuccessCount (Proxy_Stats (heap w' p))
         <> ProxyStats_SuccessCount (Proxy_Stats (heap w1 p))
         <-> resp <> None /\ err = None) /\
        (forall i : nat, i <> p -> heap w' i = heap w1 i)
    end.
Proof.
  unfold ProxyTransport_RoundTrip.
  destruct (baseTransport w) as [[[resp0 err0] |] w1] eqn:Hbase;
    [| discriminate].
  destruct (ProxyManagerImpl_LastUsed (pm w1)) as [p |] eqn:Hlast;
    intros H; injection H as <- <- <-; exists w1; rewrite Hlast.
  - split; [reflexivity |]. split; [reflexivity |]. split; [reflexivity |].
    cbn [with_heap heap]. unfold heap_set. rewrite Nat.eqb_refl.
    split; [reflexivity |]. split; [apply Update_total |].
    split.
    + unfold Proxy_Update, Proxy_Stats, ProxyStats_SuccessCount,
        ProxyStats_Update. cbn [stats].
      pose proof (uint_incr_neq (successCount (stats (heap w1 p)))) as Hs.
      destruct resp0, err0; cbn [successCount]; split;
        try congruence; try tauto;
        try (intros [H1 H2]; congruence);
        try (intros _; split; congruence).
    + intros i Hi. destruct (Nat.eqb_spec i p); [contradiction | reflexivity].
  - repeat split.
Qed.

End ManagerPolicies.

Section SelectionDecides.

Context {lib : GoLib}.

Lemma not_both_empty (w : World) :
  ~ (ProxyManagerImpl_GetProxies (proxyArrays w) (pm w) = [] /\
     resource_list w = []) ->
  (slice_len (proxies (pm w)) =? 0) && (slice_len (resources (pm w)) =? 0)
  = false.
Proof.
  intros Hne. apply not_true_is_false. intros H. apply Hne.
  now apply both_empty_iff.
Qed.

(** A call of [GetNextProxy] that has to select returns, when [Select]
    does. *)
Lemma GetNextProxy_when_selecting (d : string) (w : World)
      (rot : option RotationStrategy) (s : SelectStrategy)
      (pool : list ProxyPtr) (sr : Selected) :
  ~ (ProxyManagerImpl_GetProxies (proxyArrays w) (pm w) = [] /\
     resource_list w = []) ->
  applicable_rotation w d = Ok rot ->
  keeps_lastUsed rot (heap w) (lastUsed (pm w)) = Ok false ->
  applicable_select w d = Ok (Some s) ->
  applicable_pool w d = Ok pool ->
  fst (fst (Select s (heap w) pool (randDraws w))) = Ok sr ->
  exists (r : Selected) (w' : World),
    ProxyManagerImpl_GetNextProxy d w = (Ok r, w') /\
    selection_outcome w sr r w'.
Proof.
  intros Hne Hrot Hkeep Hsel Hpool Hsr.
  assert (Hret : exists (r : Selected) (w' : World),
             ProxyManagerImpl_GetNextProxy d w = (Ok r, w')).
  { unfold ProxyManagerImpl_GetNextProxy.
    rewrite (not_both_empty w Hne).
    unfold applicable_rotation, applicable_select, applicable_pool in *.
    unfold getResourceByDomain in *.
    destruct (getResourceByDomain_loop (rheap w) (resource_list w) d)
      as [[res err] |] eqn:Hres; [| discriminate].
    destruct (getResourceByDomain_loop_returns _ _ _ _ _ Hres)
      as [[-> ->] | (i & -> & -> & _)];
      injection Hrot as <-; injection Hsel as Hsel; injection Hpool as <-.
    - cbn [errors_Is errors_Is_nonnil error_eqb orb andb negb].
      unfold ProxyManagerImpl_LastUsed, decide_global.
      rewrite Hkeep, Hsel.
      destruct (Select s (heap w)
                       (ProxyManagerImpl_GetProxies (proxyArrays w) (pm w))
                       (randDraws w)) as [[sr0 s'] d'].
      cbn [fst] in Hsr. subst sr0.
      destruct sr as [[c |] [e |]]; eexists; eexists; reflexivity.
    - cbn [errors_Is andb].
      unfold ProxyManagerImpl_LastUsed, decide_resource.
      rewrite Hkeep, Hsel.
      destruct (Select s (heap w)
                       (ResourceConfig_GetProxies (proxyArrays w) (rheap w i))
                       (randDraws w)) as [[sr0 s'] d'].
      cbn [fst] in Hsr. subst sr0.
      destruct sr as [[c |] [e |]]; eexists; eexists; reflexivity. }
  destruct Hret as (r & w' & Hget). exists r, w'. split; [exact Hget |].
  destruct (GetNextProxy_analysis _ _ _ _ Hget)
    as [(H1 & H2 & _) | (_ & rot' & sel' & pool' & Hrot' & Hsel' & Hpool'
                         & [Hreuse | Hs])].
  - exfalso. apply Hne. now split.
  - exfalso. destruct Hreuse as (l & rs & Hl & -> & Hshould & _).
    rewrite Hrot in Hrot'. injection Hrot' as ->.
    unfold keeps_lastUsed in Hkeep. rewrite Hl, Hshould in Hkeep.
    discriminate.
  - destruct Hs as (_ & s0 & sr0 & -> & Hsr0 & Hout).
    rewrite Hsel in Hsel'. injection Hsel' as <-.
    rewrite Hpool in Hpool'. injection Hpool' as <-.
    rewrite Hsr in Hsr0. injection Hsr0 as <-. exact Hout.
Qed.

(** When [GetNextProxy] has to select (there is no [lastUsed], or the
    rotation strategy that applies asks to rotate away from it), it returns
    a proxy exactly when a proxy of the pool that applies passes every
    filter of the select strategy that applies: it then makes that proxy the
    active [lastUsed].  Otherwise it returns the wrapped failed-select error
    and keeps [lastUsed].  The pool is a slice without nil pointers, and the
    cursor and the random source are within their ranges. *)
Theorem GetNextProxy_selection_decides (d : string) (w : World)
        (rot : option RotationStrategy) (s : SelectStrategy)
        (pool : list ProxyPtr) :
  ~ (ProxyManagerImpl_GetProxies (proxyArrays w) (pm w) = [] /\
     resource_list w = []) ->
  applicable_rotation w d = Ok rot ->
  match lastUsed (pm w) with
  | None => True
  | Some l => exists rs : RotationStrategy,
      rot = Some rs /\ ShouldRotate rs (heap w l) = true
  end ->
  applicable_select w d = Ok (Some s) ->
  applicable_pool w d = Ok pool ->
  has_nil pool = false ->
  len pool <= max_int -> cursor_ok s -> rand_in_range lib ->
  if existsb (passes_all (provider_filters (strategy_provider s)) (heap w))
             pool
  then exists (c : nat) (w' : World),
      ProxyManagerImpl_GetNextProxy d w = (Ok (Some c, None), w') /\
      In (Some c) pool /\
      ProxyManagerImpl_LastUsed (pm w') = Some c /\
      Proxy_IsActive (heap w' c) = true
  else exists w' : World,
      ProxyManagerImpl_GetNextProxy d w
      = (Ok (None, Some (proxyNotAvailable emptyProxiesError)), w') /\
      ProxyManagerImpl_LastUsed (pm w') = ProxyManagerImpl_LastUsed (pm w).
Proof.
  intros Hne Hrot Hmust Hsel Hpool Hnil Hlen Hc Hrand.
  assert (Hkeep : keeps_lastUsed rot (heap w) (lastUsed (pm w)) = Ok false).
  { unfold keeps_lastUsed. destruct (lastUsed (pm w)) as [l |];
      [| reflexivity].
    destruct Hmust as (rs & -> & Hs). now rewrite Hs. }
  pose proof (Select_filtered_outcome s (heap w) pool (randDraws w)
                Hnil Hlen Hc Hrand) as Hout.
  destruct (existsb _ pool).
  - destruct Hout as (c & Hsr & Hin).
    destruct (GetNextProxy_when_selecting d w rot s pool _ Hne Hrot Hkeep
                Hsel Hpool Hsr) as (r & w' & Hget & Hso).
    cbn [selection_outcome] in Hso.
    destruct Hso as (-> & w1 & Hsame & ->).
    exists c, (snd (install_current (lastUsed (pm w)) (Some c) w1)).
    split; [exact Hget |]. split; [exact Hin |].
    destruct (install_current_world (lastUsed (pm w)) c w1)
      as (Hlast & _ & Hact).
    split; [exact Hlast |]. apply Hact. now left.
  - destruct (GetNextProxy_when_selecting d w rot s pool _ Hne Hrot Hkeep
                Hsel Hpool Hout) as (r & w' & Hget & Hso).
    cbn [selection_outcome] in Hso. destruct Hso as (-> & Hsame).
    exists w'. split; [exact Hget |]. apply Hsame.
Qed.

End SelectionDecides.

(** ** Round robin under a changing pool, and through the manager *)

Section RoundRobinMore.

Context {lib : GoLib}.

Lemma Select_keeps_provider (s : SelectStrategy) (h : ProxyHeap)
      (pool : list ProxyPtr) (draws : nat) :
  strategy_provider (snd (fst (Select s h pool draws))) = strategy_provider s.
Proof.
  destruct s as [provider | provider index0]; cbn [Select].
  - destruct (RandomSelect_Select provider h pool draws). reflexivity.
  - destruct (RoundRobinSelect_Select provider index0 h pool). reflexivity.
Qed.

(** [Select] does not panic when the pool grows or shrinks between calls:
    whatever the pools and the flags of the proxies are at the successive
    calls, each call on a [RandomSelect] or a [RoundRobinSelect] made by its
    factory returns, and what it returns is the failed-select error or a
    proxy of the pool as it is at that call.  The pools are slices without
    nil pointers, and the random source is within its range. *)
Theorem Select_survives_pool_changes (factory : SelectStrategyFactory)
        (envs : list (ProxyHeap * list ProxyPtr)) (draws : nat) :
  rand_in_range lib ->
  Forall (fun env => has_nil (snd env) = false /\ len (snd env) <= max_int)
         envs ->
  Forall2 (fun env r =>
             r = Ok (None, Some emptyProxiesError) \/
             exists c : nat, r = Ok (Some c, None) /\ In (Some c) (snd env))
          envs (select_over envs (apply_factory factory OwnerProvider) draws).
Proof.
  intros Hrand Henvs.
  pose proof (apply_factory_cursor_ok factory OwnerProvider) as Hc.
  revert Hc. generalize (apply_factory factory OwnerProvider) as s.
  revert draws.
  induction Henvs as [| [h pool] envs [Hnil Hlen] _ IH]; intros draws s Hc;
    cbn [select_over]; [constructor |].
  cbn [snd] in Hnil, Hlen.
  pose proof (Select_filtered_outcome s h pool draws Hnil Hlen Hc Hrand)
    as Hout.
  assert (Hget : Provider_GetProxies (strategy_provider s) h pool
                 = Ok (filter (passes_all (provider_filters
                                             (strategy_provider s)) h) pool))
    by (rewrite Provider_GetProxies_spec, Hnil; reflexivity).
  assert (Hl : len (filter (passes_all (provider_filters
                                          (strategy_provider s)) h) pool)
               <= max_int).
  { pose proof (len_filter_le
                  (passes_all (provider_filters (strategy_provider s)) h)
                  pool). lia. }
  pose proof (Select_cursor_ok s h pool draws _ Hget Hl Hc) as Hc'.
  destruct (Select s h pool draws) as [[r s'] draws'].
  cbn [fst snd] in *. constructor; [| apply IH; exact Hc'].
  cbn [snd]. destruct (existsb _ pool).
  - destruct Hout as (c & -> & Hin). right. exists c. now split.
  - left. exact Hout.
Qed.

End RoundRobinMore.

Section RoundRobinManager.

Context {lib : GoLib}.

Variable P : list ProxyPtr.
Variable d : string.
Hypothesis P_slice : 1 <= len P <= max_int.
Hypothesis P_nil_free : has_nil P = false.

(** One call on a manager that rotates on every request and selects in
    turn, with the cursor at [m - 1]. *)
Lemma round_robin_manager_step (w : World) (m : nat) :
  ProxyManagerImpl_GetProxies (proxyArrays w) (pm w) = P ->
  resource_list w = [] ->
  rotationStrategy (pm w) = Some RoundRobinRotation ->
  selectStrategy (pm w)
  = Some (RoundRobinSelect OwnerProvider (Z.of_nat m - 1)) ->
  (m <= List.length P)%nat ->
  exists (c : nat) (w' : World),
    ProxyManagerImpl_GetNextProxy d w = (Ok (Some c, None), w') /\
    nth (m mod List.length P) P None = Some c /\
    ProxyManagerImpl_GetProxies (proxyArrays w') (pm w') = P /\
    resource_list w' = [] /\
    rotationStrategy (pm w') = Some RoundRobinRotation /\
    selectStrategy (pm w')
    = Some (RoundRobinSelect OwnerProvider
                             (Z.of_nat (m mod List.length P + 1) - 1)).
Proof.
  intros Hp Hr Hrot Hsel Hm.
  assert (Hn : List.length P <> O) by (unfold len in P_slice; lia).
  assert (Hnth : exists c : nat, nth (m mod List.length P) P None = Some c).
  { destruct (nth (m mod List.length P) P None) as [c |] eqn:Hc;
      [now exists c | exfalso].
    apply has_nil_false in P_nil_free. apply P_nil_free.
    rewrite <- Hc. apply nth_In. now apply Nat.mod_upper_bound. }
  destruct Hnth as (c & Hc).
  unfold ProxyManagerImpl_GetNextProxy, getResourceByDomain.
  rewrite not_both_empty
    by (rewrite Hp; intros [HP _]; rewrite HP in Hn; now apply Hn).
  rewrite Hr.
  cbn [andb getResourceByDomain_loop errors_Is errors_Is_nonnil error_eqb
       orb negb].
  unfold decide_global, ProxyManagerImpl_LastUsed, keeps_lastUsed.
  rewrite Hrot, Hsel.
  assert (Hkeep : match lastUsed (pm w) with
                  | Some l => Ok (negb (ShouldRotate RoundRobinRotation
                                                     (heap w l)))
                  | None => Ok false
                  end = Ok false)
    by (destruct (lastUsed (pm w)); reflexivity).
  rewrite Hkeep, Hp.
  rewrite (round_robin_step P (heap w) P_slice m (randDraws w) Hm), Hc.
  cbn [install_current]. exists c. eexists. split; [reflexivity |].
  unfold ProxyManagerImpl_GetProxies, resource_list in *.
  cbn [pm set_lastUsed set_selectStrategy proxies resources
       rotationStrategy selectStrategy proxyArrays resourceArrays].
  repeat split; assumption.
Qed.

Lemma round_robin_manager_calls (k m j : nat) (w : World) :
  ProxyManagerImpl_GetProxies (proxyArrays w) (pm w) = P ->
  resource_list w = [] ->
  rotationStrategy (pm w) = Some RoundRobinRotation ->
  selectStrategy (pm w)
  = Some (RoundRobinSelect OwnerProvider (Z.of_nat m - 1)) ->
  (m <= List.length P)%nat -> (j < k)%nat ->
  nth_error (GetNextProxy_calls k d w) j
  = Some (Ok (nth ((m + j) mod List.length P) P None, None)).
Proof.
  assert (Hn : List.length P <> O) by (unfold len in P_slice; lia).
  revert m j w. induction k as [| k IH]; intros m j w Hp Hr Hrot Hsel Hm Hj;
    [lia |].
  destruct (round_robin_manager_step w m Hp Hr Hrot Hsel Hm)
    as (c & w' & Hget & Hc & Hp' & Hr' & Hrot' & Hsel').
  cbn [GetNextProxy_calls]. rewrite Hget.
  destruct j as [| j]; cbn [nth_error].
  - now rewrite Nat.add_0_r, Hc.
  - rewrite (IH (m mod List.length P + 1)%nat j w' Hp' Hr' Hrot' Hsel').
    + do 4 f_equal.
      rewrite <- Nat.add_assoc, Nat.Div0.add_mod_idemp_l. f_equal.
    + pose proof (Nat.mod_upper_bound m (List.length P) Hn). lia.
    + lia.
Qed.

(** A manager without resources that rotates on every request
    ([RoundRobinRotation]) and selects in turn ([NewRoundRobinSelect], no
    filters) hands out the proxies of its pool in the order of the pool,
    again and again, whatever the domain and whatever [lastUsed] was: the
    [i]-th call of [GetNextProxy] (from 1) returns [P[(i-1) mod n]], which is
    not nil, and a nil error. *)
Theorem round_robin_manager_in_order (w : World) (k i : nat) :
  ProxyManagerImpl_GetProxies (proxyArrays w) (pm w) = P ->
  resource_list w = [] ->
  rotationStrategy (pm w) = Some RoundRobinRotation ->
  selectStrategy (pm w)
  = Some (apply_factory NewRoundRobinSelect OwnerProvider) ->
  (1 <= i <= k)%nat ->
  nth_error (GetNextProxy_calls k d w) (i - 1)
  = Some (Ok (nth ((i - 1) mod List.length P) P None, None)) /\
  exists c : nat, nth ((i - 1) mod List.length P) P None = Some c.
Proof.
  intros Hp Hr Hrot Hsel Hi. split.
  - exact (round_robin_manager_calls k 0 (i - 1) w Hp Hr Hrot Hsel
             (Nat.le_0_l _) ltac:(lia)).
  - assert (Hn : List.length P <> O) by (unfold len in P_slice; lia).
    destruct (nth ((i - 1) mod List.length P) P None) as [c |] eqn:Hc;
      [now exists c | exfalso].
    apply has_nil_false in P_nil_free. apply P_nil_free.
    rewrite <- Hc. apply nth_In. now apply Nat.mod_upper_bound.
Qed.

End RoundRobinManager.


(** ** The default policy on a pool of two proxies *)

Section TwoProxies.

Context {lib : GoLib}.

Lemma draw_of_two (k : nat) :
  rand_in_range lib -> rand_IntN k 2 = 0 \/ rand_IntN k 2 = 1.
Proof. intros Hrand. pose proof (Hrand k 2 ltac:(lia)). lia. Qed.

Lemma draw_of_one (k : nat) : rand_in_range lib -> rand_IntN k 1 = 0.
Proof. intros Hrand. pose proof (Hrand k 1 ltac:(lia)). lia. Qed.

Lemma failed_report_on_fresh (r : Report) :
  report_success r = false ->
  (ProxyStats_ErrorCount
     (ProxyStats_Update (rep_now r) (rep_response r) (rep_err r)
                        ProxyStats_zero) >=? 1) = true.
Proof.
  intros Hr. unfold report_success in Hr.
  destruct (rep_response r), (rep_err r); try discriminate; reflexivity.
Qed.

#[local] Arguments slice_elems : simpl never.
#[local] Arguments slice_len : simpl never.

Ltac two_proxies_simpl :=
  repeat (progress (rewrite ?Nat.eqb_refl; cbn;
                    repeat match goal with
                           | H : _ = _ |- _ => rewrite H
                           end; cbn)).

(** The default policy on two proxies: for a manager that [NewProxyManager]
    made with the default rotation and select strategies over a slice of two
    proxies that [NewProxy] made, the first decision returns one of the two
    and marks it active; once a failed request is reported on it, the next
    decision returns the other proxy, makes that one the active [lastUsed]
    and clears the flag of the first.  The random source is within its
    range. *)
Theorem default_policy_two_proxies (h : ProxyHeap) (rh : ResourceHeap)
        (pa : Arrays ProxyPtr) (ra : Arrays ResourcePtr) (s : Slice)
        (m : ProxyManagerImpl) (a b : nat) (ua ub : option string)
        (draws calls : nat) (d d' : string) (r : Report) :
  rand_in_range lib ->
  a <> b -> h a = NewProxy ua -> h b = NewProxy ub ->
  report_success r = false ->
  slice_elems pa s = [Some a; Some b] ->
  NewProxyManager [WithProxies s;
                   WithRotationStrategy (Some DefaultRotationStrategy);
                   WithSelectStrategy (Some DefaultSelectStrategy)] = Ok m ->
  exists (c c' : nat) (w1 w2 w3 : World),
    ProxyManagerImpl_GetNextProxy d (mkWorld h rh pa ra m draws calls)
    = (Ok (Some c, None), w1) /\
    (c = a /\ c' = b \/ c = b /\ c' = a) /\
    Proxy_IsActive (heap w1 c) = true /\
    exec (CallUpdate c r) w1 = Ok w2 /\
    ProxyManagerImpl_GetNextProxy d' w2 = (Ok (Some c', None), w3) /\
    Proxy_IsActive (heap w3 c) = false /\
    Proxy_IsActive (heap w3 c') = true /\
    ProxyManagerImpl_LastUsed (pm w3) = Some c'.
Proof.
  intros Hrand Hab Ha Hb Hr Hs Hnew. cbn in Hnew. injection Hnew as <-.
  assert (Hlen : slice_len s = 2)
    by (rewrite <- (len_slice_elems pa), Hs; reflexivity).
  assert (Hres : slice_elems ra empty_slice = []) by reflexivity.
  assert (Hba : b <> a) by congruence.
  pose proof (proj2 (Nat.eqb_neq a b) Hab) as Eab.
  pose proof (proj2 (Nat.eqb_neq b a) Hba) as Eba.
  pose proof (failed_report_on_fresh r Hr) as Hfailed.
  pose proof (draw_of_one (S draws) Hrand) as Hone.
  destruct (draw_of_two draws Hrand) as [Hdraw | Hdraw];
    [exists a, b | exists b, a]; do 3 eexists.
  all: split;
    [unfold ProxyManagerImpl_GetNextProxy, getResourceByDomain,
       resource_list, ProxyManagerImpl_GetProxies;
     two_proxies_simpl; unfold RandomSelect_Select, ProxyManagerImpl_GetProxies;
     two_proxies_simpl; rewrite ?Hdraw; cbn; reflexivity |].
  all: split; [(left + right); now split |].
  all: split; [cbn; unfold heap_set; now rewrite Nat.eqb_refl |].
  all: split; [reflexivity |].
  all: split;
    [unfold ProxyManagerImpl_GetNextProxy, getResourceByDomain,
       resource_list, ProxyManagerImpl_GetProxies;
     two_proxies_simpl; unfold heap_set;
     two_proxies_simpl; unfold RandomSelect_Select, ProxyManagerImpl_GetProxies;
     two_proxies_simpl;
     rewrite ?Hone; cbn; unfold heap_set; two_proxies_simpl; reflexivity |].
  all: cbn; two_proxies_simpl; repeat split.
Qed.

End TwoProxies.

(** ** Adding proxies and resources *)

Section AddingMore.

Context {lib : GoLib}.

(** [AddProxies] makes the global pool hold what it held, followed by the
    proxies, and [AddResources] does the same with the list of resources.
    Neither changes a [Proxy], a field of a [ResourceConfig], [lastUsed] or
    a strategy, and [AddResources] changes no pool.  When the pools share no
    memory, [AddProxies] leaves the pools of the resources as they were, and
    the pools share no memory afterwards either. *)
Theorem AddProxies_AddResources_effect (ps : list ProxyPtr)
        (rs : list ResourcePtr) (w : World) :
  let w1 := ProxyManagerImpl_AddProxies ps w in
  let w2 := ProxyManagerImpl_AddResources rs w in
  (ProxyManagerImpl_GetProxies (proxyArrays w1) (pm w1)
   = (ProxyManagerImpl_GetProxies (proxyArrays w) (pm w) ++ ps)%list /\
   resource_list w1 = resource_list w /\
   heap w1 = heap w /\ rheap w1 = rheap w /\
   lastUsed (pm w1) = lastUsed (pm w) /\
   rotationStrategy (pm w1) = rotationStrategy (pm w) /\
   selectStrategy (pm w1) = selectStrategy (pm w) /\
   (pools_separate w ->
    pools_separate w1 /\
    forall r : nat,
      ResourceConfig_GetProxies (proxyArrays w1) (rheap w1 r)
      = ResourceConfig_GetProxies (proxyArrays w) (rheap w r))) /\
  (resource_list w2 = (resource_list w ++ rs)%list /\
   ProxyManagerImpl_GetProxies (proxyArrays w2) (pm w2)
   = ProxyManagerImpl_GetProxies (proxyArrays w) (pm w) /\
   (forall r : nat,
       ResourceConfig_GetProxies (proxyArrays w2) (rheap w2 r)
       = ResourceConfig_GetProxies (proxyArrays w) (rheap w r)) /\
   heap w2 = heap w /\ rheap w2 = rheap w /\
   lastUsed (pm w2) = lastUsed (pm w) /\
   rotationStrategy (pm w2) = rotationStrategy (pm w) /\
   selectStrategy (pm w2) = selectStrategy (pm w)).
Proof.
  cbn zeta. split.
  - destruct (AddProxies_fields ps w)
      as (_ & _ & Hh & Hrh & _ & _ & Hl & Hrot & Hsel & _).
    destruct (AddProxies_pools ps w) as (Hg & Hrs & Hres).
    split; [exact Hg |]. split; [exact Hrs |].
    split; [exact Hh |]. split; [exact Hrh |].
    split; [exact Hl |]. split; [exact Hrot |]. split; [exact Hsel |].
    intros Hsep. split; [now apply AddProxies_separate | now apply Hres].
  - destruct (AddResources_fields rs w)
      as (_ & _ & Hh & Hrh & _ & _ & Hl & Hrot & Hsel & _).
    destruct (AddResources_pools rs w) as (Hrs & Hg & Hres).
    split; [exact Hrs |]. split; [exact Hg |]. split; [exact Hres |].
    split; [exact Hh |]. split; [exact Hrh |].
    split; [exact Hl |]. split; [exact Hrot |]. exact Hsel.
Qed.


End AddingMore.

(** ** Examples for the further properties *)

(** Two filtered providers over a filtered provider whose lists hold the
    same two filters, in another order and with a repetition, on the sample
    pool. *)
Lemma FilteredSelectProvider_order_irrelevant_witness :
  Provider_GetProxies
    (NewFilteredSelectProvider
       (NewFilteredSelectProvider OwnerProvider [RemoveDisabledFilter])
       [RemoveActiveProxyFilter; RemoveDisabledFilter])
    fresh_heap sample_pool
  = Provider_GetProxies
      (NewFilteredSelectProvider
         (NewFilteredSelectProvider OwnerProvider [RemoveDisabledFilter])
         [RemoveDisabledFilter; RemoveActiveProxyFilter;
          RemoveDisabledFilter])
      fresh_heap sample_pool.
Proof.
  apply FilteredSelectProvider_order_irrelevant.
  intros f; destruct f; simpl; tauto.
Defined.

(** The default select strategy on the sample pool returns the proxy 0. *)
Lemma Select_passes_filters_witness :
  In (Some 0%nat) sample_pool /\
  (In RemoveActiveProxyFilter
      (provider_filters
         (strategy_provider
            (apply_factory DefaultSelectStrategy OwnerProvider))) ->
   Proxy_IsActive (fresh_heap 0%nat) = false) /\
  (In RemoveDisabledFilter
      (provider_filters
         (strategy_provider
            (apply_factory DefaultSelectStrategy OwnerProvider))) ->
   Proxy_IsDisabled (fresh_heap 0%nat) = false) /\
  (apply_factory DefaultSelectStrategy OwnerProvider
   = apply_factory DefaultSelectStrategy OwnerProvider ->
   Proxy_IsActive (fresh_heap 0%nat) = false /\
   Proxy_IsDisabled (fresh_heap 0%nat) = false).
Proof.
  apply (@Select_passes_filters
           sample_lib (apply_factory DefaultSelectStrategy OwnerProvider)
           fresh_heap sample_pool 0%nat 0%nat).
  reflexivity.
Defined.

(** The default select strategy on the sample pool, whose proxies all
    pass. *)
Lemma Select_succeeds_iff_some_passes_witness :
  let s := apply_factory DefaultSelectStrategy OwnerProvider in
  ((exists c : nat,
       fst (fst (Select (lib := sample_lib) s fresh_heap sample_pool 0%nat))
       = Ok (Some c, None))
   <-> exists x : ProxyPtr,
       In x sample_pool /\
       passes_all (provider_filters (strategy_provider s)) fresh_heap x
       = true) /\
  (fst (fst (Select (lib := sample_lib) s fresh_heap sample_pool 0%nat))
   = Ok (None, Some emptyProxiesError)
   <-> forall x : ProxyPtr,
       In x sample_pool ->
       passes_all (provider_filters (strategy_provider s)) fresh_heap x
       = false).
Proof.
  cbn zeta.
  apply (@Select_succeeds_iff_some_passes
           sample_lib (apply_factory DefaultSelectStrategy OwnerProvider)
           fresh_heap sample_pool 0%nat).
  - reflexivity.
  - vm_compute. discriminate.
  - exact I.
  - exact sample_lib_rand_in_range.
Defined.

(** Three reports on a proxy, the second of a failed request. *)
Lemma ProxyStats_counts_reports_witness :
  let p := Proxy_run (lib := sample_lib) sample_reports
                     (NewProxy (Some "http://proxy:8080")) in
  let s := Proxy_Stats p in
  ProxyStats_TotalRequests s = 3 /\
  ProxyStats_SuccessCount s = 2 /\
  ProxyStats_ErrorCount s = 1 /\
  ProxyStats_LastUsed s = 3 /\
  url p = Some "http://proxy:8080" /\
  Proxy_IsActive p = false /\ Proxy_IsDisabled p = false.
Proof.
  apply (@ProxyStats_counts_reports
           sample_lib (Some "http://proxy:8080") sample_reports).
  vm_compute. reflexivity.
Defined.

(** The rotation strategies after the three reports, with a threshold of one
    error and a limit of four requests. *)
Lemma rotation_after_reports_witness :
  let p := Proxy_run (lib := sample_lib) sample_reports
                     (NewProxy (Some "http://proxy:8080")) in
  ShouldRotate (NewErrorThresholdRotation 1) p = true /\
  ShouldRotate (NewRequestLimitedRotation 4) p = false /\
  ShouldRotate DefaultRotationStrategy p = true /\
  ShouldRotate OnlyEnabledRotation p = false.
Proof.
  apply (@rotation_after_reports
           sample_lib (Some "http://proxy:8080") sample_reports 1 4).
  vm_compute. reflexivity.
Defined.

(** A resource made with normalization from a URL in mixed case. *)
Lemma NewResourceConfig_matches_given_domain_witness :
  ResourceConfig_Domain rc_example_com = "example.com" /\
  (true = true ->
   CompareDomain (lib := sample_lib) rc_example_com
                 "https://Example.COM/path" = true).
Proof.
  apply (@NewResourceConfig_matches_given_domain
           sample_lib true
           [WithDomain "https://Example.COM/path";
            WithResourceRotationStrategy (Some DefaultRotationStrategy);
            WithResourceSelectStrategy (Some DefaultSelectStrategy)]
           rc_example_com).
  reflexivity.
Defined.

(** The first decision of the sample manager for ["x.com"]. *)
Lemma GetNextProxy_frame_witness :
  let w := sample_world in
  let w' := snd (ProxyManagerImpl_GetNextProxy (lib := sample_lib)
                                               "x.com" sample_world) in
  (forall i : nat,
      url (heap w' i) = url (heap w i) /\
      Proxy_Stats (heap w' i) = Proxy_Stats (heap w i) /\
      Proxy_IsDisabled (heap w' i) = Proxy_IsDisabled (heap w i)) /\
  (forall i : nat,
      Some i <> lastUsed (pm w) -> Some i <> Some 0%nat ->
      Proxy_IsActive (heap w' i) = Proxy_IsActive (heap w i)) /\
  ProxyManagerImpl_GetProxies (proxyArrays w') (pm w')
  = ProxyManagerImpl_GetProxies (proxyArrays w) (pm w) /\
  resource_list w' = resource_list w /\
  rotationStrategy (pm w') = rotationStrategy (pm w) /\
  (forall j : nat,
      ResourceConfig_GetProxies (proxyArrays w') (rheap w' j)
      = ResourceConfig_GetProxies (proxyArrays w) (rheap w j) /\
      ResourceConfig_Domain (rheap w' j) = ResourceConfig_Domain (rheap w j) /\
      notIgnoreSubdomains (rheap w' j) = notIgnoreSubdomains (rheap w j) /\
      rc_rotationStrategy (rheap w' j) = rc_rotationStrategy (rheap w j)) /\
  proxyArrays w' = proxyArrays w /\
  resourceArrays w' = resourceArrays w /\
  proxies (pm w') = proxies (pm w) /\
  resources (pm w') = resources (pm w) /\
  (forall j : nat, rc_proxies (rheap w' j) = rc_proxies (rheap w j)).
Proof.
  cbn zeta.
  apply (@GetNextProxy_frame sample_lib "x.com" sample_world
           (Some 0%nat, None)).
  reflexivity.
Defined.

(** The first decision of the sample manager for ["a.com"], which its
    resource matches: the proxy 3 of the resource's pool. *)
Lemma GetNextProxy_selects_in_scope_witness :
  lastUsed (pm sample_world) = Some 3%nat \/
  exists (s : SelectStrategy) (pool : list ProxyPtr),
    applicable_select (lib := sample_lib) sample_world "a.com"
    = Ok (Some s) /\
    applicable_pool (lib := sample_lib) sample_world "a.com" = Ok pool /\
    In (Some 3%nat) pool /\
    passes_all (provider_filters (strategy_provider s)) (heap sample_world)
               (Some 3%nat)
    = true.
Proof.
  apply (@GetNextProxy_selects_in_scope sample_lib "a.com" sample_world
           3%nat
           (snd (ProxyManagerImpl_GetNextProxy (lib := sample_lib)
                                               "a.com" sample_world))).
  reflexivity.
Defined.

(** The decision for ["b.com"] after the calls [sample_calls_2], which
    disabled the proxy 1: the proxy 4 is returned. *)
Lemma GetNextProxy_default_policy_enabled_witness :
  Proxy_IsDisabled
    (heap (snd (ProxyManagerImpl_GetNextProxy
                  (lib := sample_lib) "b.com"
                  (after sample_calls_2 sample_world))) 4%nat)
  = false.
Proof.
  apply (@GetNextProxy_default_policy_enabled
           sample_lib "b.com" (after sample_calls_2 sample_world)
           (apply_factory DefaultSelectStrategy OwnerProvider) 4%nat).
  - reflexivity.
  - reflexivity.
  - simpl. right. left. reflexivity.
  - reflexivity.
Defined.

(** The same decision: the proxy 0, on which a failure was reported, is left
    for the proxy 4. *)
Lemma GetNextProxy_rotates_to_another_witness :
  4%nat <> 0%nat /\
  Proxy_IsActive
    (heap (snd (ProxyManagerImpl_GetNextProxy
                  (lib := sample_lib) "b.com"
                  (after sample_calls_2 sample_world))) 0%nat)
  = false.
Proof.
  apply (@GetNextProxy_rotates_to_another
           sample_lib sample_opts sample_world sample_calls_2
           (after sample_calls_2 sample_world) "b.com" 0%nat
           DefaultRotationStrategy
           (apply_factory DefaultSelectStrategy OwnerProvider) 4%nat).
  - reflexivity.
  - intros i. reflexivity.
  - reflexivity.
  - reflexivity.
  - reflexivity.
  - reflexivity.
  - reflexivity.
  - simpl. left. reflexivity.
  - reflexivity.
Defined.

(** The manager with two resources: ["a.com"] is matched by the second, the
    first being the one for ["example.com"]. *)
Lemma getResourceByDomain_first_match_witness :
  @None error = None /\
  CompareDomain (lib := sample_lib) (rheap sample_world_2 1%nat) "a.com"
  = true /\
  exists before after : list ResourcePtr,
    resource_list sample_world_2 = (before ++ Some 1%nat :: after)%list /\
    Forall (fun x => exists i : nat,
                x = Some i /\
                CompareDomain (lib := sample_lib) (rheap sample_world_2 i)
                              "a.com" = false)
           before.
Proof.
  apply (@getResourceByDomain_first_match
           sample_lib sample_world_2 "a.com" (Some 1%nat) None).
  reflexivity.
Defined.

(** The pools of the manager with two resources share no memory. *)
Lemma sample_world_2_separate : pools_separate sample_world_2.
Proof.
  unfold pools_separate, slice_ok, slices_apart, sample_world_2,
    sample_rheap_2.
  cbn [pm rheap proxyArrays proxies].
  split; [cbn; lia |].
  split; [intros r; destruct (r =? 0)%nat, (r =? 1)%nat; cbn; lia |].
  split; [intros r; destruct (r =? 0)%nat, (r =? 1)%nat; cbn; lia |].
  intros r r' Hne.
  destruct r as [| [| r]], r' as [| [| r']]; cbn; lia.
Qed.

(** Two proxies added for ["www.example.com"], which the first of the two
    resources matches; the pools share no memory. *)
Lemma AddResourceProxies_effect_witness :
  let w := sample_world_2 in
  let w' := snd (ProxyManagerImpl_AddResourceProxies
                   (lib := sample_lib) "www.example.com"
                   [Some 5%nat; Some 6%nat] sample_world_2) in
  pools_separate w /\
  exists r : nat,
    getResourceByDomain (lib := sample_lib) w "www.example.com"
    = Ok (Some r, None) /\
    getResourceByDomain (lib := sample_lib) w' "www.example.com"
    = Ok (Some r, None) /\
    ResourceConfig_GetProxies (proxyArrays w') (rheap w' r)
    = (ResourceConfig_GetProxies (proxyArrays w) (rheap w r)
         ++ [Some 5%nat; Some 6%nat])%list /\
    (forall j : nat, j <> r -> rheap w' j = rheap w j) /\
    pm w' = pm w /\ heap w' = heap w /\
    resource_list w' = resource_list w /\
    (pools_separate w ->
     ProxyManagerImpl_GetProxies (proxyArrays w') (pm w')
     = ProxyManagerImpl_GetProxies (proxyArrays w) (pm w) /\
     forall j : nat,
       j <> r ->
       ResourceConfig_GetProxies (proxyArrays w') (rheap w' j)
       = ResourceConfig_GetProxies (proxyArrays w) (rheap w j)).
Proof.
  cbn zeta. split; [exact sample_world_2_separate |].
  apply (@AddResourceProxies_effect
           sample_lib "www.example.com" [Some 5%nat; Some 6%nat]
           sample_world_2 None).
  reflexivity.
Defined.

(** The selector of the sample manager for ["x.com"]: the proxy 0, a direct
    connection, hence a nil URL. *)
Lemma GetProxySelector_returns_witness :
  let w' := snd (GetProxySelector (lib := sample_lib) "x.com"
                                  sample_world) in
  exists p : nat,
    ProxyManagerImpl_GetNextProxy (lib := sample_lib) "x.com" sample_world
    = (Ok (Some p, None), w') /\
    ProxyManagerImpl_LastUsed (pm w') = Some p /\
    Proxy_IsDisabled (heap w' p) = false /\
    @None string = url (heap w' p) /\
    (@None string = None <-> Proxy_IsDirect (heap w' p) = true).
Proof.
  cbn zeta.
  apply (@GetProxySelector_returns sample_lib "x.com" sample_world
           None None).
  reflexivity.
Defined.

(** A round trip through the sample transport: the response is reported to
    the proxy 0 that the transport obtained. *)
Lemma RoundTrip_reports_to_lastUsed_witness :
  let w' := snd (ProxyTransport_RoundTrip (lib := sample_lib)
                                          sample_transport 7 sample_world) in
  exists w1 : World,
    sample_transport sample_world = (Ok (Some 200, None), w1) /\
    pm w' = pm w1 /\ rheap w' = rheap w1 /\
    match ProxyManagerImpl_LastUsed (pm w1) with
    | None => w' = w1
    | Some p =>
        heap w' p = Proxy_Update (lib := sample_lib) 7 (Some 200) None
                                 (heap w1 p) /\
        ProxyStats_TotalRequests (Proxy_Stats (heap w' p))
        = uint_incr (ProxyStats_TotalRequests (Proxy_Stats (heap w1 p))) /\
        (ProxyStats_SuccessCount (Proxy_Stats (heap w' p))
         <> ProxyStats_SuccessCount (Proxy_Stats (heap w1 p))
         <-> Some 200 <> None /\ @None error = None) /\
        (forall i : nat, i <> p -> heap w' i = heap w1 i)
    end.
Proof.
  cbn zeta.
  apply (@RoundTrip_reports_to_lastUsed sample_lib sample_transport 7
           sample_world (Some 200) None).
  reflexivity.
Defined.

(** The first decision of the sample manager for ["x.com"]: every proxy of
    the global pool passes, so a proxy is returned. *)
Lemma GetNextProxy_selection_decides_witness :
  exists (c : nat) (w' : World),
    ProxyManagerImpl_GetNextProxy (lib := sample_lib) "x.com" sample_world
    = (Ok (Some c, None), w') /\
    In (Some c) sample_pool /\
    ProxyManagerImpl_LastUsed (pm w') = Some c /\
    Proxy_IsActive (heap w' c) = true.
Proof.
  apply (@GetNextProxy_selection_decides
           sample_lib "x.com" sample_world (Some DefaultRotationStrategy)
           (apply_factory DefaultSelectStrategy OwnerProvider) sample_pool).
  - intros [H _]. discriminate H.
  - reflexivity.
  - exact I.
  - reflexivity.
  - reflexivity.
  - reflexivity.
  - vm_compute. discriminate.
  - exact I.
  - exact sample_lib_rand_in_range.
Defined.

(** A round-robin strategy over a pool that shrinks to one proxy, then to
    none, and grows again. *)
Lemma Select_survives_pool_changes_witness :
  Forall2 (fun env r =>
             r = Ok (None, Some emptyProxiesError) \/
             exists c : nat, r = Ok (Some c, None) /\ In (Some c) (snd env))
          sample_envs
          (select_over (lib := sample_lib) sample_envs
                       (apply_factory NewRoundRobinSelect OwnerProvider)
                       0%nat).
Proof.
  apply (@Select_survives_pool_changes sample_lib NewRoundRobinSelect
           sample_envs 0%nat).
  - exact sample_lib_rand_in_range.
  - repeat constructor; vm_compute; discriminate.
Defined.

(** The fourth of five calls on the round-robin manager with the sample pool
    returns the proxy 0 again. *)
Lemma round_robin_manager_in_order_witness :
  nth_error (GetNextProxy_calls (lib := sample_lib) 5 "x.com"
                                round_robin_world) (4 - 1)
  = Some (Ok (nth ((4 - 1) mod List.length sample_pool) sample_pool None,
              None)) /\
  exists c : nat,
    nth ((4 - 1) mod List.length sample_pool) sample_pool None = Some c.
Proof.
  apply (@round_robin_manager_in_order sample_lib sample_pool "x.com").
  - vm_compute. split; discriminate.
  - reflexivity.
  - reflexivity.
  - reflexivity.
  - reflexivity.
  - reflexivity.
  - lia.
Defined.

(** Two direct connections, a decision for ["x.com"], a failure reported,
    a decision for ["y.com"]. *)
Lemma default_policy_two_proxies_witness :
  exists (c c' : nat) (w1 w2 w3 : World),
    ProxyManagerImpl_GetNextProxy
      (lib := sample_lib) "x.com"
      (mkWorld fresh_heap sample_rheap
               sample_proxyArrays sample_resourceArrays
               (mkProxyManagerImpl
                  (mkSlice 0 0 2 3) empty_slice None
                  (Some DefaultRotationStrategy)
                  (Some (apply_factory DefaultSelectStrategy OwnerProvider)))
               0 0)
    = (Ok (Some c, None), w1) /\
    (c = 0%nat /\ c' = 1%nat \/ c = 1%nat /\ c' = 0%nat) /\
    Proxy_IsActive (heap w1 c) = true /\
    exec (CallUpdate c report_failed) w1 = Ok w2 /\
    ProxyManagerImpl_GetNextProxy (lib := sample_lib) "y.com" w2
    = (Ok (Some c', None), w3) /\
    Proxy_IsActive (heap w3 c) = false /\
    Proxy_IsActive (heap w3 c') = true /\
    ProxyManagerImpl_LastUsed (pm w3) = Some c'.
Proof.
  apply (@default_policy_two_proxies
           sample_lib fresh_heap sample_rheap
           sample_proxyArrays sample_resourceArrays (mkSlice 0 0 2 3)
           _ 0%nat 1%nat None None
           0%nat 0%nat "x.com" "y.com" report_failed).
  - exact sample_lib_rand_in_range.
  - discriminate.
  - reflexivity.
  - reflexivity.
  - reflexivity.
  - reflexivity.
  - reflexivity.
Defined.

